(** * simple-people-benchmark: a shallow embedding and its verification

    The development follows the Python package [simple-people-benchmark/src]:

    - [metrics.py]            -> [compute_retrieval_metrics] on lists of grade dicts,
    - [graders/people.py]     -> [PeopleGrader.grade],
    - [searchers/base.py]     -> [SearchResult], [Searcher],
    - [searchers/parallel.py] -> [ParallelSearcher.search],
    - [searchers/brave.py]    -> [BraveSearcher.search],
    - [searchers/exa.py]      -> [ExaSearcher.search],
    - [benchmark.py]          -> [load_queries], [fetch_exa_contents],
                                 [enrich_results], [Benchmark._grade],
                                 [Benchmark._run_searcher], [Benchmark.run],
                                 [_build_searcher], [main].

    Python [float] is IEEE 754 binary64, which is what Rocq's primitive
    [float] computes; Python [int] is [Z]; a raised exception ([Exception]
    and below, what [except Exception] catches) is the [Raise] branch of
    [outcome]; a [dict] used as a finite map is a [gmap]; a [dict] whose
    insertion order is observable is an association list.  Calls that leave
    the process (HTTP requests, the file system, the LLM client, the
    environment) are the fields of [World], functions of their arguments.

    A Python [str] is a [string] holding its UTF-8 encoding, which keeps
    equality, emptiness and concatenation; where the code counts, cuts or
    splits characters ([searchers/brave.py]) the string is read as the list
    of its code points ([code_points]).

    The builtin [sum] adds floats from left to right up to CPython 3.11
    ([fsum]) and with Neumaier's compensation from CPython 3.12 on ([csum]);
    [compute_retrieval_metrics] is the function on the former,
    [compute_retrieval_metrics_on] the function on either.

    The asyncio part is given twice: as functions of the order in which the
    coroutines complete ([Benchmark._run_searcher], [Benchmark.run]), and as
    a step relation on the coroutines, the two semaphores and the shared
    list of grades ([Scheduling]); the second justifies the first
    ([finished_run_adequate], [raised_run_adequate]). *)

From Stdlib Require Import ZArith List Floats Uint63 Lia Permutation.
From stdpp Require Import base option list sorting gmap strings.

Local Open Scope Z_scope.

(** ** Exceptions *)

(** The result of a call that may raise: a value, or the exception raised. *)
Inductive outcome (A : Type) : Type :=
| Ok (a : A)
| Raise (e : string).
Arguments Ok {A} a.
Arguments Raise {A} e.

#[global] Instance outcome_ret : MRet outcome := fun A a => Ok a.
#[global] Instance outcome_bind : MBind outcome := fun A B k m =>
  match m with
  | Ok a => k a
  | Raise e => Raise e
  end.

(** [try: body except Exception as e: handler e]. *)
Definition try_except {A} (body : outcome A) (handler : string -> outcome A) : outcome A :=
  match body with
  | Ok a => Ok a
  | Raise e => handler e
  end.

(** [await asyncio.gather] over the awaitables [aws]: the results in the
    order of [aws], or an exception as soon as one of them raises.  When
    several raise, the one reported here is the first in list order. *)
Fixpoint gather {A} (aws : list (outcome A)) : outcome (list A) :=
  match aws with
  | [] => Ok []
  | aw :: rest =>
      match aw with
      | Raise e => Raise e
      | Ok a =>
          match gather rest with
          | Ok l => Ok (a :: l)
          | Raise e => Raise e
          end
      end
  end.

(** [enumerate(l, start)]. *)
Fixpoint enumerate {A} (l : list A) (start : Z) : list (Z * A) :=
  match l with
  | [] => []
  | x :: rest => (start, x) :: enumerate rest (start + 1)
  end.

(** Python truthiness of a [str | None] value. *)
Definition truthy (s : option string) : bool :=
  match s with
  | Some s => negb (String.eqb s "")
  | None => false
  end.

(** [int] to [float]. Exact below 2^53; list lengths are the only arguments. *)
Definition float_of_Z (z : Z) : float := PrimFloat.of_uint63 (Uint63.of_Z z).

(** [sum(xs)] over floats: left to right from [0]. *)
Definition fsum (xs : list float) : float := fold_left PrimFloat.add xs 0%float.

(** The interpreters the package runs on, by what their [sum] does with
    floats. *)
Inductive CPython : Type :=
| UpTo311    (** [f_result += x] *)
| From312.   (** Neumaier's compensated summation *)

(** One turn of the float loop of [sum] from CPython 3.12 on:
    [t = f_result + x], then
    [c += (f_result - t) + x] if [fabs(f_result) >= fabs(x)] and
    [c += (x - t) + f_result] otherwise, then [f_result = t]. *)
Definition neumaier_step (acc : float * float) (x : float) : float * float :=
  let '(f_result, c) := acc in
  let t := PrimFloat.add f_result x in
  (t, if PrimFloat.leb (PrimFloat.abs x) (PrimFloat.abs f_result)
      then PrimFloat.add c (PrimFloat.add (PrimFloat.sub f_result t) x)
      else PrimFloat.add c (PrimFloat.add (PrimFloat.sub x t) f_result)).

(** [sum(xs)] over floats from CPython 3.12 on: the first float is added to
    the integer [0], the others go through the compensated loop, and the
    compensation is added at the end [if (c && Py_IS_FINITE(c))]. *)
Definition csum (xs : list float) : float :=
  match xs with
  | [] => 0%float
  | x :: rest =>
      let '(f_result, c) :=
        fold_left neumaier_step rest (PrimFloat.add 0%float x, 0%float) in
      if negb (PrimFloat.eqb c 0%float) && PrimFloat.is_finite c
      then PrimFloat.add f_result c
      else f_result
  end.

Definition builtin_sum (py : CPython) (xs : list float) : float :=
  match py with
  | UpTo311 => fsum xs
  | From312 => csum xs
  end.

(** The code points of a [str], decoded from its UTF-8 bytes (a lone
    surrogate taken in its three-byte form, so that every [str] has its
    bytes).  Only the encodings of [str] values are of interest: a lead
    byte gives the length of its sequence, and an incomplete last sequence is
    dropped. *)
Fixpoint decode_utf8 (bytes : list N) : list N :=
  match bytes with
  | [] => []
  | b0 :: rest =>
      if (b0 <? 128)%N then b0 :: decode_utf8 rest
      else if (b0 <? 224)%N then
        match rest with
        | b1 :: rest' => ((b0 - 192) * 64 + (b1 - 128))%N :: decode_utf8 rest'
        | [] => []
        end
      else if (b0 <? 240)%N then
        match rest with
        | b1 :: b2 :: rest' =>
            ((b0 - 224) * 4096 + (b1 - 128) * 64 + (b2 - 128))%N :: decode_utf8 rest'
        | _ => []
        end
      else
        match rest with
        | b1 :: b2 :: b3 :: rest' =>
            ((b0 - 240) * 262144 + (b1 - 128) * 4096 + (b2 - 128) * 64 + (b3 - 128))%N
              :: decode_utf8 rest'
        | _ => []
        end
  end.

Definition code_points (s : string) : list N :=
  decode_utf8 (map Ascii.N_of_ascii (String.list_ascii_of_string s)).

(** ** searchers/base.py *)

Inductive MetaVal : Type :=
| MNone
| MInt (z : Z)
| MStr (s : string).

Record SearchResult : Type := mkSearchResult {
  url : string;
  title : string;
  text : string;
  metadata : list (string * MetaVal)
}.

(** The abstract class [Searcher]: a [name] and an async [search]. *)
Record Searcher : Type := mkSearcher {
  name : string;
  search : string -> Z -> outcome (list SearchResult)
}.

(** ** searchers/parallel.py *)

Module ParallelSearcher.

(** The value under ["excerpts"]: a list of strings, or anything else,
    kept as its [str()]. *)
Inductive Excerpts : Type :=
| ExList (l : list string)
| ExOther (repr : string).

(** One object of the provider's ["results"] array; [None] is a missing key
    (or a JSON null where the code reads with [.get(key)]). *)
Record RawResult : Type := mkRawResult {
  raw_url : option string;
  raw_title : option string;
  raw_excerpts : option Excerpts;
  raw_author : option string;
  raw_published_date : option string;
  raw_publishedDate : option string
}.

Definition meta_of (s : option string) : MetaVal :=
  match s with
  | Some s => MStr s
  | None => MNone
  end.

(** The body of the [for i, result in enumerate(raw_results)] loop after the
    [break] test. *)
Definition convert (i : Z) (result : RawResult) : SearchResult :=
  let excerpts := default (ExList []) (raw_excerpts result) in
  let text :=
    match excerpts with
    | ExList l => String.concat " " l
    | ExOther repr => repr
    end in
  {| url := default "" (raw_url result);
     title := default "" (raw_title result);
     text := text;
     metadata :=
       [("rank", MInt i);
        ("author", meta_of (raw_author result));
        ("published_date",
          meta_of (if truthy (raw_published_date result)
                   then raw_published_date result
                   else raw_publishedDate result))] |}.

(** The loop of [search]: [i] is the [enumerate] index of the head of
    [raw_results]; [if i >= num_results: break]. *)
Fixpoint collect (num_results : Z) (i : Z) (raw_results : list RawResult)
  : list SearchResult :=
  match raw_results with
  | [] => []
  | result :: rest =>
      if (num_results <=? i)%Z then []
      else convert i result :: collect num_results (i + 1) rest
  end.

(** [post objective max_results] is the HTTP exchange up to [response.json()]:
    it raises when the request, [raise_for_status] or the decoding does, and
    otherwise gives the ["results"] entry of the body, if any. *)
Definition search (post : string -> Z -> outcome (option (list RawResult)))
  (query : string) (num_results : Z) : outcome (list SearchResult) :=
  data ← post query num_results;
  let raw_results := default [] data in
  Ok (collect num_results 0 raw_results).

Definition make (post : string -> Z -> outcome (option (list RawResult))) : Searcher :=
  mkSearcher "parallel" (search post).

End ParallelSearcher.

(** ** searchers/brave.py *)

Module BraveSearcher.

(** A hit of [web.results] that is a dict; [None] is a missing key. *)
Record Hit : Type := mkHit {
  hit_url : option string;
  hit_title : option string;
  hit_description : option string;
  hit_page_age : option string;
  hit_age : option string
}.

(** The characters [str.split()] splits at, those for which [str.isspace]
    holds: U+0009 to U+000D, U+001C to U+0020, U+0085, U+00A0, U+1680,
    U+2000 to U+200A, U+2028, U+2029, U+202F, U+205F and U+3000. *)
Definition is_space (c : N) : bool :=
  ((9 <=? c) && (c <=? 13) || (28 <=? c) && (c <=? 32)
   || (c =? 133) || (c =? 160) || (c =? 5760)
   || (8192 <=? c) && (c <=? 8202)
   || (c =? 8232) || (c =? 8233) || (c =? 8239) || (c =? 8287) || (c =? 12288))%N.

(** [s.split()] on the code points of [s]: the maximal runs of characters
    that are not spaces. *)
Fixpoint split (s : list N) : list (list N) :=
  match s with
  | [] => []
  | c :: s' =>
      if is_space c then split s'
      else
        match s' with
        | [] => [[c]]
        | c' :: _ =>
            if is_space c' then [c] :: split s'
            else
              match split s' with
              | word :: words => (c :: word) :: words
              | [] => [[c]]
              end
        end
  end.

(** [" ".join(words)]. *)
Fixpoint join_space (words : list (list N)) : list N :=
  match words with
  | [] => []
  | word :: rest =>
      match rest with
      | [] => word
      | _ :: _ => word ++ 32%N :: join_space rest
      end
  end.

(** The first lines of [search], on code points: the site filter
    ([f"site:{self.site_filter} {search_query}"]), then the limits of the
    Brave API (400 characters, 50 words). *)
Definition with_site_filter (site_filter : option (list N)) (query : list N) : list N :=
  match site_filter with
  | Some (c :: filter) => code_points "site:" ++ (c :: filter) ++ 32%N :: query
  | _ => query
  end.

Definition prepare_query (site_filter : option (list N)) (query : list N) : list N :=
  let search_query := with_site_filter site_filter query in
  if Nat.ltb 400 (length search_query)
  then take 400 search_query
  else if Nat.ltb 50 (length (split search_query))
       then join_space (take 50 (split search_query))
       else search_query.

(** The body of the loop for a hit that is a dict with a url. *)
Definition convert (i : Z) (u : string) (hit : Hit) : SearchResult :=
  {| url := u;
     title := default "" (hit_title hit);
     text := default "" (hit_description hit);
     metadata :=
       [("rank", MInt i);
        ("published_date",
          ParallelSearcher.meta_of
            (if truthy (hit_page_age hit) then hit_page_age hit else hit_age hit))] |}.

(** The test of the loop, negated: the hit is a dict and has a ["url"]. *)
Definition kept (hit : option Hit) : bool :=
  match hit with
  | Some h =>
      match hit_url h with
      | Some _ => true
      | None => false
      end
  | None => false
  end.

(** The loop of [search]; [i] is the [enumerate] index of the head of
    [web_results].  A hit that is not a dict ([None]) or has no ["url"] is
    skipped. *)
Fixpoint collect (i : Z) (web_results : list (option Hit)) : list SearchResult :=
  match web_results with
  | [] => []
  | hit :: rest =>
      match hit with
      | Some h =>
          match hit_url h with
          | Some u => convert i u h :: collect (i + 1) rest
          | None => collect (i + 1) rest
          end
      | None => collect (i + 1) rest
      end
  end.

(** [get q count] is the HTTP exchange up to [response.json()], with the
    searcher's [brave_args] and headers, [q] given by its code points: it
    raises when the request, [raise_for_status] or the decoding does, and
    otherwise gives the list under ["web"]["results"], if both keys are
    there. *)
Definition search (get : list N -> Z -> outcome (option (list (option Hit))))
  (site_filter : option string) (query : string) (num_results : Z)
  : outcome (list SearchResult) :=
  data ← get (prepare_query (code_points <$> site_filter) (code_points query)) num_results;
  let web_results := default [] data in
  Ok (collect 0 web_results).

Definition make (get : list N -> Z -> outcome (option (list (option Hit))))
  (site_filter : option string) : Searcher :=
  mkSearcher "brave" (search get site_filter).

End BraveSearcher.

(** ** searchers/exa.py *)

Module ExaSearcher.

(** The JSON body of the request. *)
Record Payload : Type := mkPayload {
  payload_query : string;
  payload_numResults : Z;
  payload_type : string;
  payload_category : option string;      (** the key is there when [Some] *)
  payload_contents_text : bool           (** ["contents": {"text": True}] is there *)
}.

(** One object of the ["results"] array; the three metadata values are kept
    as read by [r.get], [MNone] when missing. *)
Record RawResult : Type := mkRawResult {
  raw_url : option string;
  raw_title : option string;
  raw_text : option string;
  raw_score : MetaVal;
  raw_publishedDate : MetaVal;
  raw_author : MetaVal
}.

Definition convert (r : RawResult) : SearchResult :=
  {| url := default "" (raw_url r);
     title := default "" (raw_title r);
     text := default "" (raw_text r);
     metadata :=
       [("score", raw_score r);
        ("published_date", raw_publishedDate r);
        ("author", raw_author r)] |}.

(** The loop [for r in data.get("results", [])]. *)
Fixpoint collect (raw_results : list RawResult) : list SearchResult :=
  match raw_results with
  | [] => []
  | r :: rest => convert r :: collect rest
  end.

Definition search (post : Payload -> outcome (option (list RawResult)))
  (include_text : bool) (category : option string) (search_type : string)
  (query : string) (num_results : Z) : outcome (list SearchResult) :=
  let payload :=
    {| payload_query := query;
       payload_numResults := num_results;
       payload_type := search_type;
       payload_category := if truthy category then category else None;
       payload_contents_text := include_text |} in
  data ← post payload;
  Ok (collect (default [] data)).

Definition make (post : Payload -> outcome (option (list RawResult)))
  (include_text : bool) (category : option string) (search_type : string) : Searcher :=
  mkSearcher "exa" (search post include_text category search_type).

End ExaSearcher.

(** ** metrics.py *)

(** A grade is a [dict]: keys ["query_id"] (read with [g["query_id"]]),
    ["rank"] and ["is_match"] (read with [.get], so they may be missing). *)
Record Grade : Type := mkGrade {
  grade_query_id : string;
  grade_rank : option Z;
  grade_is_match : option float
}.

Record RetrievalMetrics : Type := mkRetrievalMetrics {
  match_ : float;
  recall_at_10 : float;
  precision : float;
  num_queries : Z
}.

(** [g.get("rank", 0)], the sort key. *)
Definition rank_key (g : Grade) : Z := default 0 (grade_rank g).

(** [g.get("is_match", 0)]. *)
Definition relevance (g : Grade) : float := default 0%float (grade_is_match g).

(** [r >= 1.0]. *)
Definition is_relevant (r : float) : bool := PrimFloat.leb 1%float r.

(** [by_query[qid].append(g)], creating the entry at the end of the dict when
    [qid] is not a key yet. *)
Fixpoint append_grade (by_query : list (string * list Grade)) (g : Grade)
  : list (string * list Grade) :=
  match by_query with
  | [] => [(grade_query_id g, [g])]
  | (qid, query_grades) :: rest =>
      if String.eqb qid (grade_query_id g)
      then (qid, query_grades ++ [g]) :: rest
      else (qid, query_grades) :: append_grade rest g
  end.

(** The first loop: the dict [by_query], in insertion order. *)
Definition group_by_query (grades : list Grade) : list (string * list Grade) :=
  fold_left append_grade grades [].

(** [list.sort(key=lambda x: x.get("rank", 0))]: a stable sort, written as
    insertion from the right, an element going before its equals. *)
Fixpoint insert_by_rank (g : Grade) (sorted : list Grade) : list Grade :=
  match sorted with
  | [] => [g]
  | h :: rest =>
      if (rank_key g <=? rank_key h)%Z then g :: sorted
      else h :: insert_by_rank g rest
  end.

Definition sort_by_rank (l : list Grade) : list Grade :=
  fold_right insert_by_rank [] l.

(** Equality of two grade dicts, as [==] sees it. *)
Definition grade_eqb (g h : Grade) : bool :=
  String.eqb (grade_query_id g) (grade_query_id h)
  && match grade_rank g, grade_rank h with
     | Some a, Some b => (a =? b)%Z
     | None, None => true
     | _, _ => false
     end
  && match grade_is_match g, grade_is_match h with
     | Some a, Some b => PrimFloat.eqb a b
     | None, None => true
     | _, _ => false
     end.

(** [query_grades.index(g)] for the [g] at position [i]: the first position
    before [i] holding an equal dict, else [i] itself. *)
Fixpoint index_upto (g : Grade) (i : nat) (query_grades : list Grade) : nat :=
  match i, query_grades with
  | S i', h :: rest => if grade_eqb h g then O else S (index_upto g i' rest)
  | _, _ => O
  end.

(** The scan for [first_match_rank]; [i] is the position of the head of
    [rest] in [query_grades]. *)
Fixpoint scan_first_match (query_grades : list Grade) (i : nat) (rest : list Grade)
  : option Z :=
  match rest with
  | [] => None
  | g :: rest' =>
      if is_relevant (relevance g)
      then Some (default (Z.of_nat (index_upto g i query_grades) + 1) (grade_rank g))
      else scan_first_match query_grades (S i) rest'
  end.

Definition first_match_rank (query_grades : list Grade) : option Z :=
  scan_first_match query_grades O query_grades.

(** An entry of [per_query]. *)
Record PerQuery : Type := mkPerQuery {
  pq_match : float;
  pq_recall_10 : float;
  pq_precision : float
}.

(** The body of the loop over [by_query.items()], on a sorted group. *)
Definition per_query_entry (query_grades : list Grade) : PerQuery :=
  let fmr := first_match_rank query_grades in
  let n_results := Z.of_nat (length query_grades) in
  let relevances := map relevance query_grades in
  let match_v :=
    match fmr with
    | Some 1 => 1%float
    | _ => 0%float
    end in
  let recall_10 :=
    match fmr with
    | Some r => if negb (r =? 0)%Z && (r <=? 10)%Z then 1%float else 0%float
    | None => 0%float
    end in
  let n_matches := Z.of_nat (length (filter (fun r => is_relevant r = true) relevances)) in
  let precision_v :=
    if (0 <? n_results)%Z
    then PrimFloat.div (float_of_Z n_matches) (float_of_Z n_results)
    else 0%float in
  {| pq_match := match_v; pq_recall_10 := recall_10; pq_precision := precision_v |}.

(** The list [per_query], in the iteration order of [by_query]. *)
Definition per_query (grades : list Grade) : list PerQuery :=
  map (fun kv => per_query_entry (sort_by_rank (snd kv))) (group_by_query grades).

Definition compute_retrieval_metrics (grades : list Grade) : RetrievalMetrics :=
  let pq := per_query grades in
  let n := Z.of_nat (length pq) in
  if (n =? 0)%Z then mkRetrievalMetrics 0 0 0 0
  else
    {| match_ := PrimFloat.div (fsum (map pq_match pq)) (float_of_Z n);
       recall_at_10 := PrimFloat.div (fsum (map pq_recall_10 pq)) (float_of_Z n);
       precision := PrimFloat.div (fsum (map pq_precision pq)) (float_of_Z n);
       num_queries := n |}.

(** The same function on the [sum] of the interpreter [py]. *)
Definition compute_retrieval_metrics_on (py : CPython) (grades : list Grade)
  : RetrievalMetrics :=
  let pq := per_query grades in
  let n := Z.of_nat (length pq) in
  if (n =? 0)%Z then mkRetrievalMetrics 0 0 0 0
  else
    {| match_ := PrimFloat.div (builtin_sum py (map pq_match pq)) (float_of_Z n);
       recall_at_10 := PrimFloat.div (builtin_sum py (map pq_recall_10 pq)) (float_of_Z n);
       precision := PrimFloat.div (builtin_sum py (map pq_precision pq)) (float_of_Z n);
       num_queries := n |}.

(** ** graders/base.py, graders/people.py *)

Record GradeResult : Type := mkGradeResult {
  scores : gmap string float;
  details : gmap string string
}.

Module PeopleGrader.

Definition newline : string := String (Ascii.ascii_of_nat 10) EmptyString.

(** [PEOPLE_ROLE_GRADING_USER.format(query=, url=, title=, text=)]. *)
Definition PEOPLE_ROLE_GRADING_USER (query url title text : string) : string :=
  "Query: " +:+ query +:+ newline +:+
  "Result: URL: " +:+ url +:+ newline +:+
  "Title: " +:+ title +:+ newline +:+ newline +:+ text.

(** The user message: the template filled in, [result.text or "(no content)"]. *)
Definition user_message (query : string) (result : SearchResult) : string :=
  PEOPLE_ROLE_GRADING_USER query (url result) (title result)
    (if String.eqb (text result) "" then "(no content)" else text result).

(** [grade]. The argument [client] is [self.client.beta.chat.completions.parse]
    with the grader's model, temperature, system prompt and response format
    fixed, as a function of the user message: it raises when the call or the
    validation of the answer does, and otherwise gives
    [response.choices[0].message.parsed], which is [None] or a
    [PeopleGradeResult] of which only [score] is read. *)
Definition grade (client : string -> outcome (option float))
  (query : string) (result : SearchResult) : outcome GradeResult :=
  try_except
    (parsed ← client (user_message query result);
     match parsed with
     | None => Raise "AssertionError"
     | Some score =>
         Ok (mkGradeResult
               {[ "is_match" := if PrimFloat.leb 0.5%float score then 1%float else 0%float ]}
               ∅)
     end)
    (fun e => Ok (mkGradeResult {[ "is_match" := 0%float ]} ∅)).

End PeopleGrader.

(** ** benchmark.py *)

Record Query : Type := mkQuery {
  query_id : string;
  query_text : string;
  bucket : string;
  query_metadata : list (string * MetaVal)
}.

Record BenchmarkConfig : Type := mkBenchmarkConfig {
  limit : option Z;
  num_results : Z;
  output_file : option string;
  enrich_exa_contents : bool
}.

(** [BenchmarkConfig()]. *)
Definition default_config : BenchmarkConfig :=
  {| limit := None; num_results := 10; output_file := None; enrich_exa_contents := false |}.

(** One object of the ["results"] array answered by the contents endpoint,
    as [r.get("url")] and [r.get("text")] see it. *)
Record ContentsItem : Type := mkContentsItem {
  item_url : option string;
  item_text : option string
}.

(** A value of the report dict: the value under ["config"] (a dict holding
    [limit]) or under ["searchers"] (name to metrics). *)
Inductive ReportEntry : Type :=
| ConfigEntry (limit : option Z)
| SearchersEntry (m : gmap string RetrievalMetrics).

Abbreviation Report := (gmap string ReportEntry).

(** What the code reaches outside the process. *)
Record World : Type := mkWorld {
  (** the decoded non-blank lines of [data/people/simple_people_search.jsonl];
      [None] when the file does not exist *)
  data_file : option (list Query);
  (** [os.getenv("EXA_API_KEY")] *)
  EXA_API_KEY : option string;
  (** the POST to [https://api.exa.ai/contents] up to
      [resp.json().get("results", [])] *)
  exa_contents : list string -> outcome (list ContentsItem);
  (** the LLM client of the grader, see [PeopleGrader.grade] *)
  grader_client : string -> outcome (option float);
  (** [open(path, "w")] and [json.dump] of the report *)
  write_report : string -> Report -> outcome unit
}.

(** [l[:n]]. *)
Definition slice_to {A} (l : list A) (n : Z) : list A :=
  if (n <? 0)%Z then take (Z.to_nat (Z.of_nat (length l) + n)) l
  else take (Z.to_nat n) l.

Definition load_queries (w : World) (limit : option Z) : list Query :=
  match data_file w with
  | None => []
  | Some queries =>
      match limit with
      | Some n => if (n =? 0)%Z then queries else slice_to queries n
      | None => queries
      end
  end.

(** The dict comprehension of [fetch_exa_contents]: a later item replaces an
    earlier one with the same url. *)
Definition contents_dict (items : list ContentsItem) : gmap string string :=
  fold_left
    (fun d r =>
       if truthy (item_url r) && truthy (item_text r)
       then <[ default "" (item_url r) := default "" (item_text r) ]> d
       else d)
    items ∅.

Definition fetch_exa_contents (w : World) (urls : list string) (api_key : option string)
  : outcome (gmap string string) :=
  let api_key := if truthy api_key then api_key else EXA_API_KEY w in
  if negb (truthy api_key) || match urls with [] => true | _ => false end
  then Ok ∅
  else
    items ← exa_contents w urls;
    Ok (contents_dict items).

(** [[r.url for r in results if r.url]]. *)
Definition urls_of (results : list SearchResult) : list string :=
  map url (filter (fun r => String.eqb (url r) "" = false) results).

Definition enrich_results (w : World) (results : list SearchResult)
  : outcome (list SearchResult) :=
  match fetch_exa_contents w (urls_of results) None with
  | Raise e => Ok results
  | Ok contents =>
      Ok (map (fun r =>
                 mkSearchResult (url r) (title r)
                   (default (text r) (contents !! url r)) (metadata r))
              results)
  end.

Module Benchmark.

(** [grade_one] of [_grade]; the grading semaphore orders the calls in time
    and has no part in the value. *)
Definition grade_one (w : World) (query : Query) (rank : Z) (r : SearchResult)
  : outcome Grade :=
  g ← PeopleGrader.grade (grader_client w) (query_text query) r;
  Ok {| grade_query_id := query_id query;
        grade_rank := Some rank;
        grade_is_match := Some (default 0%float (scores g !! "is_match")) |}.

Definition _grade (w : World) (query : Query) (results : list SearchResult)
  : outcome (list Grade) :=
  gather (map (fun ir => grade_one w query (fst ir) (snd ir)) (enumerate results 1)).

(** [process(q)] of [_run_searcher], as a transformer of the shared list
    [grades]: the list is touched once, by [grades.extend], after the last
    suspension point of the coroutine. *)
Definition process (w : World) (searcher : Searcher) (config : BenchmarkConfig)
  (q : Query) (grades : list Grade) : outcome (list Grade) :=
  results ← search searcher (query_text q) (num_results config);
  results ← (if enrich_exa_contents config then enrich_results w results else Ok results);
  new_grades ← _grade w q results;
  Ok (grades ++ new_grades).

(** The coroutines [process(q)] run one after the other in the order
    [completed], starting from the list [grades]. *)
Fixpoint run_processes (w : World) (searcher : Searcher) (config : BenchmarkConfig)
  (completed : list Query) (grades : list Grade) : outcome (list Grade) :=
  match completed with
  | [] => Ok grades
  | q :: rest =>
      match process w searcher config q grades with
      | Ok grades' => run_processes w searcher config rest grades'
      | Raise e => Raise e
      end
  end.

(** [_run_searcher]. The coroutines [process(q)] interleave only at their
    awaits and each extends [grades] in one step when it completes, so the
    call is determined by the order in which they complete: [completion]
    rearranges [queries] into that order.  An exception of a [process] is not
    caught by [gather] and leaves [_run_searcher]. *)
Definition _run_searcher (w : World) (searcher : Searcher) (queries : list Query)
  (config : BenchmarkConfig) (completion : list Query -> list Query)
  : outcome (list Grade) :=
  run_processes w searcher config (completion queries) [].

(** [run_one] of [run]. *)
Definition run_one (w : World) (queries : list Query) (config : BenchmarkConfig)
  (completion : list Query -> list Query) (searcher : Searcher)
  : outcome (string * list Grade) :=
  grades ← _run_searcher w searcher queries config completion;
  Ok (name searcher, grades).

(** The loop [for name, grades in all_grades] filling [results["searchers"]]. *)
Definition attach (m : gmap string RetrievalMetrics) (ng : string * list Grade)
  : gmap string RetrievalMetrics :=
  match snd ng with
  | [] => m
  | _ :: _ => <[ fst ng := compute_retrieval_metrics (snd ng) ]> m
  end.

Definition searchers_of_grades (all_grades : list (string * list Grade))
  : gmap string RetrievalMetrics :=
  fold_left attach all_grades ∅.

(** [run]. [schedule i] is the completion order of the queries of the
    searcher at position [i].  Console and progress output is left out. *)
Definition run (w : World) (searchers : list Searcher)
  (schedule : nat -> list Query -> list Query) (config : option BenchmarkConfig)
  : outcome Report :=
  let config := default default_config config in
  let queries := load_queries w (limit config) in
  match queries with
  | [] => Ok ∅
  | _ :: _ =>
      all_grades ← gather (imap (fun i s => run_one w queries config (schedule i) s) searchers);
      let results : Report :=
        {[ "config" := ConfigEntry (limit config);
           "searchers" := SearchersEntry (searchers_of_grades all_grades) ]} in
      _ ← (if truthy (output_file config)
           then write_report w (default "" (output_file config)) results
           else Ok tt);
      Ok results
  end.

(** [results.get("searchers", {})], the way [_print_summary] reads a report. *)
Definition report_searchers (results : Report) : gmap string RetrievalMetrics :=
  match results !! "searchers" with
  | Some (SearchersEntry m) => m
  | _ => ∅
  end.

End Benchmark.

(** ** benchmark.py: building the searchers and [main] *)

(** [a or b] on two [str | None] values. *)
Definition or_else (a b : option string) : option string :=
  if truthy a then a else b.

(** A searcher object after [__init__]: its class and what the constructor
    stored ([self._client] apart). *)
Inductive SearcherObject : Type :=
| ExaObject (api_key base_url : string) (include_text : bool)
    (category : option string) (search_type : string)
| BraveObject (api_key base_url : string) (site_filter : option string)
| ParallelObject (api_key base_url processor : string)
    (include_domains : option (list string)).

(** The class attribute [name]. *)
Definition object_name (o : SearcherObject) : string :=
  match o with
  | ExaObject _ _ _ _ _ => "exa"
  | BraveObject _ _ _ => "brave"
  | ParallelObject _ _ _ _ => "parallel"
  end.

Definition object_api_key (o : SearcherObject) : string :=
  match o with
  | ExaObject k _ _ _ _ => k
  | BraveObject k _ _ => k
  | ParallelObject k _ _ _ => k
  end.

(** The three [__init__], called as [_build_searcher] calls them (no
    [api_key] argument); [getenv] is [os.getenv].  The only exception they
    raise is the [ValueError] of a missing key. *)
Definition ExaSearcher_init (getenv : string -> option string)
  (category : option string) : outcome SearcherObject :=
  let api_key := or_else None (getenv "EXA_API_KEY") in
  if negb (truthy api_key)
  then Raise "EXA_API_KEY required - get one at https://exa.ai"
  else Ok (ExaObject (default "" api_key) "https://api.exa.ai" true category "fast").

Definition BraveSearcher_init (getenv : string -> option string)
  (site_filter : option string) : outcome SearcherObject :=
  let api_key :=
    or_else (or_else None (getenv "BRAVE_SEARCH_API_KEY")) (getenv "BRAVE_API_KEY") in
  if negb (truthy api_key)
  then Raise "Brave API key required - set BRAVE_SEARCH_API_KEY or pass api_key"
  else Ok (BraveObject (default "" api_key)
             "https://api.search.brave.com/res/v1/web/search" site_filter).

Definition ParallelSearcher_init (getenv : string -> option string)
  (include_domains : option (list string)) : outcome SearcherObject :=
  let api_key :=
    or_else (or_else None (getenv "PARALLEL_API_KEY")) (getenv "PARALLELS_API_KEY") in
  if negb (truthy api_key)
  then Raise "Parallel API key required - set PARALLEL_API_KEY or pass api_key"
  else Ok (ParallelObject (default "" api_key)
             "https://api.parallel.ai/v1beta/search" "base" include_domains).

(** [_build_searcher]: the [ValueError] of a constructor is caught (and
    printed); a name that is none of the three falls through to [None]. *)
Definition _build_searcher (getenv : string -> option string) (name : string)
  : outcome (option SearcherObject) :=
  try_except
    (if String.eqb name "exa"
     then o ← ExaSearcher_init getenv (Some "people"); Ok (Some o)
     else if String.eqb name "brave"
     then o ← BraveSearcher_init getenv (Some "linkedin.com/in"); Ok (Some o)
     else if String.eqb name "parallel"
     then o ← ParallelSearcher_init getenv (Some ["linkedin.com"]); Ok (Some o)
     else Ok None)
    (fun e => Ok None).

(** [[s for name in searcher_names if (s := _build_searcher(name))]]. *)
Fixpoint build_searchers (getenv : string -> option string) (searcher_names : list string)
  : outcome (list SearcherObject) :=
  match searcher_names with
  | [] => Ok []
  | name :: rest =>
      s ← _build_searcher getenv name;
      built ← build_searchers getenv rest;
      Ok (match s with
          | Some o => o :: built
          | None => built
          end)
  end.

(** The HTTP exchanges of the three clients. *)
Record Http : Type := mkHttp {
  exa_post : ExaSearcher.Payload -> outcome (option (list ExaSearcher.RawResult));
  brave_get : list N -> Z -> outcome (option (list (option BraveSearcher.Hit)));
  parallel_post : string -> Z -> outcome (option (list ParallelSearcher.RawResult))
}.

(** The object with its [search] method, as a [Searcher]. *)
Definition searcher_of (http : Http) (o : SearcherObject) : Searcher :=
  match o with
  | ExaObject _ _ include_text category search_type =>
      ExaSearcher.make (exa_post http) include_text category search_type
  | BraveObject _ _ site_filter => BraveSearcher.make (brave_get http) site_filter
  | ParallelObject _ _ _ _ => ParallelSearcher.make (parallel_post http)
  end.

(** The result of [parser.parse_args()]. *)
Record Args : Type := mkArgs {
  args_limit : option Z;
  args_num_results : Z;
  args_output : option string;
  args_enrich_exa_contents : bool;
  args_searchers : option (list string)
}.

(** How [main] ends: after one of its two notices, or after the run (whose
    report it drops). *)
Inductive MainEnd : Type :=
| NoData
| NoSearchers
| Ran (report : Report).

(** [[] or default]: an empty list is falsy. *)
Definition searcher_names_of (args : Args) : list string :=
  match args_searchers args with
  | Some (n :: ns) => n :: ns
  | _ => ["exa"; "brave"; "parallel"]
  end.

Definition config_of (args : Args) : BenchmarkConfig :=
  {| limit := args_limit args;
     num_results := args_num_results args;
     output_file := args_output args;
     enrich_exa_contents := args_enrich_exa_contents args |}.

Definition main (w : World) (getenv : string -> option string) (http : Http)
  (schedule : nat -> list Query -> list Query) (args : Args) : outcome MainEnd :=
  match data_file w with
  | None => Ok NoData
  | Some _ =>
      searchers ← build_searchers getenv (searcher_names_of args);
      match searchers with
      | [] => Ok NoSearchers
      | _ :: _ =>
          report ← Benchmark.run w (map (searcher_of http) searchers) schedule
                     (Some (config_of args));
          Ok (Ran report)
      end
  end.

(** ** The coroutines of a run, their two semaphores and the shared list

    Where each coroutine of [Benchmark.run] stands with respect to the
    [async with] blocks of [_run_searcher] and [_grade], and what the list
    [grades] of each [_run_searcher] call holds.  Coroutines interleave at
    their awaits; a step below is what one coroutine does between two awaits.
    An [asyncio.Semaphore] is its counter: [acquire] goes through when the
    counter is positive and decrements it, leaving the block ([__aexit__],
    normally or by an exception) increments it. *)

Module Scheduling.

Local Open Scope nat_scope.

(** A [grade_one] coroutine. *)
Inductive GradeTask : Type :=
| GWaiting    (** before [async with self._grade_semaphore] is entered *)
| GGrading    (** inside the block, awaiting [self.grader.grade] *)
| GReturned.  (** past the block *)

(** A [process(q)] coroutine, with the value of its local [results]. *)
Inductive ProcessTask : Type :=
| Pending       (** before [async with semaphore] is entered *)
| Searching     (** inside, awaiting [searcher.search] *)
| Enriching (results : list SearchResult)
                (** inside, awaiting [enrich_results] *)
| Grading (results : list SearchResult) (gs : list GradeTask)
                (** inside, awaiting [self._grade] *)
| Finished      (** past the block, [grades] extended *)
| Raised (e : string)
                (** out of the block by the exception of the search *)
| Cancelled.    (** cancelled, out of the block if it was inside *)

(** One call of [_run_searcher]: its local [semaphore], its coroutines (one
    per query, in the order of [queries]) and its list [grades]. *)
Record SearcherRun : Type := mkSearcherRun {
  semaphore : nat;
  processes : list ProcessTask;
  grades : list Grade
}.

(** A run: [self._grade_semaphore] and one [_run_searcher] per searcher. *)
Record State : Type := mkState {
  _grade_semaphore : nat;
  runs : list SearcherRun
}.

(** [asyncio.Semaphore(20)] in [_run_searcher]. *)
Definition SEARCHER_CONCURRENCY : nat := 20.

(** The default of [grading_concurrency] in [Benchmark.__init__]. *)
Definition DEFAULT_GRADING_CONCURRENCY : nat := 50.

(** The state after [gather] has created the coroutines of the searchers
    over the queries. *)
Definition initial (grading_concurrency : nat) (searchers : list Searcher)
  (queries : list Query) : State :=
  {| _grade_semaphore := grading_concurrency;
     runs := map (fun _ => mkSearcherRun SEARCHER_CONCURRENCY
                             (map (fun _ => Pending) queries) [])
                 searchers |}.

Definition grading_now (t : GradeTask) : nat :=
  match t with
  | GGrading => 1
  | _ => 0
  end.

(** Is the coroutine inside [async with semaphore]? *)
Definition in_block (p : ProcessTask) : nat :=
  match p with
  | Searching | Enriching _ | Grading _ _ => 1
  | Pending | Finished | Raised _ | Cancelled => 0
  end.

Definition searching_now (p : ProcessTask) : nat :=
  match p with
  | Searching => 1
  | _ => 0
  end.

Definition grading_in (p : ProcessTask) : nat :=
  match p with
  | Grading _ gs => sum_list_with grading_now gs
  | _ => 0
  end.

(** Steps of the [grade_one] coroutines of one query, on the pair of the
    grading semaphore and the coroutines. *)
Inductive grade_step : nat * list GradeTask -> nat * list GradeTask -> Prop :=
| grade_enter v gs k :
    gs !! k = Some GWaiting ->
    grade_step (S v, gs) (v, <[k := GGrading]> gs)
| grade_leave v gs k :
    gs !! k = Some GGrading ->
    grade_step (v, gs) (S v, <[k := GReturned]> gs).

(** Steps of the [_run_searcher] of [searcher], on the pair of the grading
    semaphore and the searcher's run; [j] is the position of the query in
    [queries].  The last step is the cancellation of a coroutine (with the
    [grade_one] coroutines it awaits) when the event loop is torn down after
    an exception: every block it is in is left. *)
Inductive run_step (w : World) (config : BenchmarkConfig) (queries : list Query)
  (searcher : Searcher) : nat * SearcherRun -> nat * SearcherRun -> Prop :=
| process_enter g v ps gr j :
    ps !! j = Some Pending ->
    run_step w config queries searcher
      (g, mkSearcherRun (S v) ps gr)
      (g, mkSearcherRun v (<[j := Searching]> ps) gr)
| search_returns g v ps gr j q results :
    ps !! j = Some Searching ->
    queries !! j = Some q ->
    search searcher (query_text q) (num_results config) = Ok results ->
    run_step w config queries searcher
      (g, mkSearcherRun v ps gr)
      (g, mkSearcherRun v
            (<[j := if enrich_exa_contents config then Enriching results
                    else Grading results (replicate (length results) GWaiting)]> ps) gr)
| search_raises g v ps gr j q e :
    ps !! j = Some Searching ->
    queries !! j = Some q ->
    search searcher (query_text q) (num_results config) = Raise e ->
    run_step w config queries searcher
      (g, mkSearcherRun v ps gr)
      (g, mkSearcherRun (S v) (<[j := Raised e]> ps) gr)
| enrich_returns g v ps gr j results results' :
    ps !! j = Some (Enriching results) ->
    enrich_results w results = Ok results' ->
    run_step w config queries searcher
      (g, mkSearcherRun v ps gr)
      (g, mkSearcherRun v
            (<[j := Grading results' (replicate (length results') GWaiting)]> ps) gr)
| grading_steps g g' v ps gr j results gs gs' :
    ps !! j = Some (Grading results gs) ->
    grade_step (g, gs) (g', gs') ->
    run_step w config queries searcher
      (g, mkSearcherRun v ps gr)
      (g', mkSearcherRun v (<[j := Grading results gs']> ps) gr)
| process_leaves g v ps gr j q results gs new_grades :
    ps !! j = Some (Grading results gs) ->
    Forall (fun t => t = GReturned) gs ->
    queries !! j = Some q ->
    Benchmark._grade w q results = Ok new_grades ->
    run_step w config queries searcher
      (g, mkSearcherRun v ps gr)
      (g, mkSearcherRun (S v) (<[j := Finished]> ps) (gr ++ new_grades))
| process_cancelled g v ps gr j p :
    ps !! j = Some p ->
    p = Pending \/ in_block p = 1 ->
    run_step w config queries searcher
      (g, mkSearcherRun v ps gr)
      (g + grading_in p, mkSearcherRun (v + in_block p) (<[j := Cancelled]> ps) gr).

(** A step of the run: a step of one of its searchers. *)
Inductive step (w : World) (config : BenchmarkConfig) (queries : list Query)
  (searchers : list Searcher) : State -> State -> Prop :=
| searcher_steps g g' rs s searcher r r' :
    searchers !! s = Some searcher ->
    rs !! s = Some r ->
    run_step w config queries searcher (g, r) (g', r') ->
    step w config queries searchers (mkState g rs) (mkState g' (<[s := r']> rs)).

(** The states a run goes through. *)
Inductive reachable (w : World) (config : BenchmarkConfig) (queries : list Query)
  (searchers : list Searcher) (init : State) : State -> Prop :=
| reachable_init : reachable w config queries searchers init init
| reachable_step st st' :
    reachable w config queries searchers init st ->
    step w config queries searchers st st' ->
    reachable w config queries searchers init st'.

(** Queries of searcher [s] in flight: its coroutines inside the block. *)
Definition queries_in_flight (st : State) (s : nat) : nat :=
  match runs st !! s with
  | Some r => sum_list_with in_block (processes r)
  | None => 0
  end.

(** Search calls of searcher [s] in flight. *)
Definition searches_in_flight (st : State) (s : nat) : nat :=
  match runs st !! s with
  | Some r => sum_list_with searching_now (processes r)
  | None => 0
  end.

(** Grading calls in flight, over all searchers and queries. *)
Definition gradings_in_flight (st : State) : nat :=
  sum_list_with (fun r => sum_list_with grading_in (processes r)) (runs st).

End Scheduling.

(** ** The aggregation as the specification words it (section 4.1)

    These definitions follow the prose of the specification, not the code;
    [compute_retrieval_metrics] is compared with them below. *)

Module Reference.

(** "[is_match == 1.0]". *)
Definition matched (g : Grade) : bool :=
  match grade_is_match g with
  | Some x => PrimFloat.eqb x 1%float
  | None => false
  end.

(** Step 1, "group grades by [query_id]": the distinct ids, each where it
    first appears, and the grades that carry a given id. *)
Definition query_ids (grades : list Grade) : list string :=
  fold_left
    (fun ids g => if decide (grade_query_id g ∈ ids) then ids else ids ++ [grade_query_id g])
    grades [].

Definition group (grades : list Grade) (qid : string) : list Grade :=
  filter (fun g => grade_query_id g = qid) grades.

(** The lowest of a list of ranks, if there is one. *)
Definition lowest (ranks : list Z) : option Z :=
  fold_right (fun r acc => Some (from_option (Z.min r) r acc)) None ranks.

(** Step 3: the rank of the lowest-rank grade with [is_match == 1.0]. *)
Definition first_match_rank (query_grades : list Grade) : option Z :=
  lowest (omap grade_rank (filter (fun g => matched g = true) query_grades)).

(** Step 4: the per-query contributions. *)
Definition match_of (query_grades : list Grade) : float :=
  if decide (first_match_rank query_grades = Some 1%Z) then 1%float else 0%float.

Definition recall_10_of (query_grades : list Grade) : float :=
  match first_match_rank query_grades with
  | Some r => if decide (r <= 10)%Z then 1%float else 0%float
  | None => 0%float
  end.

Definition precision_of (query_grades : list Grade) : float :=
  match query_grades with
  | [] => 0%float
  | _ :: _ =>
      PrimFloat.div
        (float_of_Z (Z.of_nat (length (filter (fun g => matched g = true) query_grades))))
        (float_of_Z (Z.of_nat (length query_grades)))
  end.

(** Step 5: the arithmetic mean of a non-empty list. *)
Definition mean (xs : list float) : float :=
  PrimFloat.div (fsum xs) (float_of_Z (Z.of_nat (length xs))).

Definition metrics (grades : list Grade) : RetrievalMetrics :=
  let groups := map (group grades) (query_ids grades) in
  match groups with
  | [] => mkRetrievalMetrics 0 0 0 0
  | _ :: _ =>
      {| match_ := mean (map match_of groups);
         recall_at_10 := mean (map recall_10_of groups);
         precision := mean (map precision_of groups);
         num_queries := Z.of_nat (length groups) |}
  end.

End Reference.

(** A grade as the data model has it: a rank that is at least 1 and an
    [is_match] that is [0.0] or [1.0]. *)
Definition well_formed (g : Grade) : Prop :=
  (exists r, grade_rank g = Some r /\ (1 <= r)%Z)
  /\ (grade_is_match g = Some 0%float \/ grade_is_match g = Some 1%float).

(** A grade dict that has the key ["rank"]. *)
Definition has_rank (g : Grade) : Prop := is_Some (grade_rank g).

(** ** Example inputs *)

(** Scenario 2 of the specification: one grade per query, the first a match. *)
Definition scenario_2 : list Grade :=
  [mkGrade "q1" (Some 1%Z) (Some 1%float); mkGrade "q2" (Some 1%Z) (Some 0%float)].

(** Scenario 1 of the specification: the match of [q1] is at rank 2. *)
Definition scenario_1 : list Grade :=
  [mkGrade "q1" (Some 1%Z) (Some 0%float); mkGrade "q1" (Some 2%Z) (Some 1%float)].

(** Two grades outside the data model: a match at rank 0, and an [is_match]
    of 2.0. *)
Definition rank_zero : list Grade := [mkGrade "q1" (Some 0%Z) (Some 1%float)].
Definition is_match_two : list Grade := [mkGrade "q1" (Some 1%Z) (Some 2%float)].

(** Two grades of one query without the key ["rank"], in both orders. *)
Definition unranked : list Grade :=
  [mkGrade "q1" None (Some 1%float); mkGrade "q1" None (Some 0%float)].

Definition unranked_swapped : list Grade :=
  [mkGrade "q1" None (Some 0%float); mkGrade "q1" None (Some 1%float)].

(** Five grades over three queries, and the same grades with the three of
    [q3] moved to the front. *)
Definition shuffle_before : list Grade :=
  [mkGrade "q1" (Some 1%Z) (Some 1%float);
   mkGrade "q2" (Some 1%Z) (Some 1%float);
   mkGrade "q3" (Some 1%Z) (Some 1%float);
   mkGrade "q3" (Some 2%Z) (Some 0%float);
   mkGrade "q3" (Some 3%Z) (Some 0%float)].

Definition shuffle_after : list Grade :=
  [mkGrade "q3" (Some 1%Z) (Some 1%float);
   mkGrade "q3" (Some 2%Z) (Some 0%float);
   mkGrade "q3" (Some 3%Z) (Some 0%float);
   mkGrade "q1" (Some 1%Z) (Some 1%float);
   mkGrade "q2" (Some 1%Z) (Some 1%float)].

Definition q1 : Query := mkQuery "q1" "staff engineer in Berlin" "" [].
Definition q2 : Query := mkQuery "q2" "head of design in Oslo" "" [].

(** Two queries on disk, no Exa key, a judge that always answers 1.0. *)
Definition two_queries : World :=
  {| data_file := Some [q1; q2];
     EXA_API_KEY := None;
     exa_contents := fun _ => Raise "ConnectError";
     grader_client := fun _ => Ok (Some 1%float);
     write_report := fun _ _ => Ok tt |}.

(** The same without a data file. *)
Definition no_data : World :=
  {| data_file := None;
     EXA_API_KEY := None;
     exa_contents := fun _ => Raise "ConnectError";
     grader_client := fun _ => Ok (Some 1%float);
     write_report := fun _ _ => Ok tt |}.

(** The same with an Exa key and a contents endpoint that is down. *)
Definition exa_down : World :=
  {| data_file := Some [q1; q2];
     EXA_API_KEY := Some "key";
     exa_contents := fun _ => Raise "ConnectError";
     grader_client := fun _ => Ok (Some 1%float);
     write_report := fun _ _ => Ok tt |}.

Definition profile (n : string) : SearchResult :=
  mkSearchResult ("https://linkedin.com/in/" +:+ n) n "profile" [].

(** A searcher that answers one profile, one that answers nothing, and one
    whose every request fails. *)
Definition up : Searcher := mkSearcher "up" (fun _ _ => Ok [profile "ada"]).
Definition silent : Searcher := mkSearcher "silent" (fun _ _ => Ok []).
Definition down : Searcher := mkSearcher "down" (fun _ _ => Raise "HTTPStatusError").

(** Every searcher completes its queries in the order they were loaded. *)
Definition in_order : nat -> list Query -> list Query := fun _ queries => queries.

(** Scenario 4 of the specification: three results and a contents endpoint
    that is down. *)
Definition three_results : list SearchResult := [profile "ada"; profile "bo"; profile "cy"].

(** A provider that sends three results whatever was asked. *)
Definition three_raw : list ParallelSearcher.RawResult :=
  [ParallelSearcher.mkRawResult (Some "https://linkedin.com/in/ada") (Some "ada")
     (Some (ParallelSearcher.ExList ["engineer"; "Berlin"])) None None None;
   ParallelSearcher.mkRawResult (Some "https://linkedin.com/in/bo") (Some "bo")
     None None None None;
   ParallelSearcher.mkRawResult (Some "https://linkedin.com/in/cy") None
     (Some (ParallelSearcher.ExOther "7")) None None None].

(** The report of the run of [up] and [silent] over the two queries. *)
Definition up_and_silent_report : Report :=
  {[ "config" := ConfigEntry None;
     "searchers" := SearchersEntry {[ "up" := mkRetrievalMetrics 1 1 1 2 ]} ]}.

(** One searcher over 100 queries, the first of which has entered the block. *)
Definition hundred_queries : list Query := replicate 100 q1.

Definition hundred_queries_one_started : Scheduling.State :=
  Scheduling.mkState 50
    [Scheduling.mkSearcherRun 19
       (<[0%nat := Scheduling.Searching]> (replicate 100 Scheduling.Pending)) []].

(** * Proofs *)

(** ** The aggregation *)

Section Grouping.

Implicit Types (g : Grade) (l grades : list Grade) (ids : list string).

Lemma query_ids_snoc l g :
  Reference.query_ids (l ++ [g]) =
  if decide (grade_query_id g ∈ Reference.query_ids l)
  then Reference.query_ids l
  else Reference.query_ids l ++ [grade_query_id g].
Proof. unfold Reference.query_ids. rewrite fold_left_app. reflexivity. Qed.

Lemma elem_of_query_ids l q :
  q ∈ Reference.query_ids l <-> q ∈ map grade_query_id l.
Proof.
  induction l as [|g l IH] using rev_ind.
  - reflexivity.
  - rewrite query_ids_snoc, map_app, elem_of_app. simpl.
    rewrite list_elem_of_singleton, <- IH.
    destruct (decide (grade_query_id g ∈ Reference.query_ids l)) as [Hin|Hin].
    + split; [tauto|]. intros [?| ->]; assumption.
    + rewrite elem_of_app, list_elem_of_singleton. reflexivity.
Qed.

Lemma NoDup_query_ids l : NoDup (Reference.query_ids l).
Proof.
  induction l as [|g l IH] using rev_ind.
  - constructor.
  - rewrite query_ids_snoc. case_decide; [assumption|].
    apply NoDup_app. split_and!; [assumption| |apply NoDup_singleton].
    intros x Hx Hx'. apply list_elem_of_singleton in Hx'. congruence.
Qed.

Lemma group_snoc l g q :
  Reference.group (l ++ [g]) q =
  Reference.group l q ++ (if decide (grade_query_id g = q) then [g] else []).
Proof.
  unfold Reference.group. rewrite filter_app. f_equal.
Qed.

Lemma group_fresh l q : q ∉ Reference.query_ids l -> Reference.group l q = [].
Proof.
  rewrite elem_of_query_ids. intros Hq. unfold Reference.group.
  induction l as [|g l IH]; [reflexivity|].
  rewrite filter_cons. case_decide as Hg.
  - exfalso. apply Hq. simpl. subst q. left.
  - apply IH. intros Hin. apply Hq. simpl. right. assumption.
Qed.

(** [append_grade] on a dict whose keys are [ids]. *)
Lemma append_grade_map (f : string -> list Grade) ids g :
  NoDup ids ->
  append_grade (map (fun q => (q, f q)) ids) g =
  if decide (grade_query_id g ∈ ids)
  then map (fun q => (q, f q ++ (if decide (grade_query_id g = q) then [g] else []))) ids
  else map (fun q => (q, f q)) ids ++ [(grade_query_id g, [g])].
Proof.
  induction ids as [|q ids IH]; intros Hnd.
  - reflexivity.
  - apply NoDup_cons in Hnd as [Hq Hnd]. simpl.
    destruct (String.eqb_spec q (grade_query_id g)) as [->|Hne].
    + rewrite decide_True by left. simpl. rewrite decide_True by reflexivity.
      f_equal. apply map_ext_in. intros q' Hq'.
      rewrite decide_False; [rewrite app_nil_r; reflexivity|].
      intros <-. apply Hq. apply list_elem_of_In. assumption.
    + rewrite IH by assumption.
      destruct (decide (grade_query_id g ∈ ids)) as [Hin|Hin].
      * rewrite decide_True by (right; assumption). simpl.
        rewrite decide_False by congruence. rewrite app_nil_r. reflexivity.
      * rewrite decide_False; [reflexivity|].
        intros [Heq|Hin']%elem_of_cons; congruence.
Qed.

(** The dict [by_query]: the distinct ids in order of first appearance, each
    with its grades in input order. *)
Lemma group_by_query_spec grades :
  group_by_query grades =
  map (fun q => (q, Reference.group grades q)) (Reference.query_ids grades).
Proof.
  induction grades as [|g l IH] using rev_ind.
  - reflexivity.
  - unfold group_by_query in *. rewrite fold_left_app. simpl. rewrite IH.
    rewrite append_grade_map by apply NoDup_query_ids.
    rewrite query_ids_snoc.
    destruct (decide (grade_query_id g ∈ Reference.query_ids l)) as [Hin|Hin].
    + apply map_ext. intros q. rewrite group_snoc. reflexivity.
    + rewrite map_app. simpl. f_equal.
      * apply map_ext_in. intros q Hq. rewrite group_snoc.
        rewrite decide_False; [rewrite app_nil_r; reflexivity|].
        intros <-. apply Hin. apply list_elem_of_In. assumption.
      * rewrite group_snoc, group_fresh by assumption.
        rewrite decide_True by reflexivity. reflexivity.
Qed.

Lemma group_by_query_elem grades (qid : string) l :
  (qid, l) ∈ group_by_query grades -> l = Reference.group grades qid.
Proof.
  rewrite group_by_query_spec. intros (q & [= -> ->] & _)%list_elem_of_fmap.
  reflexivity.
Qed.

End Grouping.

Section Sorting.

Implicit Types (g : Grade) (l : list Grade).

Definition rank_le (g h : Grade) : Prop := (rank_key g <= rank_key h)%Z.

Lemma insert_by_rank_perm g l : insert_by_rank g l ≡ₚ g :: l.
Proof.
  induction l as [|h l IH]; simpl; [reflexivity|].
  destruct (rank_key g <=? rank_key h)%Z; [reflexivity|].
  rewrite IH. apply Permutation_swap.
Qed.

Lemma sort_by_rank_perm l : sort_by_rank l ≡ₚ l.
Proof.
  induction l as [|g l IH]; simpl; [reflexivity|].
  rewrite insert_by_rank_perm, IH. reflexivity.
Qed.

Lemma insert_by_rank_sorted g l :
  StronglySorted rank_le l -> StronglySorted rank_le (insert_by_rank g l).
Proof.
  induction 1 as [|h l Hs IH Hall]; simpl.
  - repeat constructor.
  - destruct (Z.leb_spec (rank_key g) (rank_key h)) as [Hle|Hlt].
    + constructor; [constructor; assumption|].
      constructor; [assumption|].
      eapply Forall_impl; [exact Hall|]. unfold rank_le. intros; lia.
    + constructor; [assumption|].
      rewrite insert_by_rank_perm. constructor; [|assumption].
      unfold rank_le. lia.
Qed.

Lemma sort_by_rank_sorted l : StronglySorted rank_le (sort_by_rank l).
Proof.
  induction l as [|g l IH]; simpl; [constructor|].
  apply insert_by_rank_sorted, IH.
Qed.

(** The sort is stable: grades of equal rank keep their input order. *)
Lemma sort_by_rank_stable l (r : Z) :
  filter (fun g => rank_key g = r) (sort_by_rank l) = filter (fun g => rank_key g = r) l.
Proof.
  induction l as [|g l IH]; simpl; [reflexivity|].
  rewrite filter_cons, <- IH. clear IH.
  generalize (sort_by_rank_sorted l). generalize (sort_by_rank l). clear l.
  intros l Hs. induction Hs as [|h l Hs IH Hall]; simpl.
  - rewrite filter_cons. reflexivity.
  - destruct (Z.leb_spec (rank_key g) (rank_key h)) as [Hle|Hlt].
    + rewrite filter_cons. reflexivity.
    + rewrite !filter_cons, IH.
      destruct (decide (rank_key h = r)), (decide (rank_key g = r)); try reflexivity.
      lia.
Qed.

End Sorting.

Section FirstMatch.

Implicit Types (g : Grade) (l : list Grade).

(** The ranks of the grades that count as matches for the code. *)
Definition relevant_ranks l : list Z :=
  map rank_key (filter (fun g => is_relevant (relevance g) = true) l).

Lemma lowest_cons (r : Z) (rs : list Z) :
  Reference.lowest (r :: rs) = Some (from_option (Z.min r) r (Reference.lowest rs)).
Proof. reflexivity. Qed.

Lemma lowest_perm (rs rs' : list Z) :
  rs ≡ₚ rs' -> Reference.lowest rs = Reference.lowest rs'.
Proof.
  induction 1 as [|x l l' _ IH|x y l|l l' l'' _ IH1 _ IH2].
  - reflexivity.
  - rewrite !lowest_cons, IH. reflexivity.
  - rewrite !lowest_cons. destruct (Reference.lowest l); simpl; f_equal; lia.
  - congruence.
Qed.

Lemma lowest_lower_bound (r : Z) (rs : list Z) :
  Forall (fun x => (r <= x)%Z) rs ->
  from_option (Z.min r) r (Reference.lowest rs) = r.
Proof.
  induction 1 as [|x rs Hx _ IH]; [reflexivity|].
  rewrite lowest_cons. simpl.
  destruct (Reference.lowest rs) as [m|]; simpl in *; lia.
Qed.

(** On a group sorted by rank whose grades all carry a rank, the scan finds
    the lowest rank among the matches. *)
Lemma scan_first_match_sorted (query_grades : list Grade) l :
  Forall has_rank l -> StronglySorted rank_le l ->
  forall i, scan_first_match query_grades i l = Reference.lowest (relevant_ranks l).
Proof.
  intros Hr Hs. induction Hs as [|g l Hs IH Hall]; intros i; [reflexivity|].
  apply Forall_cons in Hr as [[r Hg] Hr]. simpl. unfold relevant_ranks.
  rewrite filter_cons.
  destruct (is_relevant (relevance g)) eqn:Hrel.
  - rewrite decide_True by reflexivity. rewrite fmap_cons.
    change (map rank_key) with (fmap (M:=list) rank_key).
    rewrite lowest_cons, Hg. simpl. f_equal.
    assert (rank_key g = r) as -> by (unfold rank_key; rewrite Hg; reflexivity).
    symmetry. apply lowest_lower_bound.
    apply Forall_forall. intros x (h & -> & Hh)%list_elem_of_fmap.
    apply list_elem_of_filter in Hh as [_ Hh].
    rewrite Forall_forall in Hall. specialize (Hall h Hh).
    unfold rank_le, rank_key in Hall. rewrite Hg in Hall. exact Hall.
  - rewrite decide_False by discriminate. apply IH. assumption.
Qed.

Lemma first_match_rank_sort l :
  Forall has_rank l ->
  first_match_rank (sort_by_rank l) = Reference.lowest (relevant_ranks l).
Proof.
  intros Hr. unfold first_match_rank.
  rewrite scan_first_match_sorted.
  - apply lowest_perm. unfold relevant_ranks.
    apply Permutation_map. rewrite sort_by_rank_perm. reflexivity.
  - rewrite sort_by_rank_perm. assumption.
  - apply sort_by_rank_sorted.
Qed.

Lemma length_filter_relevances l :
  length (filter (fun r => is_relevant r = true) (map relevance l)) =
  length (filter (fun g => is_relevant (relevance g) = true) l).
Proof.
  induction l as [|g l IH]; [reflexivity|].
  simpl. rewrite !filter_cons.
  destruct (is_relevant (relevance g)).
  - rewrite !decide_True by reflexivity. simpl. rewrite IH. reflexivity.
  - rewrite !decide_False by discriminate. exact IH.
Qed.

(** The per-query entry as a function of the three quantities it depends on. *)
Definition entry_of (fmr : option Z) (n_results n_matches : nat) : PerQuery :=
  {| pq_match :=
       match fmr with
       | Some 1%Z => 1%float
       | _ => 0%float
       end;
     pq_recall_10 :=
       match fmr with
       | Some r => if negb (r =? 0)%Z && (r <=? 10)%Z then 1%float else 0%float
       | None => 0%float
       end;
     pq_precision :=
       if (0 <? Z.of_nat n_results)%Z
       then PrimFloat.div (float_of_Z (Z.of_nat n_matches)) (float_of_Z (Z.of_nat n_results))
       else 0%float |}.

Lemma per_query_entry_sort l :
  Forall has_rank l ->
  per_query_entry (sort_by_rank l) =
  entry_of (Reference.lowest (relevant_ranks l)) (length l)
    (length (filter (fun g => is_relevant (relevance g) = true) l)).
Proof.
  intros Hr. unfold per_query_entry, entry_of.
  rewrite first_match_rank_sort by assumption.
  rewrite length_filter_relevances.
  rewrite !(Permutation_length (sort_by_rank_perm l)).
  assert (length (filter (fun g => is_relevant (relevance g) = true) (sort_by_rank l)) =
          length (filter (fun g => is_relevant (relevance g) = true) l)) as ->.
  { apply Permutation_length. rewrite sort_by_rank_perm. reflexivity. }
  reflexivity.
Qed.

(** Hence the entry of a group does not depend on the order of its grades. *)
Lemma per_query_entry_perm l l' :
  Forall has_rank l -> l ≡ₚ l' ->
  per_query_entry (sort_by_rank l) = per_query_entry (sort_by_rank l').
Proof.
  intros Hr Hp. rewrite !per_query_entry_sort; [|rewrite <- Hp; assumption|assumption].
  f_equal.
  - apply lowest_perm. unfold relevant_ranks. rewrite Hp. reflexivity.
  - apply Permutation_length. assumption.
  - apply Permutation_length. rewrite Hp. reflexivity.
Qed.

End FirstMatch.

Section Refinement.

Implicit Types (g : Grade) (l grades : list Grade).

Lemma well_formed_has_rank g : well_formed g -> has_rank g.
Proof. intros [(r & Hr & _) _]. exists r. exact Hr. Qed.

(** On a well-formed grade, [is_match >= 1.0] and [is_match == 1.0] agree. *)
Lemma well_formed_matched g :
  well_formed g -> Reference.matched g = is_relevant (relevance g).
Proof.
  intros [_ [H|H]]; unfold Reference.matched, relevance; rewrite H; reflexivity.
Qed.

Lemma well_formed_ranks l :
  Forall well_formed l ->
  omap grade_rank (filter (fun g => Reference.matched g = true) l) = relevant_ranks l.
Proof.
  unfold relevant_ranks. induction 1 as [|g l Hg _ IH]; [reflexivity|].
  rewrite !filter_cons, <- (well_formed_matched g Hg).
  destruct (decide (Reference.matched g = true)); [|exact IH].
  destruct Hg as [(r & Hr & _) _]. simpl. unfold rank_key at 1.
  rewrite Hr. simpl. f_equal. exact IH.
Qed.

Lemma well_formed_matches l :
  Forall well_formed l ->
  filter (fun g => Reference.matched g = true) l =
  filter (fun g => is_relevant (relevance g) = true) l.
Proof.
  induction 1 as [|g l Hg _ IH]; [reflexivity|].
  rewrite !filter_cons, <- (well_formed_matched g Hg), IH. reflexivity.
Qed.

Lemma lowest_elem_of (rs : list Z) (r : Z) : Reference.lowest rs = Some r -> r ∈ rs.
Proof.
  revert r. induction rs as [|x rs IH]; intros r; [discriminate|].
  rewrite lowest_cons. intros [= <-].
  destruct (Reference.lowest rs) as [m|]; simpl; [|left].
  destruct (Z.min_spec x m) as [[_ ->]|[_ ->]]; [left|right; apply IH; reflexivity].
Qed.

Lemma relevant_ranks_positive l (r : Z) :
  Forall well_formed l -> r ∈ relevant_ranks l -> (1 <= r)%Z.
Proof.
  intros Hwf (g & -> & Hg)%list_elem_of_fmap.
  apply list_elem_of_filter in Hg as [_ Hg].
  rewrite Forall_forall in Hwf. destruct (Hwf g Hg) as [(r & Hr & Hle) _].
  unfold rank_key. rewrite Hr. exact Hle.
Qed.

(** The entry the code computes for a group is the contribution of step 4. *)
Lemma per_query_entry_reference l :
  Forall well_formed l ->
  per_query_entry (sort_by_rank l) =
  mkPerQuery (Reference.match_of l) (Reference.recall_10_of l) (Reference.precision_of l).
Proof.
  intros Hwf.
  rewrite per_query_entry_sort by (eapply Forall_impl; [exact Hwf|apply well_formed_has_rank]).
  unfold entry_of, Reference.match_of, Reference.recall_10_of, Reference.precision_of,
    Reference.first_match_rank.
  rewrite well_formed_ranks, well_formed_matches by assumption.
  f_equal.
  - destruct (Reference.lowest (relevant_ranks l)) as [r|] eqn:Hlow.
    + destruct (decide (Some r = Some 1%Z)) as [[= ->]|Hne]; [reflexivity|].
      destruct r as [|[]|]; congruence.
    + rewrite decide_False by discriminate. reflexivity.
  - destruct (Reference.lowest (relevant_ranks l)) as [r|] eqn:Hlow; [|reflexivity].
    apply lowest_elem_of, (relevant_ranks_positive l r Hwf) in Hlow.
    destruct (Z.eqb_spec r 0); [lia|]. simpl.
    destruct (Z.leb_spec r 10); case_decide; try reflexivity; lia.
  - destruct l; reflexivity.
Qed.

Lemma per_query_groups grades :
  per_query grades =
  map (fun q => per_query_entry (sort_by_rank (Reference.group grades q)))
    (Reference.query_ids grades).
Proof. unfold per_query. rewrite group_by_query_spec, map_map. reflexivity. Qed.

Lemma group_well_formed grades q :
  Forall well_formed grades -> Forall well_formed (Reference.group grades q).
Proof.
  intros Hwf. apply Forall_forall. intros g [_ Hg]%list_elem_of_filter.
  rewrite Forall_forall in Hwf. apply Hwf, Hg.
Qed.

Lemma per_query_reference grades :
  Forall well_formed grades ->
  per_query grades =
  map (fun l => mkPerQuery (Reference.match_of l) (Reference.recall_10_of l)
                  (Reference.precision_of l))
    (map (Reference.group grades) (Reference.query_ids grades)).
Proof.
  intros Hwf. rewrite per_query_groups, map_map. apply map_ext. intros q.
  apply per_query_entry_reference, group_well_formed, Hwf.
Qed.

End Refinement.

(** C2. On every list of grades of the data model (rank at least 1,
    [is_match] 0.0 or 1.0), [compute_retrieval_metrics] returns what the
    reference algorithm of section 4.1 returns: grades grouped by
    [query_id]; per group, [match] is 1.0 iff the lowest-rank grade with
    [is_match == 1.0] has rank 1, [recall_10] is 1.0 iff there is one of rank
    at most 10, [precision] is matches over size; the metrics are the means
    over the groups and [num_queries] is their number.  On the empty list all
    values are 0; on scenario 2 they are 0.5, 0.5, 0.5 and 2. *)
Theorem compute_retrieval_metrics_reference :
  (forall grades : list Grade,
      Forall well_formed grades ->
      compute_retrieval_metrics grades = Reference.metrics grades)
  /\ compute_retrieval_metrics [] = mkRetrievalMetrics 0 0 0 0
  /\ compute_retrieval_metrics scenario_2 = mkRetrievalMetrics 0.5 0.5 0.5 2.
Proof.
  split; [|split; reflexivity].
  intros grades Hwf. unfold compute_retrieval_metrics, Reference.metrics.
  rewrite per_query_reference by assumption.
  set (groups := map (Reference.group grades) (Reference.query_ids grades)).
  rewrite length_map.
  destruct groups as [|l groups]; [reflexivity|].
  destruct (Z.eqb_spec (Z.of_nat (length (l :: groups))) 0) as [H0|_]; [discriminate H0|].
  unfold Reference.mean. rewrite !map_map, !length_map. reflexivity.
Qed.

Lemma compute_retrieval_metrics_reference_witness :
  compute_retrieval_metrics scenario_2 = Reference.metrics scenario_2.
Proof.
  apply (proj1 compute_retrieval_metrics_reference).
  unfold scenario_2.
  constructor; [|constructor; [|constructor]];
    (split; [exists 1%Z; split; [reflexivity|lia] | simpl; auto]).
Defined.

(** Scenario 1: no match at rank 1, one within the first ten, one grade of
    two relevant. *)
Example scenario_1_metrics :
  compute_retrieval_metrics scenario_1 = mkRetrievalMetrics 0 1 0.5 1.
Proof. reflexivity. Qed.

(** Outside the data model the code and the reference part: a first match
    of rank 0 is no recall for the code ([first_match_rank and ...]), and an
    [is_match] above 1.0 is a match for the code ([>= 1.0]) only. *)
Remark rank_zero_recall :
  recall_at_10 (compute_retrieval_metrics rank_zero) = 0%float
  /\ recall_at_10 (Reference.metrics rank_zero) = 1%float.
Proof. split; reflexivity. Qed.

Remark is_match_two_precision :
  precision (compute_retrieval_metrics is_match_two) = 1%float
  /\ precision (Reference.metrics is_match_two) = 0%float.
Proof. split; reflexivity. Qed.

Section OrderIndependence.

Implicit Types (g : Grade) (l grades : list Grade).

Lemma group_has_rank grades q :
  Forall has_rank grades -> Forall has_rank (Reference.group grades q).
Proof.
  intros Hr. apply Forall_forall. intros g [_ Hg]%list_elem_of_filter.
  rewrite Forall_forall in Hr. apply Hr, Hg.
Qed.

Lemma group_perm grades grades' q :
  grades ≡ₚ grades' -> Reference.group grades q ≡ₚ Reference.group grades' q.
Proof. intros Hp. unfold Reference.group. rewrite Hp. reflexivity. Qed.

Lemma query_ids_perm grades grades' :
  grades ≡ₚ grades' -> Reference.query_ids grades ≡ₚ Reference.query_ids grades'.
Proof.
  intros Hp. apply NoDup_Permutation; try apply NoDup_query_ids.
  intros q. rewrite !elem_of_query_ids. rewrite Hp. reflexivity.
Qed.

(** The entry of each query id is the same for a list and its shuffles. *)
Lemma entry_of_group_perm grades grades' q :
  Forall has_rank grades -> grades ≡ₚ grades' ->
  per_query_entry (sort_by_rank (Reference.group grades q)) =
  per_query_entry (sort_by_rank (Reference.group grades' q)).
Proof.
  intros Hr Hp. apply per_query_entry_perm.
  - apply group_has_rank, Hr.
  - apply group_perm, Hp.
Qed.

Lemma per_query_perm grades grades' :
  Forall has_rank grades -> grades ≡ₚ grades' ->
  per_query grades ≡ₚ per_query grades'.
Proof.
  intros Hr Hp. rewrite !per_query_groups.
  transitivity
    (map (fun q => per_query_entry (sort_by_rank (Reference.group grades q)))
       (Reference.query_ids grades')).
  - apply Permutation_map, query_ids_perm, Hp.
  - erewrite map_ext; [reflexivity|].
    intros q. apply entry_of_group_perm; assumption.
Qed.

(** The keys of [by_query], in insertion order. *)
Lemma group_by_query_keys grades :
  map fst (group_by_query grades) = Reference.query_ids grades.
Proof. rewrite group_by_query_spec, map_map. simpl. apply map_id. Qed.

Lemma per_query_same_order grades grades' :
  Forall has_rank grades -> grades ≡ₚ grades' ->
  map fst (group_by_query grades) = map fst (group_by_query grades') ->
  per_query grades = per_query grades'.
Proof.
  rewrite !group_by_query_keys. intros Hr Hp Hids.
  rewrite !per_query_groups, <- Hids.
  apply map_ext. intros q. apply entry_of_group_perm; assumption.
Qed.

End OrderIndependence.

(** ** Sums of zeros and ones

    Natural numbers below 2^53 are binary64 numbers, and adding 1.0 to one of
    them, or subtracting one from its successor, is exact.  So a [sum] of
    floats that are each 0.0 or 1.0 is the number of its ones, on either
    interpreter and in any order of the list.  The facts on rounding are
    taken from the specification of binary64 in [SpecFloat]. *)

Section IntegerFloats.

Local Abbreviation digits p := (Zpos (digits2_pos p)).

Lemma digits_bounds (p : positive) : 2 ^ (digits p - 1) <= Zpos p < 2 ^ digits p.
Proof.
  induction p as [p IH|p IH|]; cbn [digits2_pos]; [| |simpl; lia].
  - rewrite Pos2Z.inj_succ, (Pos2Z.inj_xI p).
    replace (Z.succ (digits p) - 1) with (Z.succ (digits p - 1)) by lia.
    rewrite !Z.pow_succ_r by lia.
    generalize dependent (2 ^ (digits p - 1)). generalize (2 ^ digits p). lia.
  - rewrite Pos2Z.inj_succ, (Pos2Z.inj_xO p).
    replace (Z.succ (digits p) - 1) with (Z.succ (digits p - 1)) by lia.
    rewrite !Z.pow_succ_r by lia.
    generalize dependent (2 ^ (digits p - 1)). generalize (2 ^ digits p). lia.
Qed.

Lemma digits_unique (p : positive) (d : Z) :
  2 ^ (d - 1) <= Zpos p < 2 ^ d -> digits p = d.
Proof.
  intros [Hlo Hhi]. destruct (digits_bounds p) as [Hlo' Hhi'].
  destruct (Z.lt_trichotomy (digits p) d) as [Hlt|[Heq|Hgt]]; [|exact Heq|].
  - pose proof (Z.pow_le_mono_r 2 (digits p) (d - 1)). lia.
  - pose proof (Z.pow_le_mono_r 2 d (digits p - 1)). lia.
Qed.

Lemma iter_xO (p j : positive) : Zpos (Pos.iter xO p j) = Zpos p * 2 ^ Zpos j.
Proof.
  induction j as [|j IH] using Pos.peano_ind.
  - simpl. lia.
  - rewrite Pos.iter_succ, (Pos2Z.inj_xO (Pos.iter xO p j)), IH, Pos2Z.inj_succ, Z.pow_succ_r by lia. lia.
Qed.

Lemma digits_iter_xO (p j : positive) : digits (Pos.iter xO p j) = digits p + Zpos j.
Proof.
  induction j as [|j IH] using Pos.peano_ind.
  - simpl. lia.
  - rewrite Pos.iter_succ. cbn [digits2_pos]. rewrite !Pos2Z.inj_succ, IH. lia.
Qed.

Lemma iter_pos_iter {A} (f : A -> A) (n : positive) (x : A) :
  @SpecFloat.iter_pos A f n x = Pos.iter f x n.
Proof.
  revert x. induction n as [n IH|n IH|]; intros x; simpl; [| |reflexivity].
  - rewrite !IH, !Pos.iter_swap. reflexivity.
  - rewrite !IH. reflexivity.
Qed.

Lemma shr_exact (q j : positive) :
  Pos.iter shr_1 {| shr_m := Zpos (Pos.iter xO q j); shr_r := false; shr_s := false |} j
  = {| shr_m := Zpos q; shr_r := false; shr_s := false |}.
Proof.
  induction j as [|j IH] using Pos.peano_ind.
  - reflexivity.
  - rewrite Pos.iter_succ_r, Pos.iter_succ. simpl. exact IH.
Qed.

Lemma fexp_53 (x : Z) : fexp prec emax x = Z.max (x - 53) (-1074).
Proof. reflexivity. Qed.

Lemma binary_round_aux_exact (sx : bool) (q : positive) (e : Z) :
  fexp prec emax (digits q + e) = e -> e <= 971 ->
  binary_round_aux prec emax sx (Zpos q) e loc_Exact = S754_finite sx q e.
Proof.
  intros Hf He. unfold binary_round_aux, shr_fexp. cbn [Zdigits2 shr_record_of_loc].
  rewrite Hf, Z.sub_diag. cbn [shr shr_m loc_of_shr_record round_nearest_even Zdigits2].
  rewrite Hf, Z.sub_diag. cbn [shr shr_m].
  assert ((e <=? emax - prec) = true) as -> by (apply Z.leb_le; exact He).
  reflexivity.
Qed.

Lemma binary_round_aux_shift (sx : bool) (q j : positive) (e : Z) :
  fexp prec emax (digits q + Zpos j + e) = e + Zpos j -> e + Zpos j <= 971 ->
  binary_round_aux prec emax sx (Zpos (Pos.iter xO q j)) e loc_Exact
  = S754_finite sx q (e + Zpos j).
Proof.
  intros Hf He. unfold binary_round_aux, shr_fexp at 1.
  cbn [Zdigits2 shr_record_of_loc]. rewrite digits_iter_xO, Hf.
  replace (e + Zpos j - e) with (Zpos j) by lia.
  cbn [shr]. rewrite iter_pos_iter, shr_exact.
  cbn [shr_m loc_of_shr_record round_nearest_even]. unfold shr_fexp.
  cbn [Zdigits2 shr_record_of_loc].
  replace (digits q + (e + Zpos j)) with (digits q + Zpos j + e) by lia.
  rewrite Hf, Z.sub_diag. cbn [shr shr_m].
  assert ((e + Zpos j <=? emax - prec) = true) as -> by (apply Z.leb_le; exact He).
  reflexivity.
Qed.

(** Rounding a value that is representable leaves it as it is. *)
Lemma binary_round_exact (sx : bool) (m q : positive) (e ef : Z) :
  ef = fexp prec emax (digits m + e) ->
  ef <= 971 ->
  Zpos m * 2 ^ (e - Z.min e ef) = Zpos q * 2 ^ (ef - Z.min e ef) ->
  binary_round prec emax sx m e = S754_finite sx q ef.
Proof.
  intros Hef Hmax Hval. unfold binary_round, shl_align. rewrite <- Hef.
  destruct (ef - e) as [|j|j] eqn:Hj.
  - assert (ef = e) as He by lia. rewrite He, Z.min_id, Z.sub_diag in Hval.
    assert (m = q) as -> by (simpl in Hval; lia).
    rewrite He. apply binary_round_aux_exact; [rewrite <- He at 2; rewrite Hef; reflexivity|lia].
  - assert (ef = e + Zpos j) as He by lia.
    rewrite Z.min_l, Z.sub_diag in Hval by lia.
    replace (ef - e) with (Zpos j) in Hval by lia. rewrite <- iter_xO in Hval.
    assert (m = Pos.iter xO q j) as Hm by (simpl in Hval; lia).
    rewrite Hm, He. apply binary_round_aux_shift; [|lia].
    rewrite <- He, Hef, Hm, digits_iter_xO; f_equal; lia.
  - assert (e = ef + Zpos j) as He by lia.
    rewrite Z.min_r, Z.sub_diag in Hval by lia.
    replace (e - ef) with (Zpos j) in Hval by lia. rewrite <- iter_xO in Hval.
    assert (Pos.iter xO m j = q) as Hm by (simpl in Hval; lia).
    rewrite Hm. apply binary_round_aux_exact; [|lia].
    rewrite <- Hm, digits_iter_xO, Hef; f_equal; lia.
Qed.


Lemma pow2_add (a b : Z) : 0 <= a -> 0 <= b -> 2 ^ a * 2 ^ b = 2 ^ (a + b).
Proof. intros. symmetry. apply Z.pow_add_r; assumption. Qed.

Lemma digits_scaled (m p : positive) (j : Z) :
  0 <= j -> Zpos m = Zpos p * 2 ^ j -> digits m = digits p + j.
Proof.
  intros Hj Hm. apply digits_unique. rewrite Hm.
  destruct (digits_bounds p) as [Hlo Hhi].
  pose proof (Pos2Z.is_pos (digits2_pos p)).
  assert (0 < 2 ^ j) by (apply Z.pow_pos_nonneg; lia).
  replace (digits p + j - 1) with (digits p - 1 + j) by lia.
  rewrite <- !pow2_add by lia. split.
  - apply Z.mul_le_mono_nonneg_r; lia.
  - apply Z.mul_lt_mono_pos_r; lia.
Qed.

Lemma digits_mono (p p' : positive) : (p <= p')%positive -> digits p <= digits p'.
Proof.
  intros Hp. destruct (digits_bounds p) as [Hlo _], (digits_bounds p') as [_ Hhi].
  destruct (Z_lt_le_dec (digits p') (digits p)) as [Hlt|]; [|assumption].
  pose proof (Z.pow_le_mono_r 2 (digits p') (digits p - 1)). lia.
Qed.

Lemma digits_below (p : positive) (n : Z) : Zpos p < 2 ^ n -> digits p <= n.
Proof.
  intros Hp. destruct (digits_bounds p) as [Hlo _].
  destruct (Z_lt_le_dec n (digits p)) as [Hlt|]; [|assumption].
  pose proof (Z.pow_le_mono_r 2 n (digits p - 1)). lia.
Qed.

(** The binary64 number of a natural number. *)
Definition SFint (k : Z) : spec_float := binary_normalize prec emax k 0 false.

Lemma SFint_pos (p : positive) :
  digits p <= 53 ->
  exists q, Zpos q = Zpos p * 2 ^ (53 - digits p)
            /\ SFint (Zpos p) = S754_finite false q (digits p - 53).
Proof.
  intros Hd. pose proof (Pos2Z.is_pos (digits2_pos p)).
  assert (0 < Zpos p * 2 ^ (53 - digits p))
    by (apply Z.mul_pos_pos; [lia|apply Z.pow_pos_nonneg; lia]).
  exists (Z.to_pos (Zpos p * 2 ^ (53 - digits p))).
  split; [rewrite Z2Pos.id; lia|].
  unfold SFint, binary_normalize. apply binary_round_exact.
  - rewrite fexp_53. lia.
  - lia.
  - rewrite Z.min_r by lia. rewrite Z.sub_diag, Z2Pos.id by lia.
    rewrite Z.mul_1_r. f_equal. f_equal. lia.
Qed.

(** 1.0. *)
Definition SF_one : spec_float := S754_finite false 4503599627370496 (-52).

Lemma SFadd_int_one (p : positive) :
  digits (p + 1) <= 53 ->
  SF64add (SFint (Zpos p)) SF_one = SFint (Zpos (p + 1)).
Proof.
  intros Hd'. pose proof (digits_mono p (p + 1) ltac:(lia)) as Hdd.
  pose proof (Pos2Z.is_pos (digits2_pos p)) as Hd0.
  destruct (SFint_pos p) as (q & Hq & ->); [lia|].
  destruct (SFint_pos (p + 1)) as (q' & Hq' & ->); [lia|].
  unfold SF64add, SFadd, SF_one. rewrite Z.min_r by lia.
  assert (exists a, fst (shl_align q (digits p - 53) (-52)) = a
                    /\ Zpos a = Zpos p * 2 ^ 52) as (a & -> & Ha).
  { unfold shl_align. destruct (-52 - (digits p - 53)) as [|j|j] eqn:Hj.
    - exists q. split; [reflexivity|]. rewrite Hq. f_equal. f_equal. lia.
    - exfalso. lia.
    - exists (Pos.iter xO q j). split; [reflexivity|].
      rewrite iter_xO, Hq, <- Z.mul_assoc, pow2_add by lia. f_equal. f_equal. lia. }
  change (fst (shl_align 4503599627370496 (-52) (-52))) with 4503599627370496%positive.
  cbn [cond_Zopp].
  change (Zpos a + Zpos 4503599627370496) with (Zpos (a + 4503599627370496)).
  cbn [binary_normalize].
  assert (Zpos (a + 4503599627370496) = Zpos (p + 1) * 2 ^ 52) as Hsum
    by (rewrite !Pos2Z.inj_add, Ha; lia).
  pose proof (digits_scaled _ _ 52 ltac:(lia) Hsum) as Hds.
  apply binary_round_exact.
  - rewrite fexp_53, Hds. lia.
  - lia.
  - rewrite Z.min_l by lia. rewrite Z.sub_diag, Z.mul_1_r, Hsum, Hq'.
    rewrite <- Z.mul_assoc, pow2_add by lia. f_equal. f_equal. lia.
Qed.

Lemma SFsub_int_succ (p : positive) :
  digits (p + 1) <= 53 ->
  SF64sub (SFint (Zpos p)) (SFint (Zpos (p + 1))) = SFopp SF_one.
Proof.
  intros Hd'. pose proof (digits_mono p (p + 1) ltac:(lia)) as Hdd.
  pose proof (Pos2Z.is_pos (digits2_pos p)) as Hd0.
  destruct (SFint_pos p) as (q & Hq & ->); [lia|].
  destruct (SFint_pos (p + 1)) as (q' & Hq' & ->); [lia|].
  unfold SF64sub, SFsub, SF_one, SFopp. rewrite Z.min_l by lia.
  assert (fst (shl_align q (digits p - 53) (digits p - 53)) = q) as ->
    by (unfold shl_align; rewrite Z.sub_diag; reflexivity).
  assert (exists b, fst (shl_align q' (digits (p + 1) - 53) (digits p - 53)) = b
                    /\ Zpos b = Zpos (p + 1) * 2 ^ (53 - digits p)) as (b & -> & Hb).
  { unfold shl_align.
    destruct (digits p - 53 - (digits (p + 1) - 53)) as [|j|j] eqn:Hj.
    - exists q'. split; [reflexivity|]. rewrite Hq'. f_equal. f_equal. lia.
    - exfalso. lia.
    - exists (Pos.iter xO q' j). split; [reflexivity|].
      rewrite iter_xO, Hq', <- Z.mul_assoc, pow2_add by lia. f_equal. f_equal. lia. }
  cbn [cond_Zopp].
  assert (0 < 2 ^ (53 - digits p)) as Hpos by (apply Z.pow_pos_nonneg; lia).
  assert (Zpos q - Zpos b = - 2 ^ (53 - digits p)) as Hdiff
    by (rewrite Hq, Hb, Pos2Z.inj_add; lia).
  destruct (Zpos q - Zpos b) as [|r|r] eqn:Hr; [lia|lia|].
  cbn [binary_normalize negb].
  assert (Zpos r = Zpos 1 * 2 ^ (53 - digits p)) as Hr1 by lia.
  pose proof (digits_scaled r 1 (53 - digits p) ltac:(lia) Hr1) as Hdr. cbn [digits2_pos] in Hdr.
  apply binary_round_exact.
  - rewrite fexp_53, Hdr. lia.
  - lia.
  - rewrite Z.min_r by lia. rewrite Z.sub_diag, Z.mul_1_r, Hr1, Z.mul_1_l.
    rewrite pow2_add by lia. replace (53 - digits p + (digits p - 53 - -52)) with 52 by lia.
    reflexivity.
Qed.

End IntegerFloats.


Section IntegerSums.

Lemma Prim2SF_float_of_Z (k : Z) :
  0 <= k < 2 ^ 53 -> Prim2SF (float_of_Z k) = SFint k.
Proof.
  intros Hk. unfold float_of_Z, SFint. rewrite of_uint63_spec, Uint63.of_Z_spec.
  rewrite Z.mod_small; [reflexivity|].
  change wB with (2 ^ 63). assert (2 ^ 53 < 2 ^ 63) by reflexivity. lia.
Qed.

Lemma Prim2SF_one : Prim2SF 1%float = SF_one.
Proof. reflexivity. Qed.

Lemma float_of_Z_succ (k : Z) :
  0 <= k -> k + 1 < 2 ^ 53 -> (float_of_Z k + 1)%float = float_of_Z (k + 1).
Proof.
  intros Hk Hk1. apply Prim2SF_inj.
  rewrite FloatAxioms.add_spec, !Prim2SF_float_of_Z, Prim2SF_one by lia.
  destruct k as [|p|p]; [reflexivity| |lia].
  change (Zpos p + 1) with (Zpos (p + 1)). apply SFadd_int_one.
  apply digits_below. lia.
Qed.

Lemma float_of_Z_sub_succ (k : Z) :
  1 <= k -> k + 1 < 2 ^ 53 -> (float_of_Z k - float_of_Z (k + 1))%float = (-1)%float.
Proof.
  intros Hk Hk1. apply Prim2SF_inj.
  rewrite FloatAxioms.sub_spec, !Prim2SF_float_of_Z by lia.
  destruct k as [|p|p]; [lia| |lia].
  change (Zpos p + 1) with (Zpos (p + 1)). rewrite SFsub_int_succ; [reflexivity|].
  apply digits_below. lia.
Qed.

Lemma SFint_cases (k : Z) :
  0 <= k < 2 ^ 53 ->
  k = 0 /\ SFint k = S754_zero false
  \/ exists q e, SFint k = S754_finite false q e /\ -52 <= e
                 /\ (k = 1 -> q = 4503599627370496%positive /\ e = -52)
                 /\ (1 < k -> -52 < e).
Proof.
  intros Hk. destruct k as [|p|p]; [left; split; reflexivity| |lia].
  right. destruct (SFint_pos p) as (q & Hq & ->); [apply digits_below; lia|].
  pose proof (Pos2Z.is_pos (digits2_pos p)).
  exists q, (Zpos (digits2_pos p) - 53). split; [reflexivity|]. split; [lia|]. split.
  - intros [= ->]. simpl in *. split; [lia|reflexivity].
  - intros Hp. destruct (digits_bounds p) as [_ Hhi].
    destruct (Z.eq_dec (Zpos (digits2_pos p)) 1) as [E|]; [|lia].
    rewrite E in Hhi. simpl in Hhi. lia.
Qed.

Lemma float_of_Z_add_zero (k : Z) :
  0 <= k < 2 ^ 53 -> (float_of_Z k + 0)%float = float_of_Z k.
Proof.
  intros Hk. apply Prim2SF_inj. rewrite FloatAxioms.add_spec, Prim2SF_float_of_Z by lia.
  destruct (SFint_cases k Hk) as [[_ ->]|(q & e & -> & _)]; reflexivity.
Qed.

Lemma float_of_Z_sub_diag (k : Z) :
  0 <= k < 2 ^ 53 -> (float_of_Z k - float_of_Z k)%float = 0%float.
Proof.
  intros Hk. apply Prim2SF_inj. rewrite FloatAxioms.sub_spec, Prim2SF_float_of_Z by lia.
  destruct (SFint_cases k Hk) as [[_ ->]|(q & e & -> & _)]; [reflexivity|].
  unfold SF64sub, SFsub. rewrite Z.min_id.
  assert (fst (shl_align q e e) = q) as ->
    by (unfold shl_align; rewrite Z.sub_diag; reflexivity).
  cbn [cond_Zopp]. rewrite Z.sub_diag. reflexivity.
Qed.

Lemma float_of_Z_abs_ge_zero (k : Z) :
  0 <= k < 2 ^ 53 -> (abs 0 <=? abs (float_of_Z k))%float = true.
Proof.
  intros Hk. rewrite FloatAxioms.leb_spec, !FloatAxioms.abs_spec, Prim2SF_float_of_Z by lia.
  destruct (SFint_cases k Hk) as [[_ ->]|(q & e & -> & _)]; reflexivity.
Qed.

Lemma float_of_Z_abs_ge_one (k : Z) :
  1 <= k < 2 ^ 53 -> (abs 1 <=? abs (float_of_Z k))%float = true.
Proof.
  intros Hk. rewrite FloatAxioms.leb_spec, !FloatAxioms.abs_spec, Prim2SF_float_of_Z, Prim2SF_one by lia.
  destruct (SFint_cases k ltac:(lia)) as [[-> _]|(q & e & -> & He & H1 & Hgt)]; [lia|].
  unfold SF_one, SFabs, SFleb, SFcompare.
  destruct (Z.eq_dec k 1) as [E|E].
  - destruct (H1 E) as [-> ->]. reflexivity.
  - assert (-52 < e) as Hlt by (apply Hgt; lia).
    apply Z.compare_lt_iff in Hlt. rewrite Hlt. reflexivity.
Qed.

Lemma neumaier_step_zero (k : Z) :
  0 <= k < 2 ^ 53 ->
  neumaier_step (float_of_Z k, 0%float) 0%float = (float_of_Z k, 0%float).
Proof.
  intros Hk. unfold neumaier_step.
  rewrite float_of_Z_add_zero, float_of_Z_abs_ge_zero, float_of_Z_sub_diag by lia.
  reflexivity.
Qed.

Lemma neumaier_step_one (k : Z) :
  0 <= k -> k + 1 < 2 ^ 53 ->
  neumaier_step (float_of_Z k, 0%float) 1%float = (float_of_Z (k + 1), 0%float).
Proof.
  intros Hk Hk1. unfold neumaier_step. rewrite float_of_Z_succ by lia.
  destruct (Z.eq_dec k 0) as [->|Hne]; [reflexivity|].
  rewrite float_of_Z_abs_ge_one, float_of_Z_sub_succ by lia. reflexivity.
Qed.

End IntegerSums.

Section BinarySums.

Definition binary (x : float) : Prop := x = 0%float \/ x = 1%float.

(** The number of 1.0 in a list. *)
Definition ones (xs : list float) : Z :=
  Z.of_nat (length (filter (fun x => (x =? 1)%float = true) xs)).

Lemma ones_cons_zero (xs : list float) : ones (0%float :: xs) = ones xs.
Proof. reflexivity. Qed.

Lemma ones_cons_one (xs : list float) : ones (1%float :: xs) = 1 + ones xs.
Proof. unfold ones. rewrite filter_cons. simpl. lia. Qed.

Lemma ones_nonneg (xs : list float) : 0 <= ones xs <= Z.of_nat (length xs).
Proof. unfold ones. pose proof (length_filter (fun x => (x =? 1)%float = true) xs). lia. Qed.

Lemma ones_perm (xs ys : list float) : xs ≡ₚ ys -> ones xs = ones ys.
Proof. intros Hp. unfold ones. rewrite Hp. reflexivity. Qed.

Lemma fold_add_binary (xs : list float) (k : Z) :
  Forall binary xs -> 0 <= k -> k + ones xs < 2 ^ 53 ->
  fold_left PrimFloat.add xs (float_of_Z k) = float_of_Z (k + ones xs).
Proof.
  intros Hb. revert k. induction Hb as [|x xs Hx _ IH]; intros k Hk Hlt.
  - unfold ones. simpl. f_equal. lia.
  - pose proof (ones_nonneg xs). cbn [fold_left].
    destruct Hx as [-> | ->].
    + rewrite ones_cons_zero in *. rewrite float_of_Z_add_zero by lia. apply IH; lia.
    + rewrite ones_cons_one in *. rewrite float_of_Z_succ by lia.
      rewrite IH by lia. f_equal. lia.
Qed.

Lemma fold_neumaier_binary (xs : list float) (k : Z) :
  Forall binary xs -> 0 <= k -> k + ones xs < 2 ^ 53 ->
  fold_left neumaier_step xs (float_of_Z k, 0%float) = (float_of_Z (k + ones xs), 0%float).
Proof.
  intros Hb. revert k. induction Hb as [|x xs Hx _ IH]; intros k Hk Hlt.
  - unfold ones. simpl. do 2 f_equal. lia.
  - pose proof (ones_nonneg xs). cbn [fold_left].
    destruct Hx as [-> | ->].
    + rewrite ones_cons_zero in *. rewrite neumaier_step_zero by lia. apply IH; lia.
    + rewrite ones_cons_one in *. rewrite neumaier_step_one by lia.
      rewrite IH by lia. do 2 f_equal. lia.
Qed.

Lemma fsum_binary (xs : list float) :
  Forall binary xs -> Z.of_nat (length xs) < 2 ^ 53 -> fsum xs = float_of_Z (ones xs).
Proof.
  intros Hb Hlen. pose proof (ones_nonneg xs).
  exact (fold_add_binary xs 0 Hb ltac:(lia) ltac:(lia)).
Qed.

Lemma csum_binary (xs : list float) :
  Forall binary xs -> Z.of_nat (length xs) < 2 ^ 53 -> csum xs = float_of_Z (ones xs).
Proof.
  intros Hb Hlen. destruct Hb as [|x xs Hx Hb]; [reflexivity|].
  pose proof (ones_nonneg xs). unfold csum. simpl in Hlen.
  destruct Hx as [-> | ->].
  - rewrite ones_cons_zero. change (0 + 0)%float with (float_of_Z 0).
    rewrite fold_neumaier_binary by (try assumption; lia). reflexivity.
  - rewrite ones_cons_one. change (0 + 1)%float with (float_of_Z 1).
    rewrite fold_neumaier_binary by (try assumption; lia). reflexivity.
Qed.

End BinarySums.

Section PerQuerySums.

Lemma per_query_entry_binary (l : list Grade) :
  binary (pq_match (per_query_entry l)) /\ binary (pq_recall_10 (per_query_entry l)).
Proof.
  unfold per_query_entry, binary. cbn [pq_match pq_recall_10].
  destruct (first_match_rank l) as [[|[r|r|]|r]|]; split; auto;
    match goal with |- context [if ?b then _ else _] => destruct b; auto end.
Qed.

Lemma builtin_sum_binary (py : CPython) (xs : list float) :
  Forall binary xs -> Z.of_nat (length xs) < 2 ^ 53 ->
  builtin_sum py xs = float_of_Z (ones xs).
Proof. destruct py; [apply fsum_binary|apply csum_binary]. Qed.

Lemma per_query_binary (grades : list Grade) :
  Forall binary (map pq_match (per_query grades))
  /\ Forall binary (map pq_recall_10 (per_query grades)).
Proof.
  unfold per_query. rewrite !map_map.
  split; apply Forall_forall; intros x (kv & -> & _)%list_elem_of_fmap;
    apply per_query_entry_binary.
Qed.

(** The sums of the [match] and of the [recall_10] values do not depend on
    the order of the queries. *)
Lemma builtin_sum_per_query (py : CPython) (grades grades' : list Grade) :
  per_query grades ≡ₚ per_query grades' ->
  Z.of_nat (length (per_query grades)) < 2 ^ 53 ->
  builtin_sum py (map pq_match (per_query grades))
  = builtin_sum py (map pq_match (per_query grades'))
  /\ builtin_sum py (map pq_recall_10 (per_query grades))
     = builtin_sum py (map pq_recall_10 (per_query grades')).
Proof.
  intros Hp Hlen.
  destruct (per_query_binary grades) as [Hm Hr], (per_query_binary grades') as [Hm' Hr'].
  pose proof (Permutation_length Hp) as Hl.
  rewrite !builtin_sum_binary by (try assumption; rewrite length_map; lia).
  split; f_equal; apply ones_perm, Permutation_map, Hp.
Qed.

Lemma compute_retrieval_metrics_on_UpTo311 (grades : list Grade) :
  compute_retrieval_metrics_on UpTo311 grades = compute_retrieval_metrics grades.
Proof. reflexivity. Qed.

End PerQuerySums.

(** C3 as stated fails on CPython up to 3.11. The per-query precisions are
    1, 1 and 1/3; summed in the order q1, q2, q3 and divided by 3 they give
    0.7777777777777778 ([0x1.8e38e38e38e39p-1]), summed in the order q3, q1,
    q2 they give 0.7777777777777777 ([0x1.8e38e38e38e38p-1]): the groups are visited in the order in which their
    ids first appear in the input, [sum] adds from left to right, and
    binary64 addition is not associative. *)
Lemma compute_retrieval_metrics_shuffle_differs :
  shuffle_before ≡ₚ shuffle_after
  /\ Forall well_formed shuffle_before
  /\ precision (compute_retrieval_metrics_on UpTo311 shuffle_before) = 0x1.8e38e38e38e39p-1%float
  /\ precision (compute_retrieval_metrics_on UpTo311 shuffle_after) = 0x1.8e38e38e38e38p-1%float
  /\ compute_retrieval_metrics_on UpTo311 shuffle_before
     <> compute_retrieval_metrics_on UpTo311 shuffle_after.
Proof.
  split; [|split; [|split; [|split]]].
  - exact (Permutation_app_comm (firstn 2 shuffle_before) (skipn 2 shuffle_before)).
  - unfold shuffle_before.
    repeat (constructor;
            [split; [eexists; split; [reflexivity|lia] | simpl; auto]|]).
    constructor.
  - vm_compute. reflexivity.
  - vm_compute. reflexivity.
  - intros H.
    assert (PrimFloat.eqb (precision (compute_retrieval_metrics_on UpTo311 shuffle_before))
              (precision (compute_retrieval_metrics_on UpTo311 shuffle_after)) = false) as E
      by (vm_compute; reflexivity).
    rewrite H in E. vm_compute in E. discriminate E.
Qed.

(** From CPython 3.12 on the compensated [sum] gives 0.7777777777777778 for
    both orders of these grades. *)
Remark compensated_sum_shuffle_agrees :
  compute_retrieval_metrics_on From312 shuffle_before
  = compute_retrieval_metrics_on From312 shuffle_after
  /\ precision (compute_retrieval_metrics_on From312 shuffle_before)
     = 0x1.8e38e38e38e39p-1%float.
Proof. vm_compute. auto. Qed.

(** Without ranks the position in the input stands for the rank
    ([query_grades.index(g) + 1]), and the order of the input shows. *)
Remark unranked_order_shows :
  match_ (compute_retrieval_metrics unranked) = 1%float
  /\ match_ (compute_retrieval_metrics unranked_swapped) = 0%float.
Proof. split; reflexivity. Qed.

(** C3, amended. For a list of grades that all carry a rank and any
    permutation of it, on either interpreter: [num_queries] is the same; the
    per-query entries (match, recall_10, precision) are the same up to their
    order; [match] and [recall_at_10] are the same (for fewer than 2^53
    queries: they are sums of values 0.0 and 1.0, exact in any order); and
    the metrics are identical, precision included, whenever the distinct
    query ids first appear in the same order in both lists (the dict
    [by_query] then has its keys in the same order).  Otherwise [precision]
    is the sum of the same per-query precisions taken in another order. *)
Theorem compute_retrieval_metrics_permutation (py : CPython)
  (grades grades' : list Grade) :
  Forall has_rank grades ->
  grades ≡ₚ grades' ->
  num_queries (compute_retrieval_metrics_on py grades) =
    num_queries (compute_retrieval_metrics_on py grades')
  /\ per_query grades ≡ₚ per_query grades'
  /\ (num_queries (compute_retrieval_metrics_on py grades) < 2 ^ 53 ->
      match_ (compute_retrieval_metrics_on py grades)
        = match_ (compute_retrieval_metrics_on py grades')
      /\ recall_at_10 (compute_retrieval_metrics_on py grades)
         = recall_at_10 (compute_retrieval_metrics_on py grades'))
  /\ (map fst (group_by_query grades) = map fst (group_by_query grades') ->
      compute_retrieval_metrics_on py grades = compute_retrieval_metrics_on py grades').
Proof.
  intros Hr Hp. pose proof (per_query_perm grades grades' Hr Hp) as Hpq.
  pose proof (Permutation_length Hpq) as Hlen.
  split; [|split; [|split]].
  - unfold compute_retrieval_metrics_on. rewrite Hlen.
    destruct (Z.of_nat (length (per_query grades')) =? 0)%Z; reflexivity.
  - exact Hpq.
  - unfold compute_retrieval_metrics_on. rewrite <- Hlen.
    destruct (Z.of_nat (length (per_query grades)) =? 0)%Z eqn:Hn;
      [split; reflexivity|].
    cbn [num_queries match_ recall_at_10]. intros Hlt.
    destruct (builtin_sum_per_query py grades grades' Hpq Hlt) as [-> ->].
    split; reflexivity.
  - intros Hids. unfold compute_retrieval_metrics_on.
    rewrite (per_query_same_order grades grades' Hr Hp Hids). reflexivity.
Qed.

Lemma compute_retrieval_metrics_permutation_witness :
  num_queries (compute_retrieval_metrics_on From312 shuffle_before) =
    num_queries (compute_retrieval_metrics_on From312 shuffle_after)
  /\ per_query shuffle_before ≡ₚ per_query shuffle_after
  /\ (num_queries (compute_retrieval_metrics_on From312 shuffle_before) < 2 ^ 53 ->
      match_ (compute_retrieval_metrics_on From312 shuffle_before)
        = match_ (compute_retrieval_metrics_on From312 shuffle_after)
      /\ recall_at_10 (compute_retrieval_metrics_on From312 shuffle_before)
         = recall_at_10 (compute_retrieval_metrics_on From312 shuffle_after))
  /\ (map fst (group_by_query shuffle_before) = map fst (group_by_query shuffle_after) ->
      compute_retrieval_metrics_on From312 shuffle_before
      = compute_retrieval_metrics_on From312 shuffle_after).
Proof.
  apply compute_retrieval_metrics_permutation.
  - unfold shuffle_before. repeat (constructor; [eexists; reflexivity|]). constructor.
  - exact (Permutation_app_comm (firstn 2 shuffle_before) (skipn 2 shuffle_before)).
Defined.

(** ** The grader *)

(** [grade] never raises: its [try] covers the whole body. *)
Lemma grade_returns (client : string -> outcome (option float))
  (query : string) (result : SearchResult) :
  exists g : GradeResult, PeopleGrader.grade client query result = Ok g.
Proof.
  unfold PeopleGrader.grade.
  destruct (client (PeopleGrader.user_message query result)) as [[score|]|e];
    eexists; reflexivity.
Qed.

(** C4. [PeopleGrader.grade] always returns a [GradeResult]: with a parsed
    score, [is_match] is 1.0 when the score is at least 0.5 and 0.0
    otherwise; when the call raises or nothing was parsed, [is_match] is
    0.0.  So [is_match] is exactly 0.0 or 1.0. *)
Theorem grade_total (client : string -> outcome (option float))
  (query : string) (result : SearchResult) :
  exists g : GradeResult,
    PeopleGrader.grade client query result = Ok g
    /\ match client (PeopleGrader.user_message query result) with
       | Ok (Some score) =>
           scores g !! "is_match" =
           Some (if PrimFloat.leb 0.5%float score then 1%float else 0%float)
       | Ok None | Raise _ => scores g !! "is_match" = Some 0%float
       end
    /\ (scores g !! "is_match" = Some 0%float \/ scores g !! "is_match" = Some 1%float).
Proof.
  unfold PeopleGrader.grade.
  destruct (client (PeopleGrader.user_message query result)) as [[score|]|e]; simpl.
  - eexists. split; [reflexivity|]. simpl. rewrite lookup_singleton_eq.
    split; [reflexivity|].
    destruct (PrimFloat.leb 0.5%float score); [right|left]; reflexivity.
  - eexists. split; [reflexivity|]. simpl. rewrite lookup_singleton_eq.
    split; [reflexivity|left; reflexivity].
  - eexists. split; [reflexivity|]. simpl. rewrite lookup_singleton_eq.
    split; [reflexivity|left; reflexivity].
Qed.

(** ** Enrichment *)

Section Enrichment.

Variable w : World.

Implicit Types (results : list SearchResult) (contents : gmap string string).

(** The list comprehension of [enrich_results]. *)
Definition replace_text contents (r : SearchResult) : SearchResult :=
  mkSearchResult (url r) (title r) (default (text r) (contents !! url r)) (metadata r).

Lemma enrich_results_cases results :
  enrich_results w results =
  match fetch_exa_contents w (urls_of results) None with
  | Raise _ => Ok results
  | Ok contents => Ok (map (replace_text contents) results)
  end.
Proof. reflexivity. Qed.

Lemma replace_text_fields contents results :
  map url (map (replace_text contents) results) = map url results
  /\ map title (map (replace_text contents) results) = map title results
  /\ map metadata (map (replace_text contents) results) = map metadata results.
Proof. rewrite !map_map. repeat split. Qed.

(** C5. When the content fetch raises, [enrich_results] returns the list it
    was given; when the fetch returns a mapping, each result takes the text
    of its url in the mapping and keeps its own text when the url is not a
    key; in both cases the urls, titles and metadata are those of the input,
    in the same order. *)
Theorem enrich_results_best_effort results :
  (forall e, fetch_exa_contents w (urls_of results) None = Raise e ->
             enrich_results w results = Ok results)
  /\ (forall contents,
        fetch_exa_contents w (urls_of results) None = Ok contents ->
        exists enriched,
          enrich_results w results = Ok enriched
          /\ length enriched = length results
          /\ forall (i : nat) (r : SearchResult),
               results !! i = Some r ->
               exists r', enriched !! i = Some r'
                 /\ (contents !! url r = None -> text r' = text r)
                 /\ (forall t, contents !! url r = Some t -> text r' = t))
  /\ (exists enriched,
        enrich_results w results = Ok enriched
        /\ map url enriched = map url results
        /\ map title enriched = map title results
        /\ map metadata enriched = map metadata results).
Proof.
  rewrite enrich_results_cases. split; [|split].
  - intros e ->. reflexivity.
  - intros contents ->. eexists. split; [reflexivity|]. split; [apply length_map|].
    intros i r Hi. exists (replace_text contents r). split.
    + change (map (replace_text contents) results) with (replace_text contents <$> results).
      rewrite list_lookup_fmap, Hi. reflexivity.
    + simpl. split; [intros ->|intros t ->]; reflexivity.
  - destruct (fetch_exa_contents w (urls_of results) None) as [contents|e].
    + eexists. split; [reflexivity|]. apply replace_text_fields.
    + eexists. split; [reflexivity|]. repeat split.
Qed.

End Enrichment.

Lemma enrich_results_best_effort_witness :
  enrich_results exa_down three_results = Ok three_results.
Proof.
  apply (proj1 (enrich_results_best_effort exa_down three_results) "ConnectError").
  reflexivity.
Defined.

(** ** Grading the results of one query *)

Section Grading.

Variable w : World.

Implicit Types (query : Query) (results : list SearchResult).

(** The [is_match] that [grade_one] stores for a result. *)
Definition is_match_of query (r : SearchResult) : float :=
  match PeopleGrader.grade (grader_client w) (query_text query) r with
  | Ok g => default 0%float (scores g !! "is_match")
  | Raise _ => 0%float
  end.

Definition grade_of query (ir : Z * SearchResult) : Grade :=
  mkGrade (query_id query) (Some (fst ir)) (Some (is_match_of query (snd ir))).

Lemma grade_one_ok query (rank : Z) (r : SearchResult) :
  Benchmark.grade_one w query rank r = Ok (grade_of query (rank, r)).
Proof.
  unfold Benchmark.grade_one, grade_of, is_match_of. simpl.
  destruct (grade_returns (grader_client w) (query_text query) r) as (g & Hg).
  rewrite Hg. reflexivity.
Qed.

Lemma gather_map_ok {A B} (f : A -> outcome B) (g : A -> B) (l : list A) :
  (forall a, f a = Ok (g a)) -> gather (map f l) = Ok (map g l).
Proof.
  intros Hf. induction l as [|a l IH]; [reflexivity|].
  simpl. rewrite Hf, IH. reflexivity.
Qed.

Lemma _grade_ok query results :
  Benchmark._grade w query results = Ok (map (grade_of query) (enumerate results 1)).
Proof.
  unfold Benchmark._grade. apply gather_map_ok.
  intros [rank r]. apply grade_one_ok.
Qed.

Lemma enumerate_fst {A} (l : list A) (start : Z) :
  map fst (enumerate l start) = seqZ start (Z.of_nat (length l)).
Proof.
  revert start. induction l as [|x l IH]; intros start; [reflexivity|].
  simpl length. rewrite seqZ_cons by lia. simpl. f_equal.
  rewrite IH. f_equal. lia.
Qed.

Lemma enumerate_lookup {A} (l : list A) (start : Z) (i : nat) :
  enumerate l start !! i = (fun x => (start + Z.of_nat i, x)) <$> l !! i.
Proof.
  revert start i. induction l as [|x l IH]; intros start [|i]; simpl; try reflexivity.
  - do 2 f_equal. lia.
  - rewrite IH. destruct (l !! i); simpl; [|reflexivity]. do 2 f_equal. lia.
Qed.

Lemma _grade_ranks query results :
  map grade_rank (map (grade_of query) (enumerate results 1)) =
  map Some (seqZ 1 (Z.of_nat (length results))).
Proof. rewrite <- enumerate_fst, !map_map. reflexivity. Qed.

(** The grades of a query carry the ranks 1, 2, ..., n in the order of the
    results: the grade at position [i] has rank [i + 1], the id of the query
    and the judgment of the result at position [i]. *)
Lemma _grade_positions query results :
  exists grades : list Grade,
    Benchmark._grade w query results = Ok grades
    /\ map grade_rank grades = map Some (seqZ 1 (Z.of_nat (length results)))
    /\ (forall (i : nat) (r : SearchResult),
          results !! i = Some r ->
          exists (g : Grade) (judged : GradeResult),
            grades !! i = Some g
            /\ grade_rank g = Some (Z.of_nat i + 1)
            /\ grade_query_id g = query_id query
            /\ PeopleGrader.grade (grader_client w) (query_text query) r = Ok judged
            /\ grade_is_match g = Some (default 0%float (scores judged !! "is_match")))
    /\ NoDup (map grade_rank grades)
    /\ Forall (fun g => exists k, grade_rank g = Some k /\ (1 <= k)%Z) grades.
Proof.
  eexists. split; [apply _grade_ok|]. split; [apply _grade_ranks|]. split; [|split].
  - intros i r Hi.
    destruct (grade_returns (grader_client w) (query_text query) r) as (judged & Hj).
    exists (grade_of query (1 + Z.of_nat i, r)), judged.
    split; [|split; [|split; [|split]]].
    + change (map (grade_of query) (enumerate results 1))
        with (grade_of query <$> enumerate results 1).
      rewrite list_lookup_fmap, enumerate_lookup, Hi. reflexivity.
    + simpl. f_equal. lia.
    + reflexivity.
    + exact Hj.
    + simpl. unfold is_match_of. rewrite Hj. reflexivity.
  - rewrite _grade_ranks.
    apply (NoDup_fmap_2 Some), NoDup_seqZ.
  - apply Forall_forall. intros g (ir & -> & Hir)%list_elem_of_fmap.
    exists (fst ir). split; [reflexivity|].
    assert (fst ir ∈ map fst (enumerate results 1)) as Hin.
    { apply list_elem_of_fmap. exists ir. split; [reflexivity|assumption]. }
    rewrite enumerate_fst in Hin. apply elem_of_seqZ in Hin. lia.
Qed.

End Grading.

(** ** The Parallel searcher *)

Section Parallel.

Import ParallelSearcher.

Lemma collect_take (num_results i : Z) (raw_results : list RawResult) :
  collect num_results i raw_results =
  imap (fun k r => convert (i + Z.of_nat k) r)
    (take (Z.to_nat (num_results - i)) raw_results).
Proof.
  revert i. induction raw_results as [|r raw IH]; intros i.
  - rewrite take_nil. reflexivity.
  - simpl. destruct (Z.leb_spec num_results i) as [Hle|Hlt].
    + replace (Z.to_nat (num_results - i)) with O by lia. reflexivity.
    + replace (Z.to_nat (num_results - i)) with (S (Z.to_nat (num_results - (i + 1)))) by lia.
      simpl. rewrite IH. f_equal; [f_equal; lia|].
      apply imap_ext. intros k x _. simpl. f_equal. lia.
Qed.

(** C10. When the provider answers, [search] returns the first
    [num_results] raw results, converted, in the provider's order, and so
    at most [num_results] of them, however many the provider sent. *)
Theorem search_at_most_num_results
  (post : string -> Z -> outcome (option (list RawResult)))
  (query : string) (num_results : Z) (data : option (list RawResult)) :
  (0 <= num_results)%Z ->
  post query num_results = Ok data ->
  exists results : list SearchResult,
    search post query num_results = Ok results
    /\ results = imap (fun k r => convert (Z.of_nat k) r)
                   (take (Z.to_nat num_results) (default [] data))
    /\ (Z.of_nat (length results) <= num_results)%Z.
Proof.
  intros Hn Hpost. unfold search. rewrite Hpost. simpl.
  eexists. split; [reflexivity|]. rewrite collect_take.
  replace (num_results - 0)%Z with num_results by lia.
  split; [reflexivity|].
  rewrite length_imap, length_take. lia.
Qed.

End Parallel.

Lemma search_at_most_num_results_witness :
  exists results : list SearchResult,
    ParallelSearcher.search (fun _ _ => Ok (Some three_raw)) "engineer" 2 = Ok results
    /\ results = imap (fun k r => ParallelSearcher.convert (Z.of_nat k) r)
                   (take (Z.to_nat 2) (default [] (Some three_raw)))
    /\ (Z.of_nat (length results) <= 2)%Z.
Proof.
  apply (search_at_most_num_results (fun _ _ => Ok (Some three_raw)) "engineer" 2
           (Some three_raw)).
  - lia.
  - reflexivity.
Defined.

(** ** The orchestrator *)

Section Orchestrator.

Variable w : World.

Implicit Types (searcher : Searcher) (config : BenchmarkConfig) (q : Query)
  (queries completed : list Query) (grades : list Grade).

Lemma enrich_results_ok (results : list SearchResult) :
  exists enriched, enrich_results w results = Ok enriched.
Proof.
  rewrite enrich_results_cases.
  destruct (fetch_exa_contents w (urls_of results) None); eexists; reflexivity.
Qed.

(** The results that reach the grader. *)
Definition enriched config (results : list SearchResult) : list SearchResult :=
  if enrich_exa_contents config
  then match enrich_results w results with
       | Ok results' => results'
       | Raise _ => results
       end
  else results.

(** What a query adds to the grades of a searcher whose search returns. *)
Definition produced searcher config q : list Grade :=
  match search searcher (query_text q) (num_results config) with
  | Ok results => map (grade_of w q) (enumerate (enriched config results) 1)
  | Raise _ => []
  end.

Lemma process_returns searcher config q grades (results : list SearchResult) :
  search searcher (query_text q) (num_results config) = Ok results ->
  Benchmark.process w searcher config q grades = Ok (grades ++ produced searcher config q).
Proof.
  intros Hs. unfold Benchmark.process, produced, enriched. rewrite Hs. simpl.
  destruct (enrich_exa_contents config).
  - destruct (enrich_results_ok results) as [results' ->]. simpl.
    rewrite _grade_ok. reflexivity.
  - simpl. rewrite _grade_ok. reflexivity.
Qed.

Lemma process_raises searcher config q grades (e : string) :
  search searcher (query_text q) (num_results config) = Raise e ->
  Benchmark.process w searcher config q grades = Raise e.
Proof. intros Hs. unfold Benchmark.process. rewrite Hs. reflexivity. Qed.

Lemma run_processes_returns searcher config completed grades :
  (forall q, q ∈ completed ->
     exists results, search searcher (query_text q) (num_results config) = Ok results) ->
  Benchmark.run_processes w searcher config completed grades =
  Ok (grades ++ concat (map (produced searcher config) completed)).
Proof.
  revert grades. induction completed as [|q completed IH]; intros grades Hall.
  - simpl. rewrite app_nil_r. reflexivity.
  - destruct (Hall q) as [results Hq]; [left|].
    simpl. rewrite (process_returns _ _ _ _ _ Hq), IH, app_assoc; [reflexivity|].
    intros q' Hq'. apply Hall. right. exact Hq'.
Qed.

Lemma run_processes_raises searcher config completed grades q (e : string) :
  q ∈ completed ->
  search searcher (query_text q) (num_results config) = Raise e ->
  exists e', Benchmark.run_processes w searcher config completed grades = Raise e'.
Proof.
  intros Hin Hq. revert grades.
  induction completed as [|q' completed IH]; intros grades.
  - inversion Hin.
  - simpl.
    destruct (search searcher (query_text q') (num_results config)) as [results|e'] eqn:Hq'.
    + rewrite (process_returns _ _ _ _ _ Hq').
      apply IH. apply elem_of_cons in Hin as [->|Hin]; [congruence|exact Hin].
    + rewrite (process_raises _ _ _ _ _ Hq'). exists e'. reflexivity.
Qed.

Lemma gather_raises {A} (aws : list (outcome A)) (i : nat) (e : string) :
  aws !! i = Some (Raise e) -> exists e', gather aws = Raise e'.
Proof.
  revert i. induction aws as [|aw aws IH]; intros i Hi; [discriminate|].
  simpl. destruct aw as [a|e0]; [|eexists; reflexivity].
  destruct i as [|i]; [discriminate|].
  destruct (IH i Hi) as [e' ->]. eexists; reflexivity.
Qed.

Lemma gather_returns {A} (aws : list (outcome A)) (l : list A) :
  gather aws = Ok l <-> aws = map Ok l.
Proof.
  revert l. induction aws as [|aw aws IH]; intros l; simpl.
  - split; [intros [= <-]; reflexivity|]. destruct l; [reflexivity|discriminate].
  - destruct aw as [a|e].
    + destruct (gather aws) as [l'|e'] eqn:Hg.
      * split.
        -- intros [= <-]. simpl. f_equal. apply IH. reflexivity.
        -- destruct l as [|a' l]; [discriminate|]. intros [= -> Haws].
           apply IH in Haws. congruence.
      * split; [discriminate|].
        destruct l as [|a' l]; [discriminate|]. intros [= -> Haws].
        apply IH in Haws. discriminate.
    + split; [discriminate|]. destruct l; discriminate.
Qed.

End Orchestrator.

Section Report.

Implicit Types (all_grades : list (string * list Grade)) (grades : list Grade).

(** What [attach] leaves under a name: the metrics of a non-empty grade
    list, nothing for an empty one. *)
Definition entry_for grades : option RetrievalMetrics :=
  match grades with
  | [] => None
  | _ :: _ => Some (compute_retrieval_metrics grades)
  end.

Lemma searchers_of_grades_snoc all_grades (ng : string * list Grade) :
  Benchmark.searchers_of_grades (all_grades ++ [ng]) =
  Benchmark.attach (Benchmark.searchers_of_grades all_grades) ng.
Proof. unfold Benchmark.searchers_of_grades. rewrite fold_left_app. reflexivity. Qed.

Lemma attach_lookup_ne (m : gmap string RetrievalMetrics) (ng : string * list Grade)
  (name : string) :
  fst ng <> name -> Benchmark.attach m ng !! name = m !! name.
Proof.
  intros Hne. unfold Benchmark.attach. destruct (snd ng); [reflexivity|].
  apply lookup_insert_ne. exact Hne.
Qed.

Lemma attach_lookup_eq (m : gmap string RetrievalMetrics) (name : string) grades :
  m !! name = None ->
  Benchmark.attach m (name, grades) !! name = entry_for grades.
Proof.
  intros Hm. unfold Benchmark.attach, entry_for. simpl.
  destruct grades; [exact Hm|]. apply lookup_insert_eq.
Qed.

Lemma searchers_of_grades_absent all_grades (name : string) :
  name ∉ map fst all_grades -> Benchmark.searchers_of_grades all_grades !! name = None.
Proof.
  induction all_grades as [|ng l IH] using rev_ind; intros Hn.
  - reflexivity.
  - rewrite map_app, elem_of_app in Hn. simpl in Hn.
    rewrite searchers_of_grades_snoc, attach_lookup_ne.
    + apply IH. tauto.
    + intros <-. apply Hn. right. left.
Qed.

(** With distinct names, the mapping holds for each name the entry of its
    own grade list. *)
Lemma searchers_of_grades_lookup all_grades (i : nat) (name : string) grades :
  NoDup (map fst all_grades) ->
  all_grades !! i = Some (name, grades) ->
  Benchmark.searchers_of_grades all_grades !! name = entry_for grades.
Proof.
  revert i. induction all_grades as [|ng l IH] using rev_ind; intros i Hnd Hi.
  - discriminate.
  - rewrite map_app in Hnd. apply NoDup_app in Hnd as (Hnd & Hfresh & _).
    rewrite searchers_of_grades_snoc.
    destruct (decide (i < length l)%nat) as [Hlt|Hge].
    + rewrite lookup_app_l in Hi by exact Hlt.
      rewrite attach_lookup_ne; [apply (IH i); assumption|].
      intros Heq. apply (Hfresh name).
      * apply list_elem_of_fmap. exists (name, grades).
        split; [reflexivity|]. eapply list_elem_of_lookup_2, Hi.
      * simpl. rewrite Heq. left.
    + rewrite lookup_app_r in Hi by lia.
      destruct (i - length l)%nat; [|discriminate]. injection Hi as ->.
      apply attach_lookup_eq, searchers_of_grades_absent.
      intros Hin. apply (Hfresh name Hin). simpl. left.
Qed.

Lemma report_searchers_results (lim : option Z) (m : gmap string RetrievalMetrics) :
  Benchmark.report_searchers
    {[ "config" := ConfigEntry lim; "searchers" := SearchersEntry m ]} = m.
Proof.
  unfold Benchmark.report_searchers.
  rewrite lookup_insert_ne by discriminate. rewrite lookup_singleton_eq. reflexivity.
Qed.

End Report.

(** ** Runs *)

Section Runs.

Variable w : World.

Implicit Types (searchers : list Searcher) (config : option BenchmarkConfig)
  (schedule : nat -> list Query -> list Query).

Lemma _run_searcher_raises (s : Searcher) (queries : list Query) (cfg : BenchmarkConfig)
  (completion : list Query -> list Query) (q : Query) (e : string) :
  completion queries ≡ₚ queries ->
  q ∈ queries ->
  search s (query_text q) (num_results cfg) = Raise e ->
  exists e', Benchmark._run_searcher w s queries cfg completion = Raise e'.
Proof.
  intros Hp Hq Hs. unfold Benchmark._run_searcher.
  apply (run_processes_raises w s cfg _ [] q e); [|exact Hs].
  rewrite Hp. exact Hq.
Qed.

(** When every search of a searcher returns, its grades are those of its
    queries, one query after the other in completion order. *)
Lemma _run_searcher_returns (s : Searcher) (queries : list Query) (cfg : BenchmarkConfig)
  (completion : list Query -> list Query) :
  completion queries ≡ₚ queries ->
  (forall q, q ∈ queries ->
     exists results, search s (query_text q) (num_results cfg) = Ok results) ->
  Benchmark._run_searcher w s queries cfg completion =
  Ok (concat (map (produced w s cfg) (completion queries))).
Proof.
  intros Hp Hall. unfold Benchmark._run_searcher.
  rewrite run_processes_returns; [reflexivity|].
  intros q Hq. apply Hall. rewrite <- Hp. exact Hq.
Qed.

Lemma run_one_cases (queries : list Query) (cfg : BenchmarkConfig)
  (completion : list Query -> list Query) (s : Searcher) :
  Benchmark.run_one w queries cfg completion s =
  match Benchmark._run_searcher w s queries cfg completion with
  | Ok grades => Ok (name s, grades)
  | Raise e => Raise e
  end.
Proof.
  unfold Benchmark.run_one.
  destruct (Benchmark._run_searcher w s queries cfg completion); reflexivity.
Qed.

(** The list [all_grades] of a run whose searchers all returned. *)
Lemma all_grades_returns (queries : list Query) (cfg : BenchmarkConfig) schedule searchers
  (all_grades : list (string * list Grade)) :
  gather (imap (fun i s => Benchmark.run_one w queries cfg (schedule i) s) searchers)
    = Ok all_grades ->
  map fst all_grades = map name searchers
  /\ forall (i : nat) (s : Searcher),
       searchers !! i = Some s ->
       exists grades,
         Benchmark._run_searcher w s queries cfg (schedule i) = Ok grades
         /\ all_grades !! i = Some (name s, grades).
Proof.
  intros Hg%gather_returns.
  assert (forall (i : nat) (s : Searcher),
             searchers !! i = Some s ->
             exists grades,
               Benchmark._run_searcher w s queries cfg (schedule i) = Ok grades
               /\ all_grades !! i = Some (name s, grades)) as Hlookup.
  { intros i s Hi.
    assert (imap (fun i s => Benchmark.run_one w queries cfg (schedule i) s) searchers !! i
            = (Ok <$> all_grades) !! i) as Hi' by (rewrite Hg; reflexivity).
    rewrite list_lookup_imap, Hi, list_lookup_fmap in Hi'. simpl in Hi'.
    rewrite run_one_cases in Hi'.
    destruct (Benchmark._run_searcher w s queries cfg (schedule i)) as [grades|e];
      destruct (all_grades !! i) as [ng|]; simpl in Hi'; try discriminate.
    exists grades. split; [reflexivity|]. congruence. }
  split; [|exact Hlookup].
  apply (f_equal length) in Hg. rewrite length_imap, length_map in Hg.
  apply list_eq. intros i.
  change (map fst all_grades) with (fst <$> all_grades).
  change (map name searchers) with (name <$> searchers).
  rewrite !list_lookup_fmap.
  destruct (searchers !! i) as [s|] eqn:Hi.
  - destruct (Hlookup i s Hi) as (grades & _ & ->). reflexivity.
  - apply lookup_ge_None in Hi. rewrite (proj2 (lookup_ge_None all_grades i)) by lia.
    reflexivity.
Qed.

(** A run that returns with queries to process returns the mapping built
    from the grades of its searchers. *)
Lemma run_returns searchers schedule config (report : Report) :
  load_queries w (limit (default default_config config)) <> [] ->
  Benchmark.run w searchers schedule config = Ok report ->
  exists all_grades,
    gather (imap (fun i s =>
                    Benchmark.run_one w
                      (load_queries w (limit (default default_config config)))
                      (default default_config config) (schedule i) s) searchers)
      = Ok all_grades
    /\ Benchmark.report_searchers report = Benchmark.searchers_of_grades all_grades.
Proof.
  intros Hq. unfold Benchmark.run.
  destruct (load_queries w (limit (default default_config config))) as [|q queries];
    [contradiction|].
  destruct (gather _) as [all_grades|e]; [|discriminate]. simpl.
  intros Hr. exists all_grades. split; [reflexivity|].
  destruct (truthy _); [destruct (write_report _ _ _); [|discriminate]|];
    simpl in Hr; injection Hr as <-; apply report_searchers_results.
Qed.

Lemma gather_all_return {A} (aws : list (outcome A)) :
  Forall (fun aw => exists a, aw = Ok a) aws -> exists l, gather aws = Ok l.
Proof.
  induction 1 as [|aw aws [a ->] _ [l IH]]; [exists []; reflexivity|].
  exists (a :: l). simpl. rewrite IH. reflexivity.
Qed.

(** A run returns a report when every search returns and the report, if
    asked for, can be written. *)
Lemma run_returns_when_searches_do searchers schedule config :
  (forall i queries, schedule i queries ≡ₚ queries) ->
  (forall s q, s ∈ searchers ->
     q ∈ load_queries w (limit (default default_config config)) ->
     exists results,
       search s (query_text q) (num_results (default default_config config)) = Ok results) ->
  (forall path report, exists u, write_report w path report = Ok u) ->
  exists report, Benchmark.run w searchers schedule config = Ok report.
Proof.
  intros Hsched Hsearch Hwrite. unfold Benchmark.run.
  destruct (load_queries w (limit (default default_config config))) as [|q0 queries] eqn:Hl;
    [eexists; reflexivity|].
  destruct (gather_all_return
              (imap (fun i s =>
                       Benchmark.run_one w (q0 :: queries) (default default_config config)
                         (schedule i) s) searchers)) as [all_grades ->].
  - apply Forall_lookup. intros i aw Hi.
    rewrite list_lookup_imap in Hi.
    destruct (searchers !! i) as [s|] eqn:Hs; [|discriminate]. injection Hi as <-.
    rewrite run_one_cases, _run_searcher_returns; [eexists; reflexivity|apply Hsched|].
    intros q Hq. apply Hsearch; [eapply list_elem_of_lookup_2, Hs|exact Hq].
  - simpl. destruct (truthy (output_file (default default_config config))).
    + destruct (Hwrite (default "" (output_file (default default_config config)))
                  {[ "config" := ConfigEntry (limit (default default_config config));
                     "searchers" :=
                       SearchersEntry (Benchmark.searchers_of_grades all_grades) ]})
        as [u ->].
      eexists; reflexivity.
    + eexists; reflexivity.
Qed.

End Runs.

Section Groups.

Variable w : World.

Implicit Types (searcher : Searcher) (config : BenchmarkConfig) (q : Query)
  (queries order : list Query).

Lemma enriched_length config (results : list SearchResult) :
  length (enriched w config results) = length results.
Proof.
  unfold enriched. destruct (enrich_exa_contents config); [|reflexivity].
  rewrite enrich_results_cases.
  destruct (fetch_exa_contents w (urls_of results) None); [apply length_map|reflexivity].
Qed.

Lemma filter_all {A} (P : A -> Prop) `{!forall x, Decision (P x)} (l : list A) :
  Forall P l -> filter P l = l.
Proof.
  induction 1 as [|x l Hx _ IH]; [reflexivity|].
  rewrite filter_cons_True by exact Hx. rewrite IH. reflexivity.
Qed.

Lemma filter_none {A} (P : A -> Prop) `{!forall x, Decision (P x)} (l : list A) :
  Forall (fun x => ~ P x) l -> filter P l = [].
Proof.
  induction 1 as [|x l Hx _ IH]; [reflexivity|].
  rewrite filter_cons_False by exact Hx. exact IH.
Qed.

Lemma produced_query_id searcher config q (g : Grade) :
  g ∈ produced w searcher config q -> grade_query_id g = query_id q.
Proof.
  unfold produced. destruct (search searcher _ _); [|inversion 1].
  intros (ir & -> & _)%list_elem_of_fmap. reflexivity.
Qed.

Lemma group_produced_same searcher config q :
  Reference.group (produced w searcher config q) (query_id q) = produced w searcher config q.
Proof.
  unfold Reference.group. apply filter_all.
  apply Forall_forall. intros g. apply produced_query_id.
Qed.

Lemma group_produced_other searcher config q (qid : string) :
  query_id q <> qid -> Reference.group (produced w searcher config q) qid = [].
Proof.
  intros Hne. unfold Reference.group. apply filter_none.
  apply Forall_forall. intros g Hg. rewrite (produced_query_id _ _ _ _ Hg). exact Hne.
Qed.

Lemma group_app (l1 l2 : list Grade) (qid : string) :
  Reference.group (l1 ++ l2) qid = Reference.group l1 qid ++ Reference.group l2 qid.
Proof. apply filter_app. Qed.

Lemma group_concat_absent searcher config order (qid : string) :
  qid ∉ map query_id order ->
  Reference.group (concat (map (produced w searcher config) order)) qid = [].
Proof.
  induction order as [|q' order IH]; intros Hn; [reflexivity|].
  simpl in *. rewrite group_app.
  rewrite not_elem_of_cons in Hn. destruct Hn as [Hne Hn].
  rewrite IH by exact Hn.
  rewrite (group_produced_other searcher config q' qid) by congruence. reflexivity.
Qed.

(** With distinct query ids, the group of a query in the grades of a
    searcher is what that query produced. *)
Lemma group_concat_produced searcher config order q :
  NoDup (map query_id order) -> q ∈ order ->
  Reference.group (concat (map (produced w searcher config) order)) (query_id q)
  = produced w searcher config q.
Proof.
  induction order as [|q' order IH]; intros Hnd Hq; [inversion Hq|].
  simpl in *. apply NoDup_cons in Hnd as [Hfresh Hnd].
  rewrite group_app.
  apply elem_of_cons in Hq as [->|Hq].
  - rewrite (group_produced_same searcher config q').
    rewrite (group_concat_absent searcher config order (query_id q')) by exact Hfresh.
    apply app_nil_r.
  - rewrite (group_produced_other searcher config q' (query_id q)).
    + apply IH; assumption.
    + intros Heq. apply Hfresh. rewrite Heq.
      apply list_elem_of_fmap. exists q. split; [reflexivity|exact Hq].
Qed.

Lemma _run_searcher_inv searcher queries config (completion : list Query -> list Query)
  (all : list Grade) :
  completion queries ≡ₚ queries ->
  Benchmark._run_searcher w searcher queries config completion = Ok all ->
  all = concat (map (produced w searcher config) (completion queries)).
Proof.
  intros Hp Hrun.
  rewrite _run_searcher_returns in Hrun; [congruence|exact Hp|].
  intros q Hq.
  destruct (search searcher (query_text q) (num_results config)) as [results|e] eqn:Hs;
    [exists results; reflexivity|].
  destruct (_run_searcher_raises w searcher queries config completion q e Hp Hq Hs)
    as [e' He'].
  congruence.
Qed.

Lemma produced_ranks searcher config q (results : list SearchResult) :
  search searcher (query_text q) (num_results config) = Ok results ->
  map grade_rank (produced w searcher config q)
  = map Some (seqZ 1 (Z.of_nat (length results))).
Proof.
  intros Hs. unfold produced. rewrite Hs, _grade_ranks, enriched_length. reflexivity.
Qed.

End Groups.

(** *** Search faults *)

(** C1 as stated fails: with a searcher whose search raises, neither its
    [_run_searcher] nor the run returns; the run of [up] next to [down] ends
    in the exception, not in a report that omits [down]. *)
Lemma search_fault_aborts_example :
  Benchmark._run_searcher two_queries down [q1; q2] default_config (in_order 0)
    = Raise "HTTPStatusError"
  /\ Benchmark.run two_queries [up; down] in_order None = Raise "HTTPStatusError"
  /\ ~ (exists report, Benchmark.run two_queries [up; down] in_order None = Ok report).
Proof.
  split; [reflexivity|]. split; [reflexivity|].
  intros [report H]. vm_compute in H. discriminate H.
Qed.

(** C1, amended. When a search call of a searcher raises for one of the
    loaded queries, nothing catches the exception: the [_run_searcher] of
    that searcher raises, and [Benchmark.run] raises instead of returning a
    report, whatever the other queries and searchers do. *)
Theorem search_fault_propagates (w : World) (searchers : list Searcher)
  (schedule : nat -> list Query -> list Query) (config : option BenchmarkConfig)
  (i : nat) (s : Searcher) (q : Query) (e : string) :
  (forall queries, schedule i queries ≡ₚ queries) ->
  searchers !! i = Some s ->
  q ∈ load_queries w (limit (default default_config config)) ->
  search s (query_text q) (num_results (default default_config config)) = Raise e ->
  (exists e',
      Benchmark._run_searcher w s
        (load_queries w (limit (default default_config config)))
        (default default_config config) (schedule i) = Raise e')
  /\ (exists e', Benchmark.run w searchers schedule config = Raise e').
Proof.
  intros Hsched Hi Hq Hs.
  destruct (_run_searcher_raises w s _ _ (schedule i) q e (Hsched _) Hq Hs) as [e' He'].
  split; [exists e'; exact He'|].
  unfold Benchmark.run.
  destruct (load_queries w (limit (default default_config config))) as [|q0 queries] eqn:Hl;
    [inversion Hq|].
  destruct (gather_raises
              (imap (fun i s =>
                       Benchmark.run_one w (q0 :: queries) (default default_config config)
                         (schedule i) s) searchers) i e') as [e'' ->].
  - rewrite list_lookup_imap, Hi. simpl. rewrite run_one_cases, He'. reflexivity.
  - exists e''. reflexivity.
Qed.

Lemma search_fault_propagates_witness :
  (exists e',
      Benchmark._run_searcher two_queries down
        (load_queries two_queries (limit (default default_config None)))
        (default default_config None) (in_order 1) = Raise e')
  /\ (exists e', Benchmark.run two_queries [up; down] in_order None = Raise e').
Proof.
  apply (search_fault_propagates two_queries [up; down] in_order None 1 down q2
           "HTTPStatusError").
  - intros queries. reflexivity.
  - reflexivity.
  - right. left.
  - reflexivity.
Defined.

(** *** The report *)

(** C6. In a run that returns (with distinct searcher names), a searcher
    whose grade list is not empty is in the [searchers] mapping of the
    report under its name, with [compute_retrieval_metrics] of that list; a
    searcher whose grade list is empty is not a key of the mapping. *)
Theorem report_holds_graded_searchers (w : World) (searchers : list Searcher)
  (schedule : nat -> list Query -> list Query) (config : option BenchmarkConfig)
  (report : Report) :
  NoDup (map name searchers) ->
  (forall i queries, schedule i queries ≡ₚ queries) ->
  Benchmark.run w searchers schedule config = Ok report ->
  forall (i : nat) (s : Searcher),
    searchers !! i = Some s ->
    exists grades : list Grade,
      Benchmark._run_searcher w s
        (load_queries w (limit (default default_config config)))
        (default default_config config) (schedule i) = Ok grades
      /\ (grades <> [] ->
          Benchmark.report_searchers report !! name s
            = Some (compute_retrieval_metrics grades))
      /\ (grades = [] -> Benchmark.report_searchers report !! name s = None).
Proof.
  intros Hnd Hsched Hrun i s Hi.
  destruct (load_queries w (limit (default default_config config))) as [|q0 queries] eqn:Hl.
  - exists []. unfold Benchmark._run_searcher.
    rewrite (proj1 (Permutation_nil_r _) (Hsched i [])). split; [reflexivity|].
    unfold Benchmark.run in Hrun. rewrite Hl in Hrun. injection Hrun as <-.
    split; [congruence|]. intros _. reflexivity.
  - destruct (run_returns w searchers schedule config report) as (all_grades & Hg & ->);
      [rewrite Hl; discriminate|exact Hrun|].
    rewrite Hl in Hg.
    destruct (all_grades_returns w _ _ _ _ _ Hg) as [Hnames Hlookup].
    destruct (Hlookup i s Hi) as (grades & Hgrades & Hai).
    exists grades. split; [exact Hgrades|].
    rewrite (searchers_of_grades_lookup all_grades i (name s) grades);
      [|rewrite Hnames; exact Hnd|exact Hai].
    split; [|intros ->; reflexivity].
    destruct grades; [congruence|reflexivity].
Qed.

Lemma report_holds_graded_searchers_witness :
  exists grades : list Grade,
    Benchmark._run_searcher two_queries silent
      (load_queries two_queries (limit (default default_config None)))
      (default default_config None) (in_order 1) = Ok grades
    /\ (grades <> [] ->
        Benchmark.report_searchers up_and_silent_report !! name silent
          = Some (compute_retrieval_metrics grades))
    /\ (grades = [] ->
        Benchmark.report_searchers up_and_silent_report !! name silent = None).
Proof.
  apply (report_holds_graded_searchers two_queries [up; silent] in_order None
           up_and_silent_report).
  - apply (NoDup_cons_2 "up" ["silent"]).
    + intros H. apply list_elem_of_singleton in H. discriminate H.
    + apply NoDup_singleton.
  - intros i queries. reflexivity.
  - vm_compute. reflexivity.
  - reflexivity.
Defined.

(** Searcher names are the keys of the mapping: of two searchers with one
    name, the later one with grades is the one reported. *)
Remark same_name_overwrites :
  Benchmark.searchers_of_grades [("up", scenario_1); ("up", scenario_2)]
  = {[ "up" := compute_retrieval_metrics scenario_2 ]}.
Proof. unfold Benchmark.searchers_of_grades. simpl. apply insert_insert_eq. Qed.

(** C7, amended. When no query is loaded, [Benchmark.run] returns, whatever
    the searchers and the configuration, and what it returns is the empty
    dict: it has no key ["searchers"] (read with a default, its [searchers]
    mapping is empty) and no key ["config"].  A run with queries that
    returns has both keys.  So the empty dict, not an empty [searchers]
    mapping, is what tells the empty dataset. *)
Theorem run_without_queries (w : World) (searchers : list Searcher)
  (schedule : nat -> list Query -> list Query) (config : option BenchmarkConfig) :
  (load_queries w (limit (default default_config config)) = [] ->
   Benchmark.run w searchers schedule config = Ok ∅
   /\ (∅ : Report) !! "searchers" = None
   /\ Benchmark.report_searchers ∅ = ∅)
  /\ (forall report : Report,
        Benchmark.run w searchers schedule config = Ok report ->
        (report = ∅ <-> load_queries w (limit (default default_config config)) = [])
        /\ (load_queries w (limit (default default_config config)) <> [] ->
            report !! "config"
              = Some (ConfigEntry (limit (default default_config config)))
            /\ report !! "searchers"
               = Some (SearchersEntry (Benchmark.report_searchers report)))).
Proof.
  split.
  - intros Hl. unfold Benchmark.run. rewrite Hl. split; [reflexivity|]. split; reflexivity.
  - intros report Hrun.
    destruct (load_queries w (limit (default default_config config))) as [|q queries] eqn:Hl.
    + unfold Benchmark.run in Hrun. rewrite Hl in Hrun. injection Hrun as <-.
      split; [split; reflexivity|]. intros Hne. contradiction.
    + destruct (run_returns w searchers schedule config report) as (all_grades & Hg & Heq);
        [rewrite Hl; discriminate|exact Hrun|].
      unfold Benchmark.run in Hrun. rewrite Hl in Hrun. rewrite Hl in Hg.
      rewrite Hg in Hrun. cbn [mbind outcome_bind] in Hrun.
      assert (report =
              {[ "config" := ConfigEntry (limit (default default_config config));
                 "searchers" := SearchersEntry (Benchmark.searchers_of_grades all_grades) ]})
        as Hrep.
      { destruct (truthy _); [destruct (write_report _ _ _); [|discriminate]|];
          simpl in Hrun; injection Hrun as <-; reflexivity. }
      assert (report !! "config"
              = Some (ConfigEntry (limit (default default_config config)))) as Hc
        by (rewrite Hrep; reflexivity).
      split.
      * split; [|discriminate]. intros ->. discriminate Hc.
      * intros _. split; [exact Hc|]. rewrite Heq, Hrep. reflexivity.
Qed.

Lemma run_without_queries_witness :
  Benchmark.run no_data [up; down] in_order None = Ok ∅
  /\ (∅ : Report) !! "searchers" = None
  /\ Benchmark.report_searchers ∅ = ∅.
Proof.
  apply (proj1 (run_without_queries no_data [up; down] in_order None)). reflexivity.
Defined.

(** C7 as stated fails: an empty [searchers] mapping does not tell the empty
    dataset.  With two queries loaded and a searcher that finds nothing, the
    mapping read from the report is empty as it is without data; the reports
    differ, the first being the empty dict and the second having its two
    keys. *)
Lemma empty_searchers_with_queries :
  load_queries no_data None = []
  /\ load_queries two_queries None = [q1; q2]
  /\ Benchmark.run no_data [silent] in_order None = Ok ∅
  /\ Benchmark.run two_queries [silent] in_order None
     = Ok {[ "config" := ConfigEntry None; "searchers" := SearchersEntry ∅ ]}
  /\ Benchmark.report_searchers ∅ = ∅
  /\ Benchmark.report_searchers
       {[ "config" := ConfigEntry None; "searchers" := SearchersEntry ∅ ]} = ∅.
Proof. repeat split. Qed.

(** With queries loaded the report has its two keys, also when no searcher
    produced a grade and the [searchers] mapping is empty. *)
Remark run_of_silent_searcher :
  Benchmark.run two_queries [silent] in_order None
  = Ok {[ "config" := ConfigEntry None; "searchers" := SearchersEntry ∅ ]}.
Proof. reflexivity. Qed.

(** ** The concurrency bounds *)

Section Bounds.

Import Scheduling.

Local Open Scope nat_scope.

Variables (w : World) (config : BenchmarkConfig) (queries : list Query).

Lemma sum_list_with_insert {A} (f : A -> nat) (l : list A) (i : nat) (a b : A) :
  l !! i = Some a ->
  sum_list_with f (<[i := b]> l) + f a = sum_list_with f l + f b.
Proof.
  revert i. induction l as [|x l IH]; intros [|i] Hi; try discriminate; simpl in *.
  - injection Hi as ->. lia.
  - specialize (IH i Hi). lia.
Qed.

Lemma sum_list_with_zero {A} (f : A -> nat) (l : list A) :
  Forall (fun x => f x = 0) l -> sum_list_with f l = 0.
Proof. induction 1 as [|x l Hx _ IH]; simpl; lia. Qed.

Lemma sum_list_with_le {A} (f g : A -> nat) (l : list A) :
  (forall x, f x <= g x) -> sum_list_with f l <= sum_list_with g l.
Proof. intros Hfg. induction l as [|x l IH]; simpl; [lia|]. specialize (Hfg x). lia. Qed.

Lemma no_grading_at_start (n : nat) : sum_list_with grading_now (replicate n GWaiting) = 0.
Proof. apply sum_list_with_zero, Forall_replicate. reflexivity. Qed.

Lemma no_grading_at_end (gs : list GradeTask) :
  Forall (fun t => t = GReturned) gs -> sum_list_with grading_now gs = 0.
Proof.
  intros H. apply sum_list_with_zero. eapply Forall_impl; [exact H|].
  intros t ->. reflexivity.
Qed.

(** A permit taken from a semaphore is a coroutine inside its block. *)
Definition run_balanced (r : SearcherRun) : Prop :=
  semaphore r + sum_list_with in_block (processes r) = SEARCHER_CONCURRENCY.

Definition balanced (grading_concurrency : nat) (st : State) : Prop :=
  Forall run_balanced (runs st)
  /\ _grade_semaphore st + gradings_in_flight st = grading_concurrency.

Lemma grade_step_balance (g g' : nat) (gs gs' : list GradeTask) :
  grade_step (g, gs) (g', gs') ->
  g' + sum_list_with grading_now gs' = g + sum_list_with grading_now gs.
Proof.
  inversion 1 as [v gs0 k Hk|v gs0 k Hk]; subst.
  - pose proof (sum_list_with_insert grading_now gs k _ GGrading Hk). simpl in *. lia.
  - pose proof (sum_list_with_insert grading_now gs k _ GReturned Hk). simpl in *. lia.
Qed.

(** What replacing the coroutine at [j] does to the two counts. *)
Lemma replace_process (ps : list ProcessTask) (j : nat) (p p' : ProcessTask) :
  ps !! j = Some p ->
  sum_list_with in_block (<[j := p']> ps) + in_block p
    = sum_list_with in_block ps + in_block p'
  /\ sum_list_with grading_in (<[j := p']> ps) + grading_in p
    = sum_list_with grading_in ps + grading_in p'.
Proof. intros Hj. split; apply sum_list_with_insert, Hj. Qed.

Lemma run_step_balance (searcher : Searcher) (g g' : nat) (r r' : SearcherRun) :
  run_step w config queries searcher (g, r) (g', r') ->
  run_balanced r ->
  run_balanced r'
  /\ g' + sum_list_with grading_in (processes r')
     = g + sum_list_with grading_in (processes r).
Proof.
  unfold run_balanced.
  inversion 1 as [g0 v ps gr j Hj
                 |g0 v ps gr j q results Hj Hq Hs
                 |g0 v ps gr j q e Hj Hq Hs
                 |g0 v ps gr j results results' Hj He
                 |g0 g0' v ps gr j results gs gs' Hj Hgs
                 |g0 v ps gr j q results gs new_grades Hj Hgs Hq Hg
                 |g0 v ps gr j p Hj Hp]; subst; simpl; intros Hb.
  - destruct (replace_process ps j _ Searching Hj). simpl in *. lia.
  - destruct (replace_process ps j _
                (if enrich_exa_contents config then Enriching results
                 else Grading results (replicate (length results) GWaiting)) Hj) as [H1 H2].
    destruct (enrich_exa_contents config); simpl in *;
      rewrite ?no_grading_at_start in H2; lia.
  - destruct (replace_process ps j _ (Raised e) Hj). simpl in *. lia.
  - destruct (replace_process ps j _
                (Grading results' (replicate (length results') GWaiting)) Hj) as [H1 H2].
    simpl in *. rewrite no_grading_at_start in H2. lia.
  - destruct (replace_process ps j _ (Grading results gs') Hj).
    pose proof (grade_step_balance _ _ _ _ Hgs).
    simpl in *. lia.
  - destruct (replace_process ps j _ Finished Hj) as [H1 H2].
    simpl in *. rewrite (no_grading_at_end gs Hgs) in H2. lia.
  - destruct (replace_process ps j _ Cancelled Hj). simpl in *. lia.
Qed.

Lemma step_balanced (searchers : list Searcher) (cap : nat) (st st' : State) :
  step w config queries searchers st st' -> balanced cap st -> balanced cap st'.
Proof.
  inversion 1 as [g g' rs s searcher r r' Hsearcher Hs Hstep]; subst.
  unfold balanced, gradings_in_flight. simpl. intros [Hruns Hcap].
  destruct (run_step_balance searcher g g' r r' Hstep) as [Hr' Hg'].
  { rewrite Forall_forall in Hruns. apply Hruns. eapply list_elem_of_lookup_2, Hs. }
  split.
  - apply Forall_insert; assumption.
  - pose proof (sum_list_with_insert
                  (fun r => sum_list_with grading_in (processes r)) rs s r r' Hs).
    lia.
Qed.

Lemma initial_balanced (searchers : list Searcher) (cap : nat) :
  balanced cap (initial cap searchers queries).
Proof.
  assert (sum_list_with in_block (map (fun _ : Query => Pending) queries) = 0) as Hin.
  { apply sum_list_with_zero, Forall_forall.
    intros p (q & -> & _)%list_elem_of_fmap. reflexivity. }
  assert (sum_list_with grading_in (map (fun _ : Query => Pending) queries) = 0) as Hgr.
  { apply sum_list_with_zero, Forall_forall.
    intros p (q & -> & _)%list_elem_of_fmap. reflexivity. }
  split; simpl.
  - apply Forall_forall. intros r (s & -> & _)%list_elem_of_fmap.
    unfold run_balanced, SEARCHER_CONCURRENCY. simpl. rewrite Hin. lia.
  - unfold gradings_in_flight. simpl. rewrite sum_list_with_zero; [lia|].
    apply Forall_forall. intros r (s & -> & _)%list_elem_of_fmap. exact Hgr.
Qed.

Lemma reachable_balanced (searchers : list Searcher) (cap : nat) (st : State) :
  reachable w config queries searchers (initial cap searchers queries) st ->
  balanced cap st.
Proof.
  induction 1 as [|st st' _ IH Hstep].
  - apply initial_balanced.
  - eapply step_balanced; eassumption.
Qed.

End Bounds.

(** C9. In every state of a run, each searcher has at most 20 queries
    inside its semaphore block, hence at most 20 search calls in flight, and
    the grading calls in flight over all searchers and queries are at most the
    capacity of the grading semaphore, 50 by default; so it is with 100
    queries as with any other number. *)
Theorem concurrency_bounds (w : World) (config : BenchmarkConfig)
  (queries : list Query) (searchers : list Searcher)
  (grading_concurrency : nat) (st : Scheduling.State) :
  Scheduling.reachable w config queries searchers
    (Scheduling.initial grading_concurrency searchers queries) st ->
  (forall s : nat,
      (Scheduling.searches_in_flight st s <= Scheduling.queries_in_flight st s)%nat
      /\ (Scheduling.queries_in_flight st s <= 20)%nat)
  /\ (Scheduling.gradings_in_flight st <= grading_concurrency)%nat
  /\ (grading_concurrency = Scheduling.DEFAULT_GRADING_CONCURRENCY ->
      (Scheduling.gradings_in_flight st <= 50)%nat).
Proof.
  intros [Hruns Hcap]%reachable_balanced.
  split; [|split].
  - intros s. unfold Scheduling.searches_in_flight, Scheduling.queries_in_flight.
    destruct (Scheduling.runs st !! s) as [r|] eqn:Hs; [|lia].
    split.
    + apply sum_list_with_le. intros []; simpl; lia.
    + rewrite Forall_forall in Hruns.
      specialize (Hruns r (list_elem_of_lookup_2 _ _ _ Hs)).
      unfold run_balanced, Scheduling.SEARCHER_CONCURRENCY in Hruns. lia.
  - lia.
  - intros ->. unfold Scheduling.DEFAULT_GRADING_CONCURRENCY in Hcap. lia.
Qed.

Lemma concurrency_bounds_witness :
  (forall s : nat,
      (Scheduling.searches_in_flight hundred_queries_one_started s
       <= Scheduling.queries_in_flight hundred_queries_one_started s)%nat
      /\ (Scheduling.queries_in_flight hundred_queries_one_started s <= 20)%nat)
  /\ (Scheduling.gradings_in_flight hundred_queries_one_started <= 50)%nat
  /\ (50%nat = Scheduling.DEFAULT_GRADING_CONCURRENCY ->
      (Scheduling.gradings_in_flight hundred_queries_one_started <= 50)%nat).
Proof.
  apply (concurrency_bounds two_queries default_config hundred_queries [up] 50
           hundred_queries_one_started).
  eapply Scheduling.reachable_step; [apply Scheduling.reachable_init|].
  apply (Scheduling.searcher_steps two_queries default_config hundred_queries [up] 50 50
           [Scheduling.mkSearcherRun 20 (replicate 100 Scheduling.Pending) []] 0 up
           (Scheduling.mkSearcherRun 20 (replicate 100 Scheduling.Pending) [])
           (Scheduling.mkSearcherRun 19
              (<[0%nat := Scheduling.Searching]> (replicate 100 Scheduling.Pending)) [])).
  - reflexivity.
  - reflexivity.
  - apply (Scheduling.process_enter two_queries default_config hundred_queries up
             50 19 (replicate 100 Scheduling.Pending) [] 0).
    reflexivity.
Defined.

(** ** The shared list of grades

    The function [Benchmark._run_searcher] takes the order in which the
    coroutines complete as an argument.  Here the list [grades] of the
    scheduler above is followed step by step: when all coroutines of a
    searcher have finished, the list is what [Benchmark._run_searcher] returns
    for some completion order; when one has raised, the function raises for
    every completion order. *)

Section Adequacy.

Import Scheduling.

Local Open Scope nat_scope.

Variables (w : World) (config : BenchmarkConfig) (queries : list Query).

(** What the local [results] of a coroutine holds. *)
Definition task_ok (searcher : Searcher) (j : nat) (p : ProcessTask) : Prop :=
  match p with
  | Enriching results =>
      enrich_exa_contents config = true
      /\ exists q, queries !! j = Some q
           /\ search searcher (query_text q) (num_results config) = Ok results
  | Grading results gs =>
      exists q results0,
        queries !! j = Some q
        /\ search searcher (query_text q) (num_results config) = Ok results0
        /\ results = enriched w config results0
  | Raised e =>
      exists q, queries !! j = Some q
        /\ search searcher (query_text q) (num_results config) = Raise e
  | Pending | Searching | Finished | Cancelled => True
  end.

(** The finished coroutines, in some order without repetition, account for
    [grades]. *)
Definition accounted (searcher : Searcher) (r : SearcherRun) : Prop :=
  exists order : list nat,
    NoDup order
    /\ (forall j, j ∈ order <-> processes r !! j = Some Finished)
    /\ Benchmark.run_processes w searcher config (omap (fun j => queries !! j) order) []
       = Ok (grades r).

Definition run_ok (searcher : Searcher) (r : SearcherRun) : Prop :=
  length (processes r) = length queries
  /\ (forall j p, processes r !! j = Some p -> task_ok searcher j p)
  /\ accounted searcher r.

Lemma run_processes_app (searcher : Searcher) (l1 l2 : list Query) (gr : list Grade) :
  Benchmark.run_processes w searcher config (l1 ++ l2) gr =
  match Benchmark.run_processes w searcher config l1 gr with
  | Ok gr' => Benchmark.run_processes w searcher config l2 gr'
  | Raise e => Raise e
  end.
Proof.
  revert gr. induction l1 as [|q l1 IH]; intros gr; [reflexivity|].
  simpl. destruct (Benchmark.process w searcher config q gr); [apply IH|reflexivity].
Qed.

Lemma task_ok_insert (searcher : Searcher) (ps : list ProcessTask) (j : nat)
  (p' : ProcessTask) :
  (forall j0 p, ps !! j0 = Some p -> task_ok searcher j0 p) ->
  task_ok searcher j p' ->
  forall j0 p, <[j := p']> ps !! j0 = Some p -> task_ok searcher j0 p.
Proof.
  intros Hall Hp' j0 p [(-> & -> & _)|[_ Hj0]]%list_lookup_insert_Some;
    [exact Hp'|apply Hall, Hj0].
Qed.

(** A coroutine that moves between two states other than [Finished] leaves
    the set of finished coroutines as it is. *)
Lemma finished_insert (ps : list ProcessTask) (j j0 : nat) (p p' : ProcessTask) :
  ps !! j = Some p -> p <> Finished -> p' <> Finished ->
  <[j := p']> ps !! j0 = Some Finished <-> ps !! j0 = Some Finished.
Proof.
  intros Hj Hp Hp'. rewrite list_lookup_insert_Some. split.
  - intros [(_ & ? & _)|[_ ?]]; [congruence|assumption].
  - intros Hj0. right. split; [congruence|assumption].
Qed.

Lemma accounted_insert (searcher : Searcher) (v v' : nat) (ps : list ProcessTask)
  (gr : list Grade) (j : nat) (p p' : ProcessTask) :
  ps !! j = Some p -> p <> Finished -> p' <> Finished ->
  accounted searcher (mkSearcherRun v ps gr) ->
  accounted searcher (mkSearcherRun v' (<[j := p']> ps) gr).
Proof.
  intros Hj Hp Hp' (order & Hnd & Hin & Hrun). exists order. simpl in *.
  split; [exact Hnd|]. split; [|exact Hrun].
  intros j0. rewrite (finished_insert ps j j0 p p' Hj Hp Hp'). apply Hin.
Qed.

Lemma process_of_task (searcher : Searcher) (j : nat) (q : Query)
  (results : list SearchResult) (gs : list GradeTask) (gr new_grades : list Grade) :
  task_ok searcher j (Grading results gs) ->
  queries !! j = Some q ->
  Benchmark._grade w q results = Ok new_grades ->
  Benchmark.process w searcher config q gr = Ok (gr ++ new_grades).
Proof.
  intros (q' & results0 & Hq' & Hs & ->) Hq Hg.
  assert (q' = q) as -> by congruence.
  rewrite (process_returns w searcher config q gr results0 Hs).
  unfold produced. rewrite Hs. rewrite _grade_ok in Hg. congruence.
Qed.

Lemma run_step_ok (searcher : Searcher) (g g' : nat) (r r' : SearcherRun) :
  run_step w config queries searcher (g, r) (g', r') ->
  run_ok searcher r -> run_ok searcher r'.
Proof.
  unfold run_ok.
  inversion 1 as [g0 v ps gr j Hj
                 |g0 v ps gr j q results Hj Hq Hs
                 |g0 v ps gr j q e Hj Hq Hs
                 |g0 v ps gr j results results' Hj He
                 |g0 g0' v ps gr j results gs gs' Hj Hgs
                 |g0 v ps gr j q results gs new_grades Hj Hgs Hq Hg
                 |g0 v ps gr j p Hj Hp]; subst; simpl;
    intros (Hlen & Htasks & Hacc); (split; [rewrite length_insert; exact Hlen|]).
  - split; [apply task_ok_insert; [exact Htasks|exact I]|].
    apply (accounted_insert searcher (S v) v ps gr j _ _ Hj);
      [discriminate|discriminate|exact Hacc].
  - split.
    + apply task_ok_insert; [exact Htasks|].
      destruct (enrich_exa_contents config) eqn:Hen; simpl.
      * split; [exact Hen|]. exists q. split; assumption.
      * exists q, results. split; [assumption|]. split; [assumption|].
        unfold enriched. rewrite Hen. reflexivity.
    + apply (accounted_insert searcher v v ps gr j _ _ Hj);
        [discriminate| |exact Hacc].
      destruct (enrich_exa_contents config); discriminate.
  - split; [apply task_ok_insert; [exact Htasks|exists q; split; assumption]|].
    apply (accounted_insert searcher v (S v) ps gr j _ _ Hj);
      [discriminate|discriminate|exact Hacc].
  - split.
    + apply task_ok_insert; [exact Htasks|].
      destruct (Htasks j _ Hj) as (Hen & q & Hq & Hs). simpl.
      exists q, results. split; [assumption|]. split; [assumption|].
      unfold enriched. rewrite Hen, He. reflexivity.
    + apply (accounted_insert searcher v v ps gr j _ _ Hj);
        [discriminate|discriminate|exact Hacc].
  - split; [apply task_ok_insert; [exact Htasks|exact (Htasks j _ Hj)]|].
    apply (accounted_insert searcher v v ps gr j _ _ Hj);
      [discriminate|discriminate|exact Hacc].
  - split; [apply task_ok_insert; [exact Htasks|exact I]|].
    destruct Hacc as (order & Hnd & Hin & Hrun). simpl in *.
    assert (j ∉ order) as Hfresh by (rewrite Hin, Hj; discriminate).
    exists (order ++ [j]). simpl. split; [|split].
    + apply NoDup_app. split; [exact Hnd|]. split; [|apply NoDup_singleton].
      intros j0 Hj0 ->%list_elem_of_singleton. exact (Hfresh Hj0).
    + intros j0. rewrite elem_of_app, list_elem_of_singleton, Hin.
      rewrite list_lookup_insert_Some. split.
      * intros [Hj0| ->].
        -- right. split; [|exact Hj0]. intros <-. congruence.
        -- left. split; [reflexivity|]. split; [reflexivity|].
           apply lookup_lt_is_Some. eauto.
      * intros [(-> & _ & _)|[_ Hj0]]; [right; reflexivity|left; exact Hj0].
    + rewrite omap_app, run_processes_app, Hrun. simpl. rewrite Hq. simpl.
      rewrite (process_of_task searcher j q results gs gr new_grades
                 (Htasks j _ Hj) Hq Hg).
      reflexivity.
  - split; [apply task_ok_insert; [exact Htasks|exact I]|].
    apply (accounted_insert searcher v (v + in_block p) ps gr j _ _ Hj);
      [|discriminate|exact Hacc].
    destruct Hp as [->|Hp]; [discriminate|]. intros ->. discriminate Hp.
Qed.

(** Every run of a reachable state is accounted for. *)
Definition state_ok (searchers : list Searcher) (st : State) : Prop :=
  forall s searcher r,
    searchers !! s = Some searcher -> runs st !! s = Some r -> run_ok searcher r.

Lemma step_ok (searchers : list Searcher) (st st' : State) :
  step w config queries searchers st st' ->
  state_ok searchers st -> state_ok searchers st'.
Proof.
  inversion 1 as [g g' rs s searcher r r' Hsearcher Hs Hstep]; subst.
  unfold state_ok. simpl. intros Hok s0 searcher0 r0 Hs0 Hr0.
  apply list_lookup_insert_Some in Hr0 as [(-> & -> & _)|[_ Hr0]].
  - assert (searcher0 = searcher) as -> by congruence.
    eapply run_step_ok; [exact Hstep|]. eapply Hok; eassumption.
  - eapply Hok; eassumption.
Qed.

Lemma initial_ok (searchers : list Searcher) (cap : nat) :
  state_ok searchers (initial cap searchers queries).
Proof.
  intros s searcher r _ Hr. simpl in Hr.
  change (map ?f searchers) with (f <$> searchers) in Hr.
  rewrite list_lookup_fmap in Hr.
  destruct (searchers !! s); [|discriminate]. injection Hr as <-.
  split; [apply length_map|]. simpl. split.
  - intros j p Hj.
    change (map ?f queries) with (f <$> queries) in Hj.
    rewrite list_lookup_fmap in Hj. destruct (queries !! j); [|discriminate].
    injection Hj as <-. exact I.
  - exists []. split; [constructor|]. split; [|reflexivity].
    intros j. split; [inversion 1|]. simpl.
    change (map ?f queries) with (f <$> queries).
    rewrite list_lookup_fmap. destruct (queries !! j); discriminate.
Qed.

Lemma reachable_ok (searchers : list Searcher) (cap : nat) (st : State) :
  reachable w config queries searchers (initial cap searchers queries) st ->
  state_ok searchers st.
Proof.
  induction 1 as [|st st' _ IH Hstep].
  - apply initial_ok.
  - eapply step_ok; eassumption.
Qed.

Lemma omap_lookup_seq {A} (l : list A) :
  omap (fun j => l !! j) (seq 0 (length l)) = l.
Proof.
  induction l as [|x l IH]; [reflexivity|].
  simpl. rewrite <- fmap_S_seq. f_equal.
  rewrite <- IH at 2. clear IH. generalize (seq 0 (length l)). intros js.
  induction js as [|j js IH]; [reflexivity|].
  rewrite fmap_cons. cbn [omap list_omap]. rewrite IH. reflexivity.
Qed.

(** When every coroutine of a searcher has finished, its list [grades] is
    the value of [Benchmark._run_searcher] for the order in which they
    finished. *)
Theorem finished_run_adequate (searchers : list Searcher) (cap : nat) (st : State)
  (s : nat) (searcher : Searcher) (r : SearcherRun) :
  reachable w config queries searchers (initial cap searchers queries) st ->
  searchers !! s = Some searcher ->
  runs st !! s = Some r ->
  Forall (fun p => p = Finished) (processes r) ->
  exists completion : list Query -> list Query,
    completion queries ≡ₚ queries
    /\ Benchmark._run_searcher w searcher queries config completion = Ok (grades r).
Proof.
  intros Hreach Hs Hr Hall.
  destruct (reachable_ok searchers cap st Hreach s searcher r Hs Hr)
    as (Hlen & _ & order & Hnd & Hin & Hrun).
  exists (fun _ => omap (fun j => queries !! j) order). split; [|exact Hrun].
  assert (order ≡ₚ seq 0 (length queries)) as Hperm; cycle 1.
  { rewrite Hperm, omap_lookup_seq. reflexivity. }
  apply NoDup_Permutation; [exact Hnd|apply NoDup_seq|].
  intros j. rewrite Hin, elem_of_seq, <- Hlen. split.
  - intros Hj. split; [lia|]. apply lookup_lt_is_Some. eauto.
  - intros [_ Hj]. apply lookup_lt_is_Some in Hj as [p Hp].
    rewrite (Forall_lookup_1 _ _ _ _ Hall Hp) in Hp. exact Hp.
Qed.

(** When a coroutine of a searcher has raised, [Benchmark._run_searcher]
    raises whatever the completion order. *)
Theorem raised_run_adequate (searchers : list Searcher) (cap : nat) (st : State)
  (s : nat) (searcher : Searcher) (r : SearcherRun) (j : nat) (e : string) :
  reachable w config queries searchers (initial cap searchers queries) st ->
  searchers !! s = Some searcher ->
  runs st !! s = Some r ->
  processes r !! j = Some (Raised e) ->
  forall completion : list Query -> list Query,
    completion queries ≡ₚ queries ->
    exists e', Benchmark._run_searcher w searcher queries config completion = Raise e'.
Proof.
  intros Hreach Hs Hr Hj completion Hp.
  destruct (reachable_ok searchers cap st Hreach s searcher r Hs Hr) as (_ & Htasks & _).
  destruct (Htasks j _ Hj) as (q & Hq & Hraise).
  apply (_run_searcher_raises w searcher queries config completion q e Hp); [|exact Hraise].
  eapply list_elem_of_lookup_2, Hq.
Qed.

End Adequacy.

(** *** A run followed to its end

    One searcher, one query, no enrichment: the coroutine enters the block,
    the search returns one profile, its grading enters and leaves the grading
    block, and the coroutine extends [grades] and leaves. *)

Section OneQuery.

Import Scheduling.

Definition ada_grade : Grade := mkGrade "q1" (Some 1%Z) (Some 1%float).

Definition one_query_states : list State :=
  [mkState 50 [mkSearcherRun 20 [Pending] []];
   mkState 50 [mkSearcherRun 19 [Searching] []];
   mkState 50 [mkSearcherRun 19 [Grading [profile "ada"] [GWaiting]] []];
   mkState 49 [mkSearcherRun 19 [Grading [profile "ada"] [GGrading]] []];
   mkState 50 [mkSearcherRun 19 [Grading [profile "ada"] [GReturned]] []];
   mkState 50 [mkSearcherRun 20 [Finished] [ada_grade]]].

Definition one_query_done : State := mkState 50 [mkSearcherRun 20 [Finished] [ada_grade]].

Lemma one_query_steps (i : nat) (st st' : State) :
  one_query_states !! i = Some st ->
  one_query_states !! S i = Some st' ->
  step two_queries default_config [q1] [up] st st'.
Proof.
  intros Hst Hst'.
  destruct i as [|[|[|[|[|i]]]]]; simpl in Hst, Hst';
    try discriminate; injection Hst as <-; injection Hst' as <-.
  - apply (searcher_steps _ _ _ [up] 50 50 [mkSearcherRun 20 [Pending] []] 0 up
             (mkSearcherRun 20 [Pending] []) (mkSearcherRun 19 [Searching] []));
      [reflexivity|reflexivity|].
    apply (process_enter _ _ _ _ 50 19 [Pending] [] 0). reflexivity.
  - apply (searcher_steps _ _ _ [up] 50 50 [mkSearcherRun 19 [Searching] []] 0 up
             (mkSearcherRun 19 [Searching] [])
             (mkSearcherRun 19 [Grading [profile "ada"] [GWaiting]] []));
      [reflexivity|reflexivity|].
    apply (search_returns two_queries default_config [q1] up 50 19 [Searching] [] 0 q1
             [profile "ada"]); reflexivity.
  - apply (searcher_steps _ _ _ [up] 50 49
             [mkSearcherRun 19 [Grading [profile "ada"] [GWaiting]] []] 0 up
             (mkSearcherRun 19 [Grading [profile "ada"] [GWaiting]] [])
             (mkSearcherRun 19 [Grading [profile "ada"] [GGrading]] []));
      [reflexivity|reflexivity|].
    apply (grading_steps _ _ _ _ 50 49 19 [Grading [profile "ada"] [GWaiting]] [] 0
             [profile "ada"] [GWaiting] [GGrading]); [reflexivity|].
    apply (grade_enter 49 [GWaiting] 0). reflexivity.
  - apply (searcher_steps _ _ _ [up] 49 50
             [mkSearcherRun 19 [Grading [profile "ada"] [GGrading]] []] 0 up
             (mkSearcherRun 19 [Grading [profile "ada"] [GGrading]] [])
             (mkSearcherRun 19 [Grading [profile "ada"] [GReturned]] []));
      [reflexivity|reflexivity|].
    apply (grading_steps _ _ _ _ 49 50 19 [Grading [profile "ada"] [GGrading]] [] 0
             [profile "ada"] [GGrading] [GReturned]); [reflexivity|].
    apply (grade_leave 49 [GGrading] 0). reflexivity.
  - apply (searcher_steps _ _ _ [up] 50 50
             [mkSearcherRun 19 [Grading [profile "ada"] [GReturned]] []] 0 up
             (mkSearcherRun 19 [Grading [profile "ada"] [GReturned]] [])
             (mkSearcherRun 20 [Finished] [ada_grade]));
      [reflexivity|reflexivity|].
    apply (process_leaves two_queries default_config [q1] up 50 19
             [Grading [profile "ada"] [GReturned]] [] 0 q1 [profile "ada"] [GReturned]
             [ada_grade]); [reflexivity|repeat constructor|reflexivity|reflexivity].
Qed.

Lemma one_query_done_reachable :
  reachable two_queries default_config [q1] [up] (initial 50 [up] [q1]) one_query_done.
Proof.
  assert (forall i st, one_query_states !! i = Some st ->
            reachable two_queries default_config [q1] [up] (initial 50 [up] [q1]) st) as H.
  { induction i as [|i IH]; intros st Hst.
    - injection Hst as <-. apply reachable_init.
    - destruct (one_query_states !! i) as [st0|] eqn:Hst0.
      + eapply reachable_step; [apply IH; reflexivity|].
        eapply one_query_steps; eassumption.
      + apply lookup_ge_None in Hst0.
        assert (is_Some (one_query_states !! S i)) as Hs by eauto.
        apply lookup_lt_is_Some in Hs. lia. }
  apply (H 5%nat). reflexivity.
Qed.

(** The grades of the finished run are those of the function. *)
Lemma one_query_done_grades :
  Benchmark._run_searcher two_queries up [q1] default_config (in_order 0) = Ok [ada_grade].
Proof. reflexivity. Qed.

End OneQuery.

(** *** Ranks *)

(** C8. The grades of a query carry the ranks 1, 2, ..., n in the order of
    the result list: the grade at position [i] has rank [i + 1], the id of
    the query and the judgment of the result at position [i], so the ranks
    are distinct and at least 1.  In the grades of a searcher over queries
    of distinct ids, the group of a query therefore has the ranks 1, ..., n
    of the n results its search returned, in that order (the group being
    the entry of the query's id in the dict [by_query] of
    [compute_retrieval_metrics]). *)
Theorem ranks_follow_result_order (w : World) (query : Query)
  (results : list SearchResult) :
  (exists grades : list Grade,
      Benchmark._grade w query results = Ok grades
      /\ map grade_rank grades = map Some (seqZ 1 (Z.of_nat (length results)))
      /\ (forall (i : nat) (r : SearchResult),
            results !! i = Some r ->
            exists (g : Grade) (judged : GradeResult),
              grades !! i = Some g
              /\ grade_rank g = Some (Z.of_nat i + 1)
              /\ grade_query_id g = query_id query
              /\ PeopleGrader.grade (grader_client w) (query_text query) r = Ok judged
              /\ grade_is_match g = Some (default 0%float (scores judged !! "is_match")))
      /\ NoDup (map grade_rank grades)
      /\ Forall (fun g => exists k, grade_rank g = Some k /\ (1 <= k)%Z) grades)
  /\ (forall (searcher : Searcher) (queries : list Query) (config : BenchmarkConfig)
        (completion : list Query -> list Query) (all : list Grade),
        completion queries ≡ₚ queries ->
        NoDup (map query_id queries) ->
        query ∈ queries ->
        search searcher (query_text query) (num_results config) = Ok results ->
        Benchmark._run_searcher w searcher queries config completion = Ok all ->
        forall group : list Grade,
          (query_id query, group) ∈ group_by_query all ->
          map grade_rank group = map Some (seqZ 1 (Z.of_nat (length results)))).
Proof.
  split; [apply _grade_positions|].
  intros searcher queries config completion all Hp Hnd Hq Hs Hrun group Hgroup.
  rewrite (group_by_query_elem all (query_id query) group Hgroup).
  rewrite (_run_searcher_inv w searcher queries config completion all Hp Hrun).
  rewrite group_concat_produced.
  - apply produced_ranks, Hs.
  - rewrite Hp. exact Hnd.
  - rewrite Hp. exact Hq.
Qed.

Lemma ranks_follow_result_order_witness :
  map grade_rank [mkGrade "q2" (Some 1%Z) (Some 1%float)]
  = map Some (seqZ 1 (Z.of_nat (length [profile "ada"]))).
Proof.
  apply (proj2 (ranks_follow_result_order two_queries q2 [profile "ada"])
           up [q1; q2] default_config (in_order 0)
           [mkGrade "q1" (Some 1%Z) (Some 1%float); mkGrade "q2" (Some 1%Z) (Some 1%float)]).
  - reflexivity.
  - apply (NoDup_cons_2 "q1" ["q2"]).
    + intros H. apply list_elem_of_singleton in H. discriminate H.
    + apply NoDup_singleton.
  - right. left.
  - reflexivity.
  - vm_compute. reflexivity.
  - right. left.
Defined.

(** * Further properties of the code *)

(** ** Loading the queries *)

Lemma length_slice_to {A} (l : list A) (n : Z) :
  Z.of_nat (length (slice_to l n)) =
  if (n <? 0)%Z then Z.max 0 (Z.of_nat (length l) + n) else Z.min n (Z.of_nat (length l)).
Proof.
  unfold slice_to. destruct (Z.ltb_spec n 0); rewrite length_take; lia.
Qed.

Lemma slice_to_prefix {A} (l : list A) (n : Z) : exists rest, l = slice_to l n ++ rest.
Proof.
  unfold slice_to. destruct (n <? 0)%Z; eexists; symmetry; apply take_drop.
Qed.

Lemma load_queries_prefix_length (w : World) (lim : option Z) (n : Z) :
  lim = Some n -> (0 < n)%Z -> (Z.of_nat (length (load_queries w lim)) <= n)%Z.
Proof.
  intros -> Hn. unfold load_queries. destruct (data_file w) as [queries|]; [|simpl; lia].
  destruct (Z.eqb_spec n 0); [lia|].
  pose proof (length_slice_to queries n) as H.
  destruct (Z.ltb_spec n 0); lia.
Qed.

(** [load_queries] returns nothing without a data file; with one it returns
    a prefix of its queries: all of them without a limit or with limit 0,
    the first [n] for a positive limit [n], and all but the last [-n] for a
    negative one. *)
Theorem load_queries_limit (w : World) (lim : option Z) :
  (data_file w = None -> load_queries w lim = [])
  /\ (forall queries : list Query,
        data_file w = Some queries ->
        (exists rest, queries = load_queries w lim ++ rest)
        /\ Z.of_nat (length (load_queries w lim)) =
           match lim with
           | None => Z.of_nat (length queries)
           | Some n =>
               if (n =? 0)%Z then Z.of_nat (length queries)
               else if (n <? 0)%Z then Z.max 0 (Z.of_nat (length queries) + n)
               else Z.min n (Z.of_nat (length queries))
           end).
Proof.
  unfold load_queries. split; [intros ->; reflexivity|].
  intros queries ->. destruct lim as [n|].
  - destruct (n =? 0)%Z.
    + split; [exists []; symmetry; apply app_nil_r|reflexivity].
    + split; [apply slice_to_prefix|apply length_slice_to].
  - split; [exists []; symmetry; apply app_nil_r|reflexivity].
Qed.

Lemma load_queries_limit_witness :
  (exists rest, [q1; q2] = load_queries two_queries (Some (-1)%Z) ++ rest)
  /\ Z.of_nat (length (load_queries two_queries (Some (-1)%Z))) =
     Z.max 0 (Z.of_nat (length [q1; q2]) + -1).
Proof.
  apply (proj2 (load_queries_limit two_queries (Some (-1)%Z)) [q1; q2]). reflexivity.
Defined.

(** ** Fetched contents *)

Section Contents.

Implicit Types (items : list ContentsItem) (u t : string).

Lemma truthy_Some (s : option string) :
  truthy s = true <-> exists x, s = Some x /\ x <> "".
Proof.
  destruct s as [x|]; simpl.
  - destruct (String.eqb_spec x ""); simpl; split.
    + discriminate.
    + intros (y & [= <-] & Hy). contradiction.
    + intros _. exists x. split; [reflexivity|assumption].
    + reflexivity.
  - split; [discriminate|]. intros (x & Hx & _). discriminate.
Qed.

Lemma contents_dict_snoc items (r : ContentsItem) :
  contents_dict (items ++ [r]) =
  if truthy (item_url r) && truthy (item_text r)
  then <[ default "" (item_url r) := default "" (item_text r) ]> (contents_dict items)
  else contents_dict items.
Proof. unfold contents_dict. rewrite fold_left_app. reflexivity. Qed.

(** An entry of the dict comes from an item with that url and that text,
    neither of them empty. *)
Lemma contents_dict_sound items u t :
  contents_dict items !! u = Some t ->
  u <> "" /\ t <> ""
  /\ exists r, r ∈ items /\ item_url r = Some u /\ item_text r = Some t.
Proof.
  induction items as [|r items IH] using rev_ind; [discriminate|].
  rewrite contents_dict_snoc.
  destruct (truthy (item_url r)) eqn:Hu; simpl;
    [destruct (truthy (item_text r)) eqn:Ht; simpl|].
  - apply truthy_Some in Hu as (u0 & Hu0 & Hne0).
    apply truthy_Some in Ht as (t0 & Ht0 & Hnt0).
    rewrite Hu0, Ht0. simpl. intros [[<- <-]|[_ Hl]]%lookup_insert_Some.
    + split; [assumption|]. split; [assumption|].
      exists r. rewrite elem_of_app, list_elem_of_singleton. auto.
    + destruct (IH Hl) as (? & ? & r' & Hr' & ? & ?). split; [assumption|].
      split; [assumption|]. exists r'. rewrite elem_of_app. auto.
  - intros Hl. destruct (IH Hl) as (? & ? & r' & Hr' & ? & ?). split; [assumption|].
    split; [assumption|]. exists r'. rewrite elem_of_app. auto.
  - intros Hl. destruct (IH Hl) as (? & ? & r' & Hr' & ? & ?). split; [assumption|].
    split; [assumption|]. exists r'. rewrite elem_of_app. auto.
Qed.

(** A url carried by an item with a text, neither empty, is a key. *)
Lemma contents_dict_complete items (r : ContentsItem) u t :
  r ∈ items -> item_url r = Some u -> item_text r = Some t -> u <> "" -> t <> "" ->
  is_Some (contents_dict items !! u).
Proof.
  intros Hr Hu Ht Hne Hnt.
  induction items as [|r' items IH] using rev_ind; [inversion Hr|].
  rewrite contents_dict_snoc.
  apply elem_of_app in Hr as [Hr|Hr].
  - destruct (truthy (item_url r') && truthy (item_text r')); [|apply IH, Hr].
    destruct (decide (default "" (item_url r') = u)) as [<-|Hd].
    + rewrite lookup_insert_eq. eauto.
    + rewrite lookup_insert_ne by exact Hd. apply IH, Hr.
  - apply list_elem_of_singleton in Hr. subst r'.
    rewrite (proj2 (truthy_Some (item_url r))), (proj2 (truthy_Some (item_text r))); eauto.
    rewrite Hu. simpl. rewrite lookup_insert_eq. eauto.
Qed.

(** The last item of a url decides its text. *)
Lemma contents_dict_last items (r : ContentsItem) u t :
  item_url r = Some u -> item_text r = Some t -> u <> "" -> t <> "" ->
  contents_dict (items ++ [r]) !! u = Some t.
Proof.
  intros Hu Ht Hne Hnt. rewrite contents_dict_snoc.
  rewrite (proj2 (truthy_Some (item_url r))), (proj2 (truthy_Some (item_text r))); eauto.
  rewrite Hu, Ht. apply lookup_insert_eq.
Qed.

End Contents.

Section Fetch.

Variable w : World.

Lemma fetch_exa_contents_cases (urls : list string) (api_key : option string) :
  fetch_exa_contents w urls api_key =
  if negb (truthy (or_else api_key (EXA_API_KEY w)))
     || match urls with [] => true | _ => false end
  then Ok ∅
  else match exa_contents w urls with
       | Ok items => Ok (contents_dict items)
       | Raise e => Raise e
       end.
Proof.
  unfold fetch_exa_contents, or_else.
  destruct (negb _ || _); [reflexivity|].
  destruct (exa_contents w urls); reflexivity.
Qed.

Lemma replace_text_empty (results : list SearchResult) :
  map (replace_text ∅) results = results.
Proof.
  induction results as [|[u ti te m] results IH]; [reflexivity|].
  simpl. rewrite IH. unfold replace_text. simpl. rewrite lookup_empty. reflexivity.
Qed.

End Fetch.

(** The mapping returned by [fetch_exa_contents] has no empty url as a key
    and no empty text as a value, and each of its entries is the url and the
    text of an item the endpoint answered; without an API key (argument or
    environment) or without urls it is empty. *)
Theorem fetch_exa_contents_entries (w : World) (urls : list string)
  (api_key : option string) (contents : gmap string string) :
  fetch_exa_contents w urls api_key = Ok contents ->
  (forall u t,
      contents !! u = Some t ->
      u <> "" /\ t <> ""
      /\ exists items r,
           exa_contents w urls = Ok items
           /\ r ∈ items /\ item_url r = Some u /\ item_text r = Some t)
  /\ (truthy (or_else api_key (EXA_API_KEY w)) = false \/ urls = [] -> contents = ∅).
Proof.
  rewrite fetch_exa_contents_cases.
  destruct (truthy (or_else api_key (EXA_API_KEY w))) eqn:Hk; simpl.
  - destruct urls as [|u0 urls].
    + intros [= <-]. split; [intros u t; rewrite lookup_empty; discriminate|reflexivity].
    + destruct (exa_contents w (u0 :: urls)) as [items|e]; [|discriminate].
      intros [= <-]. split; [|intros [?|?]; discriminate].
      intros u t Hl. destruct (contents_dict_sound items u t Hl) as (? & ? & r & ? & ? & ?).
      split; [assumption|]. split; [assumption|]. exists items, r. auto.
  - intros [= <-]. split; [intros u t; rewrite lookup_empty; discriminate|reflexivity].
Qed.

(** Three items: a text for ada, an empty text for bo, a later text for ada. *)
Definition three_items : list ContentsItem :=
  [mkContentsItem (Some "https://linkedin.com/in/ada") (Some "first");
   mkContentsItem (Some "https://linkedin.com/in/bo") (Some "");
   mkContentsItem (Some "https://linkedin.com/in/ada") (Some "second")].

(** Two queries, an Exa key and a contents endpoint that answers
    [three_items]. *)
Definition exa_up : World :=
  {| data_file := Some [q1; q2];
     EXA_API_KEY := Some "key";
     exa_contents := fun _ => Ok three_items;
     grader_client := fun _ => Ok (Some 1%float);
     write_report := fun _ _ => Ok tt |}.

Lemma fetch_exa_contents_entries_witness :
  (forall u t,
      ({[ "https://linkedin.com/in/ada" := "second" ]} : gmap string string) !! u = Some t ->
      u <> "" /\ t <> ""
      /\ exists items r,
           exa_contents exa_up ["https://linkedin.com/in/ada"] = Ok items
           /\ r ∈ items /\ item_url r = Some u /\ item_text r = Some t)
  /\ (truthy (or_else None (EXA_API_KEY exa_up)) = false
      \/ ["https://linkedin.com/in/ada"] = [] ->
      ({[ "https://linkedin.com/in/ada" := "second" ]} : gmap string string) = ∅).
Proof.
  apply (fetch_exa_contents_entries exa_up ["https://linkedin.com/in/ada"] None).
  vm_compute. reflexivity.
Defined.

(** Without an Exa key in the environment, or when no result has a url,
    [enrich_results] returns the results as they are. *)
Theorem enrich_results_without_key (w : World) (results : list SearchResult) :
  truthy (EXA_API_KEY w) = false \/ urls_of results = [] ->
  enrich_results w results = Ok results.
Proof.
  intros H. rewrite enrich_results_cases, fetch_exa_contents_cases.
  assert (negb (truthy (or_else None (EXA_API_KEY w)))
          || match urls_of results with [] => true | _ => false end = true) as ->.
  { destruct H as [H|H].
    - unfold or_else. simpl. rewrite H. reflexivity.
    - rewrite H. apply orb_true_r. }
  rewrite replace_text_empty. reflexivity.
Qed.

Lemma enrich_results_without_key_witness :
  enrich_results two_queries three_results = Ok three_results.
Proof.
  apply (enrich_results_without_key two_queries three_results). left. reflexivity.
Defined.

(** Enrichment never blanks a text: an enriched result has the text it had,
    or a non-empty text that the endpoint answered for its (non-empty)
    url. *)
Theorem enrich_results_text (w : World) (results enriched : list SearchResult)
  (i : nat) (r r' : SearchResult) :
  enrich_results w results = Ok enriched ->
  results !! i = Some r ->
  enriched !! i = Some r' ->
  text r' = text r
  \/ (text r' <> "" /\ url r <> ""
      /\ exists items item,
           exa_contents w (urls_of results) = Ok items
           /\ item ∈ items
           /\ item_url item = Some (url r) /\ item_text item = Some (text r')).
Proof.
  rewrite enrich_results_cases.
  destruct (fetch_exa_contents w (urls_of results) None) as [contents|e] eqn:Hf.
  - intros [= <-] Hr Hr'.
    change (map (replace_text contents) results) with (replace_text contents <$> results)
      in Hr'.
    rewrite list_lookup_fmap, Hr in Hr'. injection Hr' as <-. simpl.
    destruct (contents !! url r) as [t|] eqn:Hl; [|left; reflexivity].
    right. simpl.
    rewrite fetch_exa_contents_cases in Hf.
    destruct (negb _ || _); [injection Hf as <-; rewrite lookup_empty in Hl; discriminate|].
    destruct (exa_contents w (urls_of results)) as [items|e]; [|discriminate].
    injection Hf as <-.
    destruct (contents_dict_sound items (url r) t Hl) as (? & ? & item & ? & ? & ?).
    split; [assumption|]. split; [assumption|]. exists items, item. auto.
  - intros [= <-] Hr Hr'. left. congruence.
Qed.

Lemma enrich_results_text_witness :
  text (mkSearchResult "https://linkedin.com/in/ada" "ada" "second" []) = text (profile "ada")
  \/ (text (mkSearchResult "https://linkedin.com/in/ada" "ada" "second" []) <> ""
      /\ url (profile "ada") <> ""
      /\ exists items item,
           exa_contents exa_up (urls_of three_results) = Ok items
           /\ item ∈ items
           /\ item_url item = Some (url (profile "ada"))
           /\ item_text item
              = Some (text (mkSearchResult "https://linkedin.com/in/ada" "ada" "second" []))).
Proof.
  apply (enrich_results_text exa_up three_results
           [mkSearchResult "https://linkedin.com/in/ada" "ada" "second" [];
            profile "bo"; profile "cy"] 0 (profile "ada")).
  - vm_compute. reflexivity.
  - reflexivity.
  - reflexivity.
Defined.

(** ** The grades of a searcher *)

Section SearcherGrades.

Variable w : World.

Implicit Types (searcher : Searcher) (config : BenchmarkConfig) (q : Query)
  (queries completed : list Query) (grades : list Grade).

Lemma grade_is_match_binary (client : string -> outcome (option float))
  (query : string) (r : SearchResult) (g : GradeResult) :
  PeopleGrader.grade client query r = Ok g ->
  scores g !! "is_match" = Some 0%float \/ scores g !! "is_match" = Some 1%float.
Proof.
  unfold PeopleGrader.grade.
  destruct (client (PeopleGrader.user_message query r)) as [[score|]|e]; simpl;
    intros [= <-]; simpl; rewrite lookup_singleton_eq;
    [destruct (PrimFloat.leb 0.5 score)|..]; auto.
Qed.

Lemma is_match_of_binary q (r : SearchResult) :
  is_match_of w q r = 0%float \/ is_match_of w q r = 1%float.
Proof.
  unfold is_match_of.
  destruct (PeopleGrader.grade (grader_client w) (query_text q) r) as [g|e] eqn:Hg;
    [|left; reflexivity].
  destruct (grade_is_match_binary _ _ _ _ Hg) as [-> | ->]; auto.
Qed.

Lemma produced_well_formed searcher config q (g : Grade) :
  g ∈ produced w searcher config q -> well_formed g.
Proof.
  unfold produced.
  destruct (search searcher (query_text q) (num_results config)) as [results|e];
    [|inversion 1].
  intros (ir & -> & Hir)%list_elem_of_fmap. split.
  - exists (fst ir). split; [reflexivity|].
    assert (fst ir ∈ map fst (enumerate (enriched w config results) 1)) as Hin.
    { apply list_elem_of_fmap. exists ir. split; [reflexivity|assumption]. }
    rewrite enumerate_fst in Hin. apply elem_of_seqZ in Hin. lia.
  - simpl. destruct (is_match_of_binary q (snd ir)) as [-> | ->]; auto.
Qed.

Lemma elem_of_concat_map {A B} (f : A -> list B) (l : list A) (y : B) :
  y ∈ concat (map f l) <-> exists x, x ∈ l /\ y ∈ f x.
Proof.
  induction l as [|x l IH]; simpl.
  - split; [inversion 1|]. intros (x & Hx & _). inversion Hx.
  - rewrite elem_of_app, IH. split.
    + intros [Hy|(x' & Hx' & Hy)]; [exists x; split; [left|assumption]|].
      exists x'. split; [right; assumption|assumption].
    + intros (x' & [->|Hx']%elem_of_cons & Hy); [left; assumption|].
      right. exists x'. split; assumption.
Qed.

Lemma length_concat_map {A B} (f : A -> list B) (l : list A) :
  length (concat (map f l)) = sum_list_with (fun x => length (f x)) l.
Proof.
  induction l as [|x l IH]; [reflexivity|].
  simpl. rewrite length_app, IH. reflexivity.
Qed.

(** A sequence of coroutines that returns has had every search return and
    holds what the queries produced, in order. *)
Lemma run_processes_inv searcher config completed grades :
  Benchmark.run_processes w searcher config completed [] = Ok grades ->
  grades = concat (map (produced w searcher config) completed)
  /\ forall q, q ∈ completed ->
       exists results, search searcher (query_text q) (num_results config) = Ok results.
Proof.
  intros Hrun.
  assert (forall q, q ∈ completed ->
            exists results,
              search searcher (query_text q) (num_results config) = Ok results) as Hall.
  { intros q Hq.
    destruct (search searcher (query_text q) (num_results config)) as [results|e] eqn:Hs;
      [exists results; reflexivity|].
    destruct (run_processes_raises w searcher config completed [] q e Hq Hs) as [e' He'].
    congruence. }
  split; [|exact Hall].
  rewrite run_processes_returns in Hrun by exact Hall. simpl in Hrun. congruence.
Qed.

(** The number of results a search returned, 0 when it raised. *)
Definition results_count searcher config q : nat :=
  match search searcher (query_text q) (num_results config) with
  | Ok results => length results
  | Raise _ => O
  end.

Lemma length_produced searcher config q :
  length (produced w searcher config q) = results_count searcher config q.
Proof.
  unfold produced, results_count.
  destruct (search searcher (query_text q) (num_results config)) as [results|e];
    [|reflexivity].
  rewrite length_map.
  rewrite <- (length_map fst), enumerate_fst, length_seqZ, enriched_length. lia.
Qed.

End SearcherGrades.

(** Every grade a searcher's run returns is a grade of the data model, with
    the id of one of the queries: its rank is at least 1 and its [is_match]
    is 0.0 or 1.0. *)
Theorem _run_searcher_grades_well_formed (w : World) (searcher : Searcher)
  (queries : list Query) (config : BenchmarkConfig)
  (completion : list Query -> list Query) (grades : list Grade) :
  completion queries ≡ₚ queries ->
  Benchmark._run_searcher w searcher queries config completion = Ok grades ->
  Forall well_formed grades
  /\ Forall (fun g => grade_query_id g ∈ map query_id queries) grades.
Proof.
  intros Hp Hrun. unfold Benchmark._run_searcher in Hrun.
  destruct (run_processes_inv w searcher config _ grades Hrun) as [-> _].
  split; apply Forall_forall; intros g (q & Hq & Hg)%elem_of_concat_map.
  - eapply produced_well_formed, Hg.
  - rewrite (produced_query_id w searcher config q g Hg).
    apply list_elem_of_fmap. exists q. split; [reflexivity|]. rewrite <- Hp. exact Hq.
Qed.

Lemma _run_searcher_grades_well_formed_witness :
  Forall well_formed
    [mkGrade "q1" (Some 1%Z) (Some 1%float); mkGrade "q2" (Some 1%Z) (Some 1%float)]
  /\ Forall (fun g => grade_query_id g ∈ map query_id [q1; q2])
       [mkGrade "q1" (Some 1%Z) (Some 1%float); mkGrade "q2" (Some 1%Z) (Some 1%float)].
Proof.
  apply (_run_searcher_grades_well_formed two_queries up [q1; q2] default_config
           (in_order 0)).
  - reflexivity.
  - vm_compute. reflexivity.
Defined.

(** A searcher's run returns one grade per result its searches returned;
    it returns no grade exactly when every search returned no result. *)
Theorem _run_searcher_grade_count (w : World) (searcher : Searcher)
  (queries : list Query) (config : BenchmarkConfig)
  (completion : list Query -> list Query) (grades : list Grade) :
  completion queries ≡ₚ queries ->
  Benchmark._run_searcher w searcher queries config completion = Ok grades ->
  length grades = sum_list_with (results_count searcher config) queries
  /\ (grades = [] <->
      forall q, q ∈ queries ->
        search searcher (query_text q) (num_results config) = Ok []).
Proof.
  intros Hp Hrun. unfold Benchmark._run_searcher in Hrun.
  destruct (run_processes_inv w searcher config _ grades Hrun) as [-> Hall].
  assert (length (concat (map (produced w searcher config) (completion queries)))
          = sum_list_with (results_count searcher config) queries) as Hlen.
  { rewrite length_concat_map.
    transitivity (sum_list_with (results_count searcher config) (completion queries)).
    - clear. induction (completion queries) as [|q l IH]; [reflexivity|].
      simpl. rewrite length_produced, IH. reflexivity.
    - apply sum_list_with_Permutation_proper, Hp. }
  split; [exact Hlen|]. split.
  - intros Hnil q Hq. rewrite Hnil in Hlen. simpl in Hlen.
    pose proof (sum_list_with_in q (results_count searcher config) queries Hq) as Hle.
    destruct (Hall q) as [results Hs]; [rewrite Hp; exact Hq|].
    assert (results_count searcher config q = length results) as Hc
      by (unfold results_count; rewrite Hs; reflexivity).
    rewrite Hs. destruct results; [reflexivity|simpl in Hc; lia].
  - intros Hnone. apply length_zero_iff_nil. rewrite Hlen.
    apply sum_list_with_zero, Forall_forall. intros q Hq.
    unfold results_count. rewrite (Hnone q Hq). reflexivity.
Qed.

Lemma _run_searcher_grade_count_witness :
  length ([] : list Grade) = sum_list_with (results_count silent default_config) [q1; q2]
  /\ (([] : list Grade) = [] <->
      forall q, q ∈ [q1; q2] ->
        search silent (query_text q) (num_results default_config) = Ok []).
Proof.
  apply (_run_searcher_grade_count two_queries silent [q1; q2] default_config (in_order 0)).
  - reflexivity.
  - reflexivity.
Defined.

(** ** The number of queries of the metrics *)

Lemma num_queries_query_ids (grades : list Grade) :
  num_queries (compute_retrieval_metrics grades)
  = Z.of_nat (length (Reference.query_ids grades)).
Proof.
  unfold compute_retrieval_metrics.
  rewrite per_query_groups, length_map.
  destruct (Z.eqb_spec (Z.of_nat (length (Reference.query_ids grades))) 0) as [->|_];
    reflexivity.
Qed.

(** [num_queries] is the number of distinct [query_id] values among the
    grades, whatever else the grade dicts hold. *)
Theorem num_queries_distinct_ids (grades : list Grade) :
  num_queries (compute_retrieval_metrics grades)
  = Z.of_nat (length (remove_dups (map grade_query_id grades))).
Proof.
  rewrite num_queries_query_ids. f_equal. apply Permutation_length.
  apply NoDup_Permutation; [apply NoDup_query_ids|apply NoDup_remove_dups|].
  intros q. rewrite elem_of_query_ids, elem_of_remove_dups. reflexivity.
Qed.

(** ** What a report holds *)

Section ReportEntries.

Variable w : World.

Lemma searchers_of_grades_inv (all_grades : list (string * list Grade))
  (nm : string) (m : RetrievalMetrics) :
  Benchmark.searchers_of_grades all_grades !! nm = Some m ->
  exists (i : nat) (grades : list Grade),
    all_grades !! i = Some (nm, grades)
    /\ grades <> [] /\ m = compute_retrieval_metrics grades.
Proof.
  induction all_grades as [|[nm' grades'] l IH] using rev_ind; [discriminate|].
  rewrite searchers_of_grades_snoc. unfold Benchmark.attach. simpl.
  intros Hl.
  assert (Benchmark.searchers_of_grades l !! nm = Some m ->
          exists i grades, (l ++ [(nm', grades')]) !! i = Some (nm, grades)
            /\ grades <> [] /\ m = compute_retrieval_metrics grades) as Hold.
  { intros (i & grades & Hi & ? & ?)%IH. exists i, grades.
    split; [|auto]. apply lookup_app_l_Some, Hi. }
  destruct grades' as [|g grades']; [apply Hold, Hl|].
  apply lookup_insert_Some in Hl as [[<- <-]|[_ Hl]]; [|apply Hold, Hl].
  exists (length l), (g :: grades'). split; [|split; [discriminate|reflexivity]].
  rewrite lookup_app_r by lia. rewrite Nat.sub_diag. reflexivity.
Qed.

Lemma all_grades_lookup_inv (queries : list Query) (cfg : BenchmarkConfig)
  (schedule : nat -> list Query -> list Query) (searchers : list Searcher)
  (all_grades : list (string * list Grade)) (i : nat) (nm : string) (grades : list Grade) :
  gather (imap (fun i s => Benchmark.run_one w queries cfg (schedule i) s) searchers)
    = Ok all_grades ->
  all_grades !! i = Some (nm, grades) ->
  exists s, searchers !! i = Some s /\ name s = nm
    /\ Benchmark._run_searcher w s queries cfg (schedule i) = Ok grades.
Proof.
  intros Hg Hi.
  destruct (all_grades_returns w queries cfg schedule searchers all_grades Hg)
    as [Hnames Hlookup].
  assert (is_Some (searchers !! i)) as [s Hs].
  { apply lookup_lt_is_Some. rewrite <- (length_map name), <- Hnames, length_map.
    apply lookup_lt_is_Some. eauto. }
  destruct (Hlookup i s Hs) as (grades' & Hrun & Hi').
  exists s. split; [exact Hs|]. split; congruence.
Qed.

(** An entry of the [searchers] mapping of a report is a searcher of the run
    with its grades. *)
Lemma report_searchers_inv (searchers : list Searcher)
  (schedule : nat -> list Query -> list Query) (config : option BenchmarkConfig)
  (report : Report) (nm : string) (m : RetrievalMetrics) :
  Benchmark.run w searchers schedule config = Ok report ->
  Benchmark.report_searchers report !! nm = Some m ->
  exists (i : nat) (s : Searcher) (grades : list Grade),
    searchers !! i = Some s /\ name s = nm
    /\ Benchmark._run_searcher w s
         (load_queries w (limit (default default_config config)))
         (default default_config config) (schedule i) = Ok grades
    /\ grades <> [] /\ m = compute_retrieval_metrics grades.
Proof.
  intros Hrun Hm.
  destruct (load_queries w (limit (default default_config config))) as [|q0 queries] eqn:Hl.
  - unfold Benchmark.run in Hrun. rewrite Hl in Hrun. injection Hrun as <-.
    discriminate Hm.
  - destruct (run_returns w searchers schedule config report) as (all_grades & Hg & Heq);
      [rewrite Hl; discriminate|exact Hrun|].
    rewrite Hl in Hg. rewrite Heq in Hm.
    destruct (searchers_of_grades_inv all_grades nm m Hm) as (i & grades & Hi & Hne & ->).
    destruct (all_grades_lookup_inv _ _ _ _ _ i nm grades Hg Hi) as (s & Hs & Hn & Hr).
    exists i, s, grades. auto.
Qed.

End ReportEntries.

(** Every entry of the [searchers] mapping of a report belongs to a searcher
    of the run that produced grades, and holds the metrics of those grades;
    its [num_queries] is at least 1 and at most the number of queries loaded,
    so at most a positive [limit]. *)
Theorem report_entries (w : World) (searchers : list Searcher)
  (schedule : nat -> list Query -> list Query) (config : option BenchmarkConfig)
  (report : Report) (nm : string) (m : RetrievalMetrics) :
  (forall i queries, schedule i queries ≡ₚ queries) ->
  Benchmark.run w searchers schedule config = Ok report ->
  Benchmark.report_searchers report !! nm = Some m ->
  (exists (i : nat) (s : Searcher) (grades : list Grade),
      searchers !! i = Some s /\ name s = nm
      /\ Benchmark._run_searcher w s
           (load_queries w (limit (default default_config config)))
           (default default_config config) (schedule i) = Ok grades
      /\ grades <> [] /\ m = compute_retrieval_metrics grades)
  /\ (1 <= num_queries m
           <= Z.of_nat (length (load_queries w (limit (default default_config config)))))%Z
  /\ (forall n, limit (default default_config config) = Some n -> (0 < n)%Z ->
        (num_queries m <= n)%Z).
Proof.
  intros Hsched Hrun Hm.
  destruct (report_searchers_inv w searchers schedule config report nm m Hrun Hm)
    as (i & s & grades & Hs & Hn & Hr & Hne & ->).
  assert (1 <= num_queries (compute_retrieval_metrics grades)
            <= Z.of_nat (length (load_queries w (limit (default default_config config)))))%Z
    as Hbound.
  { rewrite num_queries_query_ids. split.
    - destruct grades as [|g grades]; [contradiction|].
      assert (grade_query_id g ∈ Reference.query_ids (g :: grades)) as Hin
        by (apply elem_of_query_ids; left).
      destruct (Reference.query_ids (g :: grades)); [inversion Hin|simpl; lia].
    - apply inj_le.
      rewrite <- (length_map query_id
                    (load_queries w (limit (default default_config config)))).
      apply submseteq_length, NoDup_submseteq; [apply NoDup_query_ids|].
      intros qid (g & -> & Hg)%elem_of_query_ids%list_elem_of_fmap.
      unfold Benchmark._run_searcher in Hr.
      destruct (run_processes_inv w s _ _ grades Hr) as [-> _].
      apply elem_of_concat_map in Hg as (q & Hq & Hg).
      rewrite (produced_query_id w s _ q g Hg).
      apply list_elem_of_fmap. exists q. split; [reflexivity|].
      rewrite <- (Hsched i). exact Hq. }
  split; [exists i, s, grades; auto|]. split; [exact Hbound|].
  intros n Hlim Hpos.
  pose proof (load_queries_prefix_length w _ n Hlim Hpos). lia.
Qed.

(** A configuration with limit 1 and the report of [up] and [silent] under
    it. *)
Definition limit_one : BenchmarkConfig := mkBenchmarkConfig (Some 1%Z) 10 None false.

Definition limit_one_report : Report :=
  {[ "config" := ConfigEntry (Some 1%Z);
     "searchers" := SearchersEntry {[ "up" := mkRetrievalMetrics 1 1 1 1 ]} ]}.

Lemma report_entries_witness :
  (1 <= num_queries (mkRetrievalMetrics 1 1 1 1)
     <= Z.of_nat (length (load_queries two_queries
                            (limit (default default_config (Some limit_one))))))%Z.
Proof.
  apply (report_entries two_queries [up; silent] in_order (Some limit_one)
           limit_one_report "up" (mkRetrievalMetrics 1 1 1 1)).
  - intros i queries. reflexivity.
  - vm_compute. reflexivity.
  - vm_compute. reflexivity.
Defined.

(** ** The output file *)

(** The world with another [write_report]. *)
Definition with_write (w : World) (write : string -> Report -> outcome unit) : World :=
  {| data_file := data_file w;
     EXA_API_KEY := EXA_API_KEY w;
     exa_contents := exa_contents w;
     grader_client := grader_client w;
     write_report := write |}.

Section Output.

Variables (w : World) (write : string -> Report -> outcome unit).

Lemma run_processes_with_write (searcher : Searcher) (config : BenchmarkConfig)
  (completed : list Query) (grades : list Grade) :
  Benchmark.run_processes (with_write w write) searcher config completed grades
  = Benchmark.run_processes w searcher config completed grades.
Proof.
  revert grades. induction completed as [|q completed IH]; intros grades; [reflexivity|].
  simpl. change (Benchmark.process (with_write w write) searcher config q grades)
    with (Benchmark.process w searcher config q grades).
  destruct (Benchmark.process w searcher config q grades); [apply IH|reflexivity].
Qed.

Lemma all_grades_with_write (queries : list Query) (config : BenchmarkConfig)
  (schedule : nat -> list Query -> list Query) (searchers : list Searcher) :
  imap (fun i s => Benchmark.run_one (with_write w write) queries config (schedule i) s)
    searchers
  = imap (fun i s => Benchmark.run_one w queries config (schedule i) s) searchers.
Proof.
  apply imap_ext. intros i s _. unfold Benchmark.run_one, Benchmark._run_searcher.
  rewrite run_processes_with_write. reflexivity.
Qed.

End Output.

(** The output file: without a configured path the run does not depend on
    what writing would do; a run that returns with a path configured and
    queries loaded has written the report it returns; and when the write
    raises, such a run raises, its grades lost.  Nothing is written when no
    query is loaded. *)
Theorem run_output_file (w : World) (searchers : list Searcher)
  (schedule : nat -> list Query -> list Query) (config : option BenchmarkConfig) :
  (truthy (output_file (default default_config config)) = false ->
   forall write,
     Benchmark.run (with_write w write) searchers schedule config
     = Benchmark.run w searchers schedule config)
  /\ (truthy (output_file (default default_config config)) = true ->
      load_queries w (limit (default default_config config)) <> [] ->
      (forall report,
          Benchmark.run w searchers schedule config = Ok report ->
          write_report w (default "" (output_file (default default_config config))) report
          = Ok tt)
      /\ ((forall report, exists e,
              write_report w
                (default "" (output_file (default default_config config))) report = Raise e) ->
          exists e, Benchmark.run w searchers schedule config = Raise e))
  /\ (load_queries w (limit (default default_config config)) = [] ->
      forall write,
        Benchmark.run (with_write w write) searchers schedule config = Ok ∅).
Proof.
  split; [|split].
  - intros Hout write. unfold Benchmark.run.
    change (load_queries (with_write w write)) with (load_queries w).
    destruct (load_queries w (limit (default default_config config))) as [|q0 queries];
      [reflexivity|].
    rewrite all_grades_with_write. destruct (gather _); [|reflexivity].
    simpl. rewrite Hout. reflexivity.
  - intros Hout Hq. unfold Benchmark.run.
    destruct (load_queries w (limit (default default_config config))) as [|q0 queries];
      [contradiction|].
    destruct (gather _) as [all_grades|e]; simpl.
    + rewrite Hout. split.
      * intros report.
        destruct (write_report w _ _) as [[]|e] eqn:Hw; simpl; [|discriminate].
        intros [= <-]. exact Hw.
      * intros Hfail.
        destruct (Hfail {[ "config" := ConfigEntry (limit (default default_config config));
                           "searchers" :=
                             SearchersEntry (Benchmark.searchers_of_grades all_grades) ]})
          as [e ->].
        exists e. reflexivity.
    + split; [discriminate|]. intros _. exists e. reflexivity.
  - intros Hl write. unfold Benchmark.run.
    change (load_queries (with_write w write)) with (load_queries w).
    rewrite Hl. reflexivity.
Qed.

(** A configuration that asks for an output file, and a world where writing
    fails. *)
Definition with_output : BenchmarkConfig :=
  mkBenchmarkConfig None 10 (Some "results.json") false.

Definition read_only : World :=
  with_write two_queries (fun _ _ => Raise "PermissionError").

Lemma run_output_file_witness :
  exists e, Benchmark.run read_only [up] in_order (Some with_output) = Raise e.
Proof.
  apply (proj2 (proj1 (proj2 (run_output_file read_only [up] in_order (Some with_output)))
                  eq_refl ltac:(discriminate))).
  intros report. exists "PermissionError". reflexivity.
Defined.

(** ** The Parallel searcher: counts outside the usual range *)

(** [ParallelSearcher.search] raises what the HTTP exchange raises.  When
    the exchange returns, the number of results is the smaller of
    [num_results] and the number of raw results: none for a count of zero or
    less, and none when the body has no ["results"]; the rank kept in the
    metadata of a result is its position counted from 0. *)
Theorem parallel_search_edges
  (post : string -> Z -> outcome (option (list ParallelSearcher.RawResult)))
  (query : string) (num_results : Z) :
  (forall e, post query num_results = Raise e ->
             ParallelSearcher.search post query num_results = Raise e)
  /\ (forall data,
        post query num_results = Ok data ->
        exists results,
          ParallelSearcher.search post query num_results = Ok results
          /\ length results = Nat.min (Z.to_nat num_results) (length (default [] data))
          /\ ((num_results <= 0)%Z \/ data = None -> results = [])
          /\ forall (k : nat) (r : SearchResult),
               results !! k = Some r ->
               metadata r !! 0%nat = Some ("rank", MInt (Z.of_nat k))).
Proof.
  unfold ParallelSearcher.search. split; [intros e ->; reflexivity|].
  intros data ->. simpl. eexists. split; [reflexivity|].
  rewrite collect_take. replace (num_results - 0)%Z with num_results by lia.
  split; [rewrite length_imap; apply length_take|]. split.
  - intros [Hn| ->]; [|simpl; rewrite take_nil; reflexivity].
    replace (Z.to_nat num_results) with O by lia. reflexivity.
  - intros k r Hk. rewrite list_lookup_imap in Hk.
    destruct (take (Z.to_nat num_results) (default [] data) !! k); [|discriminate].
    injection Hk as <-. reflexivity.
Qed.

Lemma parallel_search_edges_witness :
  exists results,
    ParallelSearcher.search (fun _ _ => Ok (Some three_raw)) "engineer" (-1) = Ok results
    /\ length results = Nat.min (Z.to_nat (-1)) (length (default [] (Some three_raw)))
    /\ ((-1 <= 0)%Z \/ Some three_raw = None -> results = [])
    /\ forall (k : nat) (r : SearchResult),
         results !! k = Some r ->
         metadata r !! 0%nat = Some ("rank", MInt (Z.of_nat k)).
Proof.
  apply (proj2 (parallel_search_edges (fun _ _ => Ok (Some three_raw)) "engineer" (-1))).
  reflexivity.
Defined.

(** ** The Brave searcher *)

Section BraveQuery.

Import BraveSearcher.

Implicit Types (s w rest : list N) (ws : list (list N)).

(** The characters of the words, one more for each word. *)
Definition total ws : nat := sum_list_with (fun w => S (length w)) ws.

Lemma length_join_space ws : ws <> [] -> S (length (join_space ws)) = total ws.
Proof.
  induction ws as [|w ws IH]; [contradiction|]. intros _.
  destruct ws as [|w' ws]; [unfold total; simpl; lia|].
  change (join_space (w :: w' :: ws)) with (w ++ 32%N :: join_space (w' :: ws)).
  rewrite length_app. cbn [length].
  specialize (IH ltac:(discriminate)).
  change (total (w :: w' :: ws)) with (S (length w) + total (w' :: ws))%nat.
  lia.
Qed.

Lemma total_take (k : nat) ws : (total (take k ws) <= total ws)%nat.
Proof.
  revert k. induction ws as [|w ws IH]; intros [|k]; simpl; unfold total in *; simpl;
    try lia.
  specialize (IH k). lia.
Qed.

(** Does the text start with a character that is not a space? *)
Definition starts_word s : bool :=
  match s with
  | [] => false
  | c :: _ => negb (is_space c)
  end.

Lemma split_nonempty s : starts_word s = true -> split s <> [].
Proof.
  destruct s as [|c s]; [discriminate|]. cbn [starts_word split]. intros Hc.
  destruct (is_space c); [discriminate|].
  destruct s as [|c' s]; [discriminate|].
  destruct (is_space c'); [discriminate|].
  destruct (split (c' :: s)); discriminate.
Qed.

Lemma split_total s :
  (total (split s) <= length s + (if starts_word s then 1 else 0))%nat.
Proof.
  induction s as [|c s IH]; [unfold total; simpl; lia|].
  cbn [split starts_word length].
  destruct (is_space c) eqn:Hc; simpl negb; cbv iota.
  - destruct (starts_word s); lia.
  - destruct s as [|c' s]; [unfold total; simpl; lia|].
    cbn [starts_word] in IH.
    destruct (is_space c') eqn:Hc'; simpl negb in IH; cbv iota in IH.
    + change (total ([c] :: split (c' :: s))) with (2 + total (split (c' :: s)))%nat.
      lia.
    + pose proof (split_nonempty (c' :: s)) as Hne.
      cbn [starts_word] in Hne. rewrite Hc' in Hne. specialize (Hne eq_refl).
      destruct (split (c' :: s)) as [|w ws]; [contradiction|].
      change (total ((c :: w) :: ws)) with (S (total (w :: ws))).
      lia.
Qed.

(** A word: not empty, no space in it. *)
Definition word w : Prop := w <> [] /\ forallb (fun c => negb (is_space c)) w = true.

Lemma split_words s : Forall word (split s).
Proof.
  induction s as [|c s IH]; [constructor|].
  cbn [split]. destruct (is_space c) eqn:Hc; [exact IH|].
  assert (word [c]) as Hone.
  { split; [discriminate|]. simpl. rewrite Hc. reflexivity. }
  destruct s as [|c' s]; [repeat constructor; apply Hone|].
  destruct (is_space c') eqn:Hc'; [constructor; [exact Hone|exact IH]|].
  destruct (split (c' :: s)) as [|w ws]; [repeat constructor; apply Hone|].
  apply Forall_cons in IH as [[_ Hw] Hws]. constructor; [|exact Hws].
  split; [discriminate|]. simpl. rewrite Hc, Hw. reflexivity.
Qed.

Lemma split_cons (c : N) s :
  split (c :: s) =
  if is_space c then split s
  else match s with
       | [] => [[c]]
       | c' :: _ =>
           if is_space c' then [c] :: split s
           else match split s with
                | word :: words => (c :: word) :: words
                | [] => [[c]]
                end
       end.
Proof. reflexivity. Qed.

(** A word and what follows it, when that is empty or starts with a space. *)
Lemma split_word_app w rest :
  word w -> starts_word rest = false -> split (w ++ rest) = w :: split rest.
Proof.
  intros [Hne Hw] Hrest. induction w as [|c w IH]; [contradiction|].
  simpl in Hw. apply andb_true_iff in Hw as [Hc Hw]. apply negb_true_iff in Hc.
  destruct w as [|c' w].
  - change ([c] ++ rest) with (c :: rest). rewrite split_cons, Hc.
    destruct rest as [|c0 rest]; [reflexivity|].
    simpl in Hrest. apply negb_false_iff in Hrest. rewrite Hrest. reflexivity.
  - specialize (IH ltac:(discriminate) Hw).
    change ((c :: c' :: w) ++ rest) with (c :: (c' :: w) ++ rest).
    rewrite split_cons, Hc, IH.
    simpl in Hw. apply andb_true_iff in Hw as [Hc' _]. apply negb_true_iff in Hc'.
    change ((c' :: w) ++ rest) with (c' :: (w ++ rest)). cbv iota.
    rewrite Hc'. reflexivity.
Qed.

(** Splitting what [" ".join] made of words gives the words back. *)
Lemma split_join_space ws : Forall word ws -> split (join_space ws) = ws.
Proof.
  induction 1 as [|w ws Hw Hws IH]; [reflexivity|].
  destruct ws as [|w' ws].
  - cbn [join_space]. rewrite <- (app_nil_r w) at 1.
    apply (split_word_app w [] Hw eq_refl).
  - change (join_space (w :: w' :: ws)) with (w ++ 32%N :: join_space (w' :: ws)).
    rewrite split_word_app; [|exact Hw|reflexivity].
    f_equal. exact IH.
Qed.

End BraveQuery.

(** The query sent to Brave has at most 400 characters (code points).  When
    the query with its site filter has at most 400 characters, the query
    sent is made of its first 50 words, and is the query itself if it has at
    most 50 words; a longer query is cut to its first 400 characters. *)
Theorem prepare_query_limits (site_filter : option (list N)) (query : list N) :
  (length (BraveSearcher.prepare_query site_filter query) <= 400)%nat
  /\ ((length (BraveSearcher.with_site_filter site_filter query) <= 400)%nat ->
      BraveSearcher.split (BraveSearcher.prepare_query site_filter query)
      = take 50 (BraveSearcher.split (BraveSearcher.with_site_filter site_filter query)))
  /\ ((length (BraveSearcher.with_site_filter site_filter query) <= 400)%nat ->
      (length (BraveSearcher.split (BraveSearcher.with_site_filter site_filter query))
       <= 50)%nat ->
      BraveSearcher.prepare_query site_filter query
      = BraveSearcher.with_site_filter site_filter query)
  /\ ((400 < length (BraveSearcher.with_site_filter site_filter query))%nat ->
      BraveSearcher.prepare_query site_filter query
      = take 400 (BraveSearcher.with_site_filter site_filter query)).
Proof.
  unfold BraveSearcher.prepare_query.
  generalize (BraveSearcher.with_site_filter site_filter query). intros s.
  destruct (Nat.ltb_spec 400 (length s)) as [Hlong|Hshort].
  - split; [rewrite length_take; lia|].
    split; [lia|]. split; [lia|]. reflexivity.
  - destruct (Nat.ltb_spec 50 (length (BraveSearcher.split s))) as [Hmany|Hfew].
    + split; [|split; [|split]]; [| |lia|lia].
      * assert (take 50 (BraveSearcher.split s) <> []) as Hne.
        { destruct (BraveSearcher.split s); [simpl in Hmany; lia|discriminate]. }
        pose proof (length_join_space _ Hne).
        pose proof (total_take 50 (BraveSearcher.split s)).
        pose proof (split_total s).
        destruct (starts_word s); lia.
      * intros _. apply split_join_space, Forall_take, split_words.
    + split; [exact Hshort|]. split; [|split]; [| |lia].
      * intros _. symmetry. apply take_ge. lia.
      * reflexivity.
Qed.

(** A query of 201 one-letter words, 401 characters long. *)
Definition many_words : list N := BraveSearcher.join_space (replicate 201 [97%N]).

(** Past 400 characters only the characters are limited: the query sent
    holds 200 words. *)
Remark many_words_sent :
  length many_words = 401%nat
  /\ length (BraveSearcher.prepare_query None many_words) = 400%nat
  /\ length (BraveSearcher.split (BraveSearcher.prepare_query None many_words)) = 200%nat.
Proof. vm_compute. auto. Qed.

(** Characters are code points, whatever the number of their bytes: a text
    of 300 letters of two bytes each is sent as it is, and the ideographic
    space U+3000 separates words. *)
Remark prepare_query_code_points :
  code_points "é" = [233%N]
  /\ BraveSearcher.prepare_query None (replicate 300 233%N) = replicate 300 233%N
  /\ BraveSearcher.split [20013%N; 12288%N; 25991%N] = [[20013%N]; [25991%N]]
  /\ BraveSearcher.with_site_filter (Some (code_points "linkedin.com/in")) [97%N]
     = code_points "site:linkedin.com/in a".
Proof. vm_compute. auto. Qed.

Section BraveResults.

Import BraveSearcher.

(** What the loop makes of the hit at index [j]. *)
Definition result_of (jh : Z * option Hit) : option SearchResult :=
  match snd jh with
  | Some h =>
      match hit_url h with
      | Some u => Some (convert (fst jh) u h)
      | None => None
      end
  | None => None
  end.

Lemma collect_enumerate (i : Z) (web_results : list (option Hit)) :
  collect i web_results = omap result_of (enumerate web_results i).
Proof.
  revert i. induction web_results as [|hit rest IH]; intros i; [reflexivity|].
  cbn [collect enumerate omap list_omap]. unfold result_of at 1. cbn [fst snd].
  rewrite <- IH. destruct hit as [h|]; [|reflexivity].
  destruct (hit_url h); reflexivity.
Qed.

Lemma length_collect (i : Z) (web_results : list (option Hit)) :
  length (collect i web_results) = length (filter (fun hit => kept hit = true) web_results).
Proof.
  revert i. induction web_results as [|hit rest IH]; intros i; [reflexivity|].
  destruct (kept hit) eqn:Hk.
  - rewrite filter_cons_True by exact Hk.
    destruct hit as [h|]; [|discriminate]. unfold kept in Hk. cbn [collect].
    destruct (hit_url h); [|discriminate]. cbn [length]. rewrite IH. reflexivity.
  - rewrite filter_cons_False by (rewrite Hk; discriminate).
    destruct hit as [h|]; cbn [collect];
      [unfold kept in Hk; destruct (hit_url h); [discriminate|]|]; apply IH.
Qed.

(** The result at position [k] is made of the hit that has [k] kept hits
    before it. *)
Lemma collect_lookup (i : Z) (web_results : list (option Hit)) (k : nat) (r : SearchResult) :
  collect i web_results !! k = Some r ->
  exists (j : nat) (hit : Hit),
    web_results !! j = Some (Some hit)
    /\ hit_url hit = Some (url r)
    /\ r = convert (i + Z.of_nat j) (url r) hit
    /\ length (filter (fun hit => kept hit = true) (take j web_results)) = k.
Proof.
  revert i k. induction web_results as [|hit rest IH]; intros i k; [discriminate|].
  assert (kept hit = false ->
          collect (i + 1) rest !! k = Some r ->
          exists j hit0, (hit :: rest) !! j = Some (Some hit0)
            /\ hit_url hit0 = Some (url r)
            /\ r = convert (i + Z.of_nat j) (url r) hit0
            /\ length (filter (fun hit => kept hit = true) (take j (hit :: rest))) = k)
    as Hskip.
  { intros Hkept (j & hit0 & Hj & Hu & Hr & Hk)%IH. exists (S j), hit0.
    split; [exact Hj|]. split; [exact Hu|]. split.
    - rewrite Hr at 1. f_equal. lia.
    - cbn [take]. rewrite filter_cons_False by (rewrite Hkept; discriminate). exact Hk. }
  cbn [collect]. destruct hit as [h|]; [|apply Hskip; reflexivity].
  destruct (hit_url h) as [u|] eqn:Hu; [|apply Hskip; unfold kept; rewrite Hu; reflexivity].
  destruct k as [|k].
  - intros [= <-]. exists O, h. cbn. split; [reflexivity|]. split; [exact Hu|].
    split; [f_equal; lia|reflexivity].
  - cbn [lookup list_lookup]. intros (j & hit0 & Hj & Hu0 & Hr & Hk)%IH.
    exists (S j), hit0. split; [exact Hj|]. split; [exact Hu0|]. split.
    + rewrite Hr at 1. f_equal. lia.
    + cbn [take]. rewrite filter_cons_True by (unfold kept; rewrite Hu; reflexivity).
      cbn [length]. rewrite Hk. reflexivity.
Qed.

End BraveResults.

(** The Brave searcher returns one result for each hit of [web.results]
    that is an object with a url, in the order of the hits and whatever
    their number: the list is what the loop body makes of the hits taken
    with their positions from 0, the hits without url left out.  So the
    result at position [k] comes from the hit that has exactly [k] hits with
    a url before it; it carries the url, title and description of that hit
    and, as its rank, the position of the hit in [web.results], hits left
    out included.  A response without [web.results] gives no result. *)
Theorem brave_search_results
  (get : list N -> Z -> outcome (option (list (option BraveSearcher.Hit))))
  (site_filter : option string) (query : string) (num_results : Z)
  (data : option (list (option BraveSearcher.Hit)))
  (Hget : get (BraveSearcher.prepare_query (code_points <$> site_filter) (code_points query))
              num_results = Ok data) :
  exists results,
    BraveSearcher.search get site_filter query num_results = Ok results
    /\ results = omap result_of (enumerate (default [] data) 0)
    /\ map url results = omap (fun hit => h ← hit; BraveSearcher.hit_url h) (default [] data)
    /\ length results
       = length (filter (fun hit => BraveSearcher.kept hit = true) (default [] data))
    /\ (forall (k : nat) (r : SearchResult),
          results !! k = Some r ->
          exists (j : nat) (hit : BraveSearcher.Hit),
            default [] data !! j = Some (Some hit)
            /\ length (filter (fun hit => BraveSearcher.kept hit = true)
                         (take j (default [] data))) = k
            /\ BraveSearcher.hit_url hit = Some (url r)
            /\ title r = default "" (BraveSearcher.hit_title hit)
            /\ text r = default "" (BraveSearcher.hit_description hit)
            /\ metadata r !! 0%nat = Some ("rank", MInt (Z.of_nat j))).
Proof.
  exists (BraveSearcher.collect 0 (default [] data)).
  split; [unfold BraveSearcher.search; rewrite Hget; reflexivity|].
  split; [apply collect_enumerate|].
  split; [|split; [apply length_collect|]].
  - generalize 0. induction (default [] data) as [|hit rest IH]; intros i; [reflexivity|].
    cbn [BraveSearcher.collect omap list_omap].
    destruct hit as [h|]; cbn [mbind option_bind]; [|apply IH].
    destruct (BraveSearcher.hit_url h); cbn [map]; rewrite IH; reflexivity.
  - intros k r (j & hit & Hj & Hu & Hr & Hk)%collect_lookup.
    exists j, hit. split; [exact Hj|]. split; [exact Hk|]. split; [exact Hu|].
    rewrite Hr. simpl. auto.
Qed.

(** A response of Brave: a hit, an entry that is no object, a hit without
    url, a hit. *)
Definition brave_hits : list (option BraveSearcher.Hit) :=
  [Some (BraveSearcher.mkHit (Some "https://a.example") (Some "A") None None (Some "2 days ago"));
   None;
   Some (BraveSearcher.mkHit None (Some "B") None None None);
   Some (BraveSearcher.mkHit (Some "https://c.example") None (Some "c") (Some "2024-01-01") None)].

Definition brave_up (q : list N) (count : Z)
  : outcome (option (list (option BraveSearcher.Hit))) :=
  Ok (Some brave_hits).

Lemma brave_search_results_witness :
  exists results,
    BraveSearcher.search brave_up None "ada lovelace" 1 = Ok results
    /\ results = omap result_of (enumerate brave_hits 0)
    /\ map url results = omap (fun hit => h ← hit; BraveSearcher.hit_url h) brave_hits
    /\ length results
       = length (filter (fun hit => BraveSearcher.kept hit = true) brave_hits)
    /\ (forall (k : nat) (r : SearchResult),
          results !! k = Some r ->
          exists (j : nat) (hit : BraveSearcher.Hit),
            brave_hits !! j = Some (Some hit)
            /\ length (filter (fun hit => BraveSearcher.kept hit = true)
                         (take j brave_hits)) = k
            /\ BraveSearcher.hit_url hit = Some (url r)
            /\ title r = default "" (BraveSearcher.hit_title hit)
            /\ text r = default "" (BraveSearcher.hit_description hit)
            /\ metadata r !! 0%nat = Some ("rank", MInt (Z.of_nat j))).
Proof.
  exact (brave_search_results brave_up None "ada lovelace" 1 (Some brave_hits) eq_refl).
Defined.

(** With a requested count of 1, the response above gives two results, of
    ranks 0 and 3: the count is passed to the API and is not applied to the
    response. *)
Remark brave_search_not_capped :
  BraveSearcher.search brave_up None "ada lovelace" 1
  = Ok [ {| url := "https://a.example"; title := "A"; text := "";
            metadata := [("rank", MInt 0); ("published_date", MStr "2 days ago")] |};
         {| url := "https://c.example"; title := ""; text := "c";
            metadata := [("rank", MInt 3); ("published_date", MStr "2024-01-01")] |} ].
Proof. reflexivity. Qed.

(** Whether the environment holds an API key for the searcher of that name:
    the variables the three constructors read. *)
Definition has_key (getenv : string -> option string) (name : string) : bool :=
  if String.eqb name "exa" then truthy (getenv "EXA_API_KEY")
  else if String.eqb name "brave"
  then truthy (getenv "BRAVE_SEARCH_API_KEY") || truthy (getenv "BRAVE_API_KEY")
  else if String.eqb name "parallel"
  then truthy (getenv "PARALLEL_API_KEY") || truthy (getenv "PARALLELS_API_KEY")
  else false.

Section Build.

Variable getenv : string -> option string.

Lemma or_else_truthy (a b : option string) :
  truthy (or_else a b) = truthy a || truthy b.
Proof. unfold or_else. destruct (truthy a) eqn:Ha; [rewrite Ha|]; reflexivity. Qed.

Lemma truthy_default (a : option string) : truthy a = true -> default "" a <> "".
Proof. intros (x & -> & Hx)%truthy_Some. exact Hx. Qed.

Lemma _build_searcher_cases (name : string) :
  exists r, _build_searcher getenv name = Ok r
    /\ (has_key getenv name = false -> r = None)
    /\ (has_key getenv name = true ->
        exists o, r = Some o /\ object_name o = name /\ object_api_key o <> "").
Proof.
  unfold _build_searcher, has_key.
  destruct (String.eqb_spec name "exa") as [->|_].
  { unfold ExaSearcher_init. rewrite or_else_truthy. simpl (truthy None || _).
    destruct (truthy (getenv "EXA_API_KEY")) eqn:Hk; simpl.
    - eexists. split; [reflexivity|]. split; [discriminate|]. intros _.
      eexists. split; [reflexivity|]. split; [reflexivity|]. simpl.
      apply truthy_default. rewrite or_else_truthy. exact Hk.
    - eexists. split; [reflexivity|]. split; [reflexivity|discriminate]. }
  destruct (String.eqb_spec name "brave") as [->|_].
  { unfold BraveSearcher_init. rewrite !or_else_truthy. simpl (truthy None || _).
    destruct (truthy (getenv "BRAVE_SEARCH_API_KEY") || truthy (getenv "BRAVE_API_KEY"))
      eqn:Hk; simpl.
    - eexists. split; [reflexivity|]. split; [discriminate|]. intros _.
      eexists. split; [reflexivity|]. split; [reflexivity|]. simpl.
      apply truthy_default. rewrite !or_else_truthy. exact Hk.
    - eexists. split; [reflexivity|]. split; [reflexivity|discriminate]. }
  destruct (String.eqb_spec name "parallel") as [->|_].
  { unfold ParallelSearcher_init. rewrite !or_else_truthy. simpl (truthy None || _).
    destruct (truthy (getenv "PARALLEL_API_KEY") || truthy (getenv "PARALLELS_API_KEY"))
      eqn:Hk; simpl.
    - eexists. split; [reflexivity|]. split; [discriminate|]. intros _.
      eexists. split; [reflexivity|]. split; [reflexivity|]. simpl.
      apply truthy_default. rewrite !or_else_truthy. exact Hk.
    - eexists. split; [reflexivity|]. split; [reflexivity|discriminate]. }
  exists None. split; [reflexivity|]. split; [reflexivity|discriminate].
Qed.

Lemma build_searchers_cases (searcher_names : list string) :
  exists built,
    build_searchers getenv searcher_names = Ok built
    /\ map object_name built = filter (fun n => has_key getenv n = true) searcher_names
    /\ Forall (fun o => object_api_key o <> "") built.
Proof.
  induction searcher_names as [|n rest (built & IH & Hnames & Hkeys)].
  - exists []. split; [reflexivity|]. split; [reflexivity|constructor].
  - destruct (_build_searcher_cases n) as (r & Hr & Hno & Hyes).
    simpl. rewrite Hr, IH. simpl.
    destruct (has_key getenv n) eqn:Hk.
    + destruct (Hyes eq_refl) as (o & -> & Hn & Hkey).
      exists (o :: built). split; [reflexivity|].
      rewrite filter_cons_True by exact Hk. simpl. rewrite Hn, Hnames.
      split; [reflexivity|]. constructor; assumption.
    + rewrite (Hno eq_refl). exists built. split; [reflexivity|].
      rewrite filter_cons_False by (rewrite Hk; discriminate). auto.
Qed.

Lemma name_searcher_of (http : Http) (o : SearcherObject) :
  name (searcher_of http o) = object_name o.
Proof. destruct o; reflexivity. Qed.

End Build.

(** Building the searchers never raises.  The searchers built are, in the
    order of the names asked for, those whose name is [exa], [brave] or
    [parallel] and whose API key is set to a non-empty string in the
    environment; each holds a non-empty key, and names asked for once give
    searchers of distinct names. *)
Theorem build_searchers_available (getenv : string -> option string)
  (searcher_names : list string) :
  exists built,
    build_searchers getenv searcher_names = Ok built
    /\ map object_name built = filter (fun n => has_key getenv n = true) searcher_names
    /\ Forall (fun o => object_api_key o <> "") built
    /\ Forall (fun o => object_name o ∈ ["exa"; "brave"; "parallel"]) built
    /\ (NoDup searcher_names ->
        forall http, NoDup (map name (map (searcher_of http) built))).
Proof.
  destruct (build_searchers_cases getenv searcher_names) as (built & Hb & Hnames & Hkeys).
  exists built. split; [exact Hb|]. split; [exact Hnames|]. split; [exact Hkeys|]. split.
  - apply Forall_forall. intros o. destruct o; simpl; set_solver.
  - intros Hnd http. rewrite map_map.
    rewrite (map_ext _ object_name) by (intros o; apply name_searcher_of).
    rewrite Hnames. apply NoDup_filter, Hnd.
Qed.

(** [main] stops with its first notice exactly when the data file is
    missing, and with its second when the file is there and no name asked for
    has a key.  If it runs the benchmark and the run returns, every entry of
    the report's [searchers] mapping is under a name asked for (the three
    known names by default) whose API key is set. *)
Theorem main_ends (w : World) (getenv : string -> option string) (http : Http)
  (schedule : nat -> list Query -> list Query) (args : Args) :
  (main w getenv http schedule args = Ok NoData <-> data_file w = None)
  /\ (main w getenv http schedule args = Ok NoSearchers <->
      data_file w <> None
      /\ Forall (fun n => has_key getenv n = false) (searcher_names_of args))
  /\ (forall report nm m,
        main w getenv http schedule args = Ok (Ran report) ->
        Benchmark.report_searchers report !! nm = Some m ->
        nm ∈ searcher_names_of args /\ has_key getenv nm = true).
Proof.
  unfold main.
  destruct (build_searchers_cases getenv (searcher_names_of args))
    as (built & Hb & Hnames & _).
  assert (built = [] <->
          Forall (fun n => has_key getenv n = false) (searcher_names_of args)) as Hnone.
  { split.
    - intros ->. apply Forall_forall. intros n Hn.
      destruct (has_key getenv n) eqn:Hk; [|reflexivity].
      assert (n ∈ filter (fun n => has_key getenv n = true) (searcher_names_of args)) as Hin
        by (apply list_elem_of_filter; auto).
      rewrite <- Hnames in Hin. inversion Hin.
    - intros Hall. destruct built as [|o built]; [reflexivity|].
      assert (object_name o ∈ map object_name (o :: built)) as Hin by left.
      rewrite Hnames in Hin. apply list_elem_of_filter in Hin as [Hk Hin].
      rewrite Forall_forall in Hall. rewrite (Hall _ Hin) in Hk. discriminate. }
  destruct (data_file w) as [f|].
  - rewrite Hb. simpl. split; [|split].
    + split; [|discriminate]. destruct built; [discriminate|].
      destruct (Benchmark.run _ _ _ _); discriminate.
    + split.
      * intros Hm. split; [discriminate|]. apply Hnone.
        destruct built; [reflexivity|]. destruct (Benchmark.run _ _ _ _); discriminate.
      * intros [_ Hall]. apply Hnone in Hall. rewrite Hall. reflexivity.
    + intros report nm m Hm Hentry. destruct built as [|o built']; [discriminate|].
      set (built := o :: built') in *.
      destruct (Benchmark.run w (map (searcher_of http) built) schedule
                  (Some (config_of args))) as [report'|e] eqn:Hrun; [|discriminate].
      simpl in Hm. injection Hm as ->.
      destruct (report_searchers_inv w _ schedule _ report nm m Hrun Hentry)
        as (i & s & grades & Hs & Hn & _).
      apply list_elem_of_lookup_2 in Hs.
      apply list_elem_of_fmap in Hs as (o' & -> & Ho').
      rewrite name_searcher_of in Hn. subst nm.
      assert (object_name o' ∈ map object_name built) as Hin
        by (apply list_elem_of_fmap; eauto).
      rewrite Hnames in Hin. apply list_elem_of_filter in Hin as [Hk Hin]. auto.
  - split; [split; reflexivity|]. split; [|discriminate].
    split; [discriminate|]. intros [Hf _]. contradiction.
Qed.

(** An environment with the second Brave variable only, the three endpoints
    (Brave answering the hits above), and a command line without options. *)
Definition brave_key_only (variable : string) : option string :=
  if String.eqb variable "BRAVE_API_KEY" then Some "k" else None.

Definition endpoints : Http :=
  {| exa_post := fun _ => Ok None;
     brave_get := brave_up;
     parallel_post := fun _ _ => Ok None |}.

Definition no_options : Args :=
  {| args_limit := None;
     args_num_results := 10;
     args_output := None;
     args_enrich_exa_contents := false;
     args_searchers := None |}.

(** There [main] runs the Brave searcher alone, and the report has its
    entry; without any key it stops before the run. *)
Remark main_with_brave_key :
  main two_queries brave_key_only endpoints in_order no_options
  = Ok (Ran {[ "config" := ConfigEntry None;
              "searchers" := SearchersEntry {[ "brave" := mkRetrievalMetrics 1 1 1 2 ]} ]})
  /\ main two_queries (fun _ => None) endpoints in_order no_options = Ok NoSearchers
  /\ main no_data brave_key_only endpoints in_order no_options = Ok NoData.
Proof. split; [|split]; reflexivity. Qed.

Section ExaResults.

Import ExaSearcher.


End ExaResults.




(** ** The semaphores never block a run for good *)

Section Progress.

Import Scheduling.

Local Open Scope nat_scope.

Variables (w : World) (config : BenchmarkConfig) (queries : list Query).

Definition is_cancelled (p : ProcessTask) : nat :=
  match p with
  | Cancelled => 1
  | _ => 0
  end.

(** The coroutines cancelled so far. *)
Definition cancelled (st : State) : nat :=
  sum_list_with (fun r => sum_list_with is_cancelled (processes r)) (runs st).

Lemma sum_list_with_pos {A} (f : A -> nat) (l : list A) :
  0 < sum_list_with f l -> exists i x, l !! i = Some x /\ 0 < f x.
Proof.
  induction l as [|x l IH]; simpl; [lia|].
  intros H. destruct (f x) eqn:Hx.
  - destruct IH as (i & y & Hi & Hy); [lia|]. exists (S i), y. auto.
  - exists 0, x. split; [reflexivity|lia].
Qed.

Lemma reachable_length (searchers : list Searcher) (cap : nat) (st : State) :
  reachable w config queries searchers (initial cap searchers queries) st ->
  length (runs st) = length searchers.
Proof.
  induction 1 as [|st st' _ IH Hstep].
  - simpl. apply length_map.
  - inversion Hstep; subst. simpl in *. rewrite length_insert. exact IH.
Qed.

(** A step of one coroutine to a state other than [Cancelled], as a step of
    the run. *)
Lemma lift_run_step (searchers : list Searcher) (g g' : nat) (rs : list SearcherRun)
  (s : nat) (searcher : Searcher) (r : SearcherRun) (j : nat) (p p' : ProcessTask)
  (v' : nat) (gr' : list Grade) :
  searchers !! s = Some searcher ->
  rs !! s = Some r ->
  processes r !! j = Some p -> is_cancelled p = 0 -> is_cancelled p' = 0 ->
  run_step w config queries searcher (g, r)
    (g', mkSearcherRun v' (<[j := p']> (processes r)) gr') ->
  exists st', step w config queries searchers (mkState g rs) st'
              /\ cancelled st' = cancelled (mkState g rs).
Proof.
  intros Hs Hr Hj Hp Hp' Hstep. eexists. split.
  - eapply searcher_steps; eassumption.
  - unfold cancelled. simpl.
    pose proof (sum_list_with_insert
                  (fun r => sum_list_with is_cancelled (processes r)) rs s r
                  (mkSearcherRun v' (<[j := p']> (processes r)) gr') Hr) as H1.
    pose proof (sum_list_with_insert is_cancelled (processes r) j p p' Hj) as H2.
    simpl in H1. lia.
Qed.

Lemma grade_tasks_cases (gs : list GradeTask) :
  (exists k, gs !! k = Some GGrading)
  \/ Forall (fun t => t = GReturned) gs
  \/ (exists k, gs !! k = Some GWaiting).
Proof.
  induction gs as [|t gs IH]; [right; left; constructor|].
  destruct t.
  - right; right. exists 0. reflexivity.
  - left. exists 0. reflexivity.
  - destruct IH as [[k Hk]|[Hall|[k Hk]]].
    + left. exists (S k). exact Hk.
    + right; left. constructor; auto.
    + right; right. exists (S k). exact Hk.
Qed.

(** With a permit left in the grading semaphore, a coroutine inside the
    block of its searcher can take a step. *)
Lemma in_block_advances (searchers : list Searcher) (g : nat) (rs : list SearcherRun)
  (s : nat) (searcher : Searcher) (r : SearcherRun) (j : nat) (p : ProcessTask) :
  searchers !! s = Some searcher ->
  rs !! s = Some r ->
  length (processes r) = length queries ->
  processes r !! j = Some p ->
  in_block p = 1 ->
  exists st', step w config queries searchers (mkState (S g) rs) st'
              /\ cancelled st' = cancelled (mkState (S g) rs).
Proof.
  intros Hs Hr Hlen Hj Hp. destruct r as [v ps gr]. simpl in *.
  assert (is_Some (queries !! j)) as [q Hq].
  { apply lookup_lt_is_Some. rewrite <- Hlen. apply lookup_lt_is_Some. eauto. }
  destruct p as [| |results|results gs| | |]; try discriminate.
  - destruct (search searcher (query_text q) (num_results config)) as [results|e] eqn:Hsearch.
    + eapply (lift_run_step searchers (S g) (S g) rs s searcher _ j _ _ v gr Hs Hr Hj);
        [reflexivity| |].
      2: exact (search_returns w config queries searcher (S g) v ps gr j q results
                  Hj Hq Hsearch).
      destruct (enrich_exa_contents config); reflexivity.
    + eapply (lift_run_step searchers (S g) (S g) rs s searcher _ j _ _ (S v) gr Hs Hr Hj);
        [reflexivity| |].
      2: exact (search_raises w config queries searcher (S g) v ps gr j q e Hj Hq Hsearch).
      reflexivity.
  - destruct (enrich_results_ok w results) as [results' He].
    eapply (lift_run_step searchers (S g) (S g) rs s searcher _ j _ _ v gr Hs Hr Hj);
      [reflexivity| |].
    2: exact (enrich_returns w config queries searcher (S g) v ps gr j results results'
                Hj He).
    reflexivity.
  - destruct (grade_tasks_cases gs) as [[k Hk]|[Hall|[k Hk]]].
    + eapply (lift_run_step searchers (S g) (S (S g)) rs s searcher _ j _ _ v gr Hs Hr Hj);
        [reflexivity| |].
      2: exact (grading_steps w config queries searcher (S g) (S (S g)) v ps gr j results
                  gs _ Hj (grade_leave (S g) gs k Hk)).
      reflexivity.
    + eapply (lift_run_step searchers (S g) (S g) rs s searcher _ j _ _ (S v) _ Hs Hr Hj);
        [reflexivity| |].
      2: exact (process_leaves w config queries searcher (S g) v ps gr j q results gs _
                  Hj Hall Hq (_grade_ok w q results)).
      reflexivity.
    + eapply (lift_run_step searchers (S g) g rs s searcher _ j _ _ v gr Hs Hr Hj);
        [reflexivity| |].
      2: exact (grading_steps w config queries searcher (S g) g v ps gr j results
                  gs _ Hj (grade_enter g gs k Hk)).
      reflexivity.
Qed.

(** A grading call in flight can return. *)
Lemma grading_advances (searchers : list Searcher) (g : nat) (rs : list SearcherRun) :
  length rs = length searchers ->
  0 < gradings_in_flight (mkState g rs) ->
  exists st', step w config queries searchers (mkState g rs) st'
              /\ cancelled st' = cancelled (mkState g rs).
Proof.
  intros Hlen (s & r & Hr & Hpos)%sum_list_with_pos. simpl in Hr.
  apply sum_list_with_pos in Hpos as (j & p & Hj & Hpos).
  destruct p as [| |results|results gs| | |]; simpl in Hpos; try lia.
  apply sum_list_with_pos in Hpos as (k & t & Hk & Hpos).
  destruct t; simpl in Hpos; try lia.
  assert (is_Some (searchers !! s)) as [searcher Hs].
  { apply lookup_lt_is_Some. rewrite <- Hlen. apply lookup_lt_is_Some. eauto. }
  destruct r as [v ps gr]. simpl in *.
  eapply (lift_run_step searchers g (S g) rs s searcher _ j _ _ v gr Hs Hr Hj);
    [reflexivity| |].
  2: exact (grading_steps w config queries searcher g (S g) v ps gr j results
              gs _ Hj (grade_leave g gs k Hk)).
  reflexivity.
Qed.

End Progress.

(** With a grading semaphore of capacity at least 1, a run is never blocked
    by its semaphores: in every state of the run, as long as some coroutine
    of a query has neither finished, raised nor been cancelled, some
    coroutine can take a step, and no cancellation is needed for it (search,
    enrichment and grading calls being calls that return or raise). *)
Theorem run_never_stuck (w : World) (config : BenchmarkConfig)
  (queries : list Query) (searchers : list Searcher)
  (grading_concurrency : nat) (st : Scheduling.State)
  (s : nat) (r : Scheduling.SearcherRun) (j : nat) (p : Scheduling.ProcessTask) :
  (1 <= grading_concurrency)%nat ->
  Scheduling.reachable w config queries searchers
    (Scheduling.initial grading_concurrency searchers queries) st ->
  Scheduling.runs st !! s = Some r ->
  Scheduling.processes r !! j = Some p ->
  p = Scheduling.Pending \/ Scheduling.in_block p = 1%nat ->
  exists st',
    Scheduling.step w config queries searchers st st'
    /\ cancelled st' = cancelled st.
Proof.
  intros Hcap Hreach Hr Hj Hp.
  pose proof (reachable_length w config queries searchers _ st Hreach) as Hlen.
  pose proof (reachable_ok w config queries searchers _ st Hreach) as Hok.
  destruct (reachable_balanced w config queries searchers _ st Hreach) as [Hruns Hgr].
  destruct st as [g rs]. simpl in *.
  destruct g as [|g].
  { apply grading_advances; [exact Hlen|]. simpl in Hgr. lia. }
  assert (is_Some (searchers !! s)) as [searcher Hs].
  { apply lookup_lt_is_Some. rewrite <- Hlen. apply lookup_lt_is_Some. eauto. }
  destruct (Hok s searcher r Hs Hr) as (Hlenr & _).
  destruct Hp as [->|Hp];
    [|exact (in_block_advances w config queries searchers g rs s searcher r j p
               Hs Hr Hlenr Hj Hp)].
  rewrite Forall_forall in Hruns.
  pose proof (Hruns r (list_elem_of_lookup_2 _ _ _ Hr)) as Hbal.
  unfold run_balanced, Scheduling.SEARCHER_CONCURRENCY in Hbal.
  destruct r as [v ps gr]. simpl in *. destruct v as [|v].
  - destruct (sum_list_with_pos Scheduling.in_block ps) as (j' & p' & Hj' & Hp'); [lia|].
    apply (in_block_advances w config queries searchers g rs s searcher
             (Scheduling.mkSearcherRun 0 ps gr) j' p' Hs Hr Hlenr Hj').
    destruct p'; simpl in *; lia.
  - eapply (lift_run_step w config queries searchers (S g) (S g) rs s searcher _ j _ _
              v gr Hs Hr Hj); [reflexivity| |].
    2: exact (Scheduling.process_enter w config queries searcher (S g) v ps gr j Hj).
    reflexivity.
Qed.

Lemma run_never_stuck_witness :
  exists st',
    Scheduling.step two_queries default_config [q1] [up]
      (Scheduling.initial 50 [up] [q1]) st'
    /\ cancelled st' = cancelled (Scheduling.initial 50 [up] [q1]).
Proof.
  apply (run_never_stuck two_queries default_config [q1] [up] 50
           (Scheduling.initial 50 [up] [q1]) 0
           (Scheduling.mkSearcherRun 20 [Scheduling.Pending] []) 0 Scheduling.Pending).
  - lia.
  - apply Scheduling.reachable_init.
  - reflexivity.
  - reflexivity.
  - left. reflexivity.
Defined.

(** A grading semaphore of capacity 0: the query has its result and its
    grading waits for a permit. *)
Definition grading_blocked : Scheduling.State :=
  Scheduling.mkState 0
    [Scheduling.mkSearcherRun 19
       [Scheduling.Grading [profile "ada"] [Scheduling.GWaiting]] []].

(** With capacity 0 the run does get blocked: the state above is reached,
    and the only step left there is the cancellation of the coroutine. *)
Remark zero_grading_capacity_blocks :
  Scheduling.reachable two_queries default_config [q1] [up]
    (Scheduling.initial 0 [up] [q1]) grading_blocked
  /\ forall st',
       Scheduling.step two_queries default_config [q1] [up] grading_blocked st' ->
       st' = Scheduling.mkState 0
               [Scheduling.mkSearcherRun 20 [Scheduling.Cancelled] []].
Proof.
  split.
  - eapply Scheduling.reachable_step; [eapply Scheduling.reachable_step;
                                       [apply Scheduling.reachable_init|]|].
    + apply (Scheduling.searcher_steps _ _ _ [up] 0 0
               [Scheduling.mkSearcherRun 20 [Scheduling.Pending] []] 0 up
               (Scheduling.mkSearcherRun 20 [Scheduling.Pending] [])
               (Scheduling.mkSearcherRun 19 [Scheduling.Searching] []));
        [reflexivity|reflexivity|].
      apply (Scheduling.process_enter _ _ _ _ 0 19 [Scheduling.Pending] [] 0). reflexivity.
    + apply (Scheduling.searcher_steps _ _ _ [up] 0 0
               [Scheduling.mkSearcherRun 19 [Scheduling.Searching] []] 0 up
               (Scheduling.mkSearcherRun 19 [Scheduling.Searching] [])
               (Scheduling.mkSearcherRun 19
                  [Scheduling.Grading [profile "ada"] [Scheduling.GWaiting]] []));
        [reflexivity|reflexivity|].
      apply (Scheduling.search_returns two_queries default_config [q1] up 0 19
               [Scheduling.Searching] [] 0 q1 [profile "ada"]); reflexivity.
  - intros st' Hstep. unfold grading_blocked in Hstep.
    inversion Hstep as [g g' rs s searcher r r' Hsearcher Hs Hrun]; subst.
    destruct s as [|s]; [|discriminate]. simpl in Hs. injection Hs as <-.
    inversion Hrun as [g0 v ps gr j Hj
                      |g0 v ps gr j q results Hj Hq Hsr
                      |g0 v ps gr j q e Hj Hq Hsr
                      |g0 v ps gr j results results' Hj He
                      |g0 g0' v ps gr j results gs gs' Hj Hgs
                      |g0 v ps gr j q results gs new_grades Hj Hgs Hq Hg
                      |g0 v ps gr j p Hj Hp]; subst;
      (destruct j as [|j]; [|discriminate]); simpl in Hj; try discriminate.
    + injection Hj as <- <-.
      inversion Hgs as [v0 gs0 k Hk|v0 gs0 k Hk]; subst.
      destruct k; discriminate.
    + injection Hj as <- <-. inversion Hgs as [|t l Ht _]. discriminate.
    + injection Hj as <-. reflexivity.
Qed.

(** The run of one query followed to its end gives the grades of
    [Benchmark._run_searcher]. *)
Lemma finished_run_adequate_witness :
  exists completion : list Query -> list Query,
    completion [q1] ≡ₚ [q1]
    /\ Benchmark._run_searcher two_queries up [q1] default_config completion
       = Ok [ada_grade].
Proof.
  apply (finished_run_adequate two_queries default_config [q1] [up] 50 one_query_done 0 up
           (Scheduling.mkSearcherRun 20 [Scheduling.Finished] [ada_grade])).
  - exact one_query_done_reachable.
  - reflexivity.
  - reflexivity.
  - repeat constructor.
Defined.

(** One query, and a searcher whose request fails: the coroutine has left
    the block by the exception. *)
Definition one_query_raised : Scheduling.State :=
  Scheduling.mkState 50
    [Scheduling.mkSearcherRun 20 [Scheduling.Raised "HTTPStatusError"] []].

Lemma one_query_raised_reachable :
  Scheduling.reachable two_queries default_config [q1] [down]
    (Scheduling.initial 50 [down] [q1]) one_query_raised.
Proof.
  eapply Scheduling.reachable_step; [eapply Scheduling.reachable_step;
                                     [apply Scheduling.reachable_init|]|].
  - apply (Scheduling.searcher_steps _ _ _ [down] 50 50
             [Scheduling.mkSearcherRun 20 [Scheduling.Pending] []] 0 down
             (Scheduling.mkSearcherRun 20 [Scheduling.Pending] [])
             (Scheduling.mkSearcherRun 19 [Scheduling.Searching] []));
      [reflexivity|reflexivity|].
    apply (Scheduling.process_enter _ _ _ _ 50 19 [Scheduling.Pending] [] 0). reflexivity.
  - apply (Scheduling.searcher_steps _ _ _ [down] 50 50
             [Scheduling.mkSearcherRun 19 [Scheduling.Searching] []] 0 down
             (Scheduling.mkSearcherRun 19 [Scheduling.Searching] [])
             (Scheduling.mkSearcherRun 20 [Scheduling.Raised "HTTPStatusError"] []));
      [reflexivity|reflexivity|].
    apply (Scheduling.search_raises two_queries default_config [q1] down 50 19
             [Scheduling.Searching] [] 0 q1 "HTTPStatusError"); reflexivity.
Qed.

Lemma raised_run_adequate_witness :
  exists e',
    Benchmark._run_searcher two_queries down [q1] default_config (in_order 0) = Raise e'.
Proof.
  apply (raised_run_adequate two_queries default_config [q1] [down] 50 one_query_raised 0
           down (Scheduling.mkSearcherRun 20 [Scheduling.Raised "HTTPStatusError"] [])
           0 "HTTPStatusError").
  - exact one_query_raised_reachable.
  - reflexivity.
  - reflexivity.
  - reflexivity.
  - reflexivity.
Defined.
